(** * lagom: the TD3 agent and the episode runner

    A shallow embedding of [baselines/ddpg_td3/td3_agent.py] and
    [lagom/runner/episode_runner.py].

    Conventions of the embedding:
    - float tensors and numpy arrays hold real numbers ([R]), the usual
      idealisation of floating point (no rounding, no NaN); a vector is a
      [list R], a batch is a list of rows;
    - the value of a forward pass ([Linear.forward], [Actor.forward],
      [Critic.Q1], ...) is defined on rows of any width; it is the value
      the code computes on rows of the width the layer was built for, and
      on any other width the code raises.  [choose_action], which receives
      its observation from outside, runs the checked pass ([Linear.call],
      [Actor.call]); statements about the values computed inside [learn]
      that depend on the shape of a batch say so in a hypothesis;
    - the mean of an empty tensor, NaN in the code, has no counterpart in
      [R]: statements about a mean are about non-empty tensors;
    - a Python exception is a value of [exn]; code that can raise returns a
      [result], and a [Raise] carries no state: what a call had changed
      before it raised is not observed;
    - module parameters live in a store ([gmap nat tensor]) and networks,
      optimizers and the agent hold references into it, so that sharing
      between the online networks, the target networks and the optimizers
      is a property of the program and not of the model;
    - the collaborators that are not part of the repository (random number
      generation, the replay buffer, automatic differentiation, Adam) are
      the fields of the class [Backend]. *)

From Stdlib Require Import Reals Lra Lia ZArith String.
From stdpp Require Import base gmap strings list.

Open Scope R_scope.

(** ** Python results *)

Inductive exn : Type :=
| AssertionError
| ValueError
| IndexError
| AttributeError (name : string)
| KeyError (key : string)
| ZeroDivisionError
| UnboundLocalError (name : string)
| RuntimeError (msg : string).

Inductive result (A : Type) : Type :=
| Ok (a : A)
| Raise (e : exn).
Arguments Ok {A} a.
Arguments Raise {A} e.

Definition bind {A B : Type} (m : result A) (k : A → result B) : result B :=
  match m with
  | Ok a => k a
  | Raise e => Raise e
  end.

Notation "'let*' x ':=' m 'in' k" := (bind m (λ x, k))
  (at level 10, x pattern, m at level 100, k at level 200).

Definition assert (b : bool) : result unit :=
  if b then Ok tt else Raise AssertionError.

(** ** Tensors *)

Definition tensor : Type := list R.

#[global] Instance R_eq_dec : EqDecision R := Req_dec_T.
#[global] Instance tensor_inhabited : Inhabited tensor := populate [].

(** Elementwise operations on vectors and on batches of rows. *)
Definition vadd (a b : list R) : list R := zip_with Rplus a b.
Definition vscale (c : R) (a : list R) : list R := map (Rmult c) a.
Definition madd (a b : list (list R)) : list (list R) := zip_with vadd a b.

(** [torch.clamp(x, lo, hi)] and [np.clip(x, lo, hi)] on one element:
    [min(max(x, lo), hi)]. *)
Definition clamp1 (x lo hi : R) : R := Rmin (Rmax x lo) hi.

Module torch.
(** [x.clamp(lo, hi)] with scalar bounds. *)
Definition clamp (x : list (list R)) (lo hi : R) : list (list R) :=
  map (map (λ v, clamp1 v lo hi)) x.

(** [torch.min(a, b)], elementwise. *)
Definition min (a b : list R) : list R := zip_with Rmin a b.

Definition sum (a : list R) : R := foldr Rplus 0 a.

(** [x.mean()], on a non-empty tensor (the quotient by the length [0] of an
    empty one is not the NaN of the code). *)
Definition mean (a : list R) : R := sum a / INR (length a).

(** [F.mse_loss(input, target)] with the default mean reduction. *)
Definition mse_loss (input target : list R) : R :=
  mean (zip_with (λ x y, (x - y) * (x - y)) input target).

(** [F.relu]. *)
Definition relu (x : list R) : list R := map (λ v, Rmax v 0) x.

(** [torch.cat([x, a], dim=-1)] on a batch. *)
Definition cat (x a : list (list R)) : list (list R) := zip_with app x a.
End torch.

Module np.
(** [np.clip(a, lo, hi)] with array bounds. *)
Definition clip (a lo hi : list R) : list R :=
  zip_with (λ '(v, l) h, clamp1 v l h) (zip a lo) hi.

Fixpoint insert_sorted (x : R) (l : list R) : list R :=
  match l with
  | [] => [x]
  | y :: l' => if Rle_dec x y then x :: l else y :: insert_sorted x l'
  end.

Definition sort (l : list R) : list R := foldr insert_sorted [] l.

(** [np.unique(a)]: the sorted distinct elements. *)
Definition unique (a : list R) : list R := sort (remove_dups a).

(** [a.size]. *)
Definition size (a : list R) : Z := Z.of_nat (length a).

(** [a.item()]: the element of an array of size one. *)
Definition item (a : list R) : result R :=
  match a with
  | [x] => Ok x
  | _ => Raise ValueError
  end.

(** [a[i]] for a natural index. *)
Definition getitem (a : list R) (i : nat) : result R :=
  match a !! i with
  | Some x => Ok x
  | None => Raise IndexError
  end.
End np.

(** ** Environments and configuration *)

(** [gym.spaces.Box]: per-dimension bounds. *)
Record Box : Type := { low : list R; high : list R }.

Definition flatdim (b : Box) : nat := length (high b).

Record Env : Type := { observation_space : Box; action_space : Box }.

(** The configuration keys the agent reads. *)
Record Config : Type := {
  agent_actor_lr : R;
  agent_critic_lr : R;
  agent_polyak : R;
  agent_action_noise : R;
  agent_target_noise : R;
  agent_target_noise_clip : R;
  agent_gamma : R;
  agent_max_grad_norm : R;
  agent_policy_delay : Z;
  replay_batch_size : Z
}.

(** ** The parameter store *)

(** [read h ps]: the current values of the tensors [ps]. *)
Definition read (h : gmap nat tensor) (ps : list nat) : list tensor :=
  map (λ l, h !!! l) ps.

(** [write ps vs h]: in-place assignment of [vs] to the tensors [ps]. *)
Definition write (ps : list nat) (vs : list tensor) (h : gmap nat tensor)
  : gmap nat tensor :=
  foldl (λ h' '(l, v), <[l := v]> h') h (zip ps vs).

(** [dst.copy_(f(dst, src))] for every pair [(src, dst)], in order. *)
Definition copy_pairs (f : tensor → tensor → tensor) (pairs : list (nat * nat))
  (h : gmap nat tensor) : gmap nat tensor :=
  foldl (λ h' '(src, dst), <[dst := f (h' !!! dst) (h' !!! src)]> h') h pairs.

(** A batch drawn from the replay buffer. *)
Record Samples : Type := {
  observations : list (list R);
  actions : list (list R);
  next_observations : list (list R);
  rewards : list R;
  masks : list R
}.

(** ** External collaborators *)

Class Backend : Type := {
  (** state of the random number generators *)
  RNG : Type;
  (** the replay buffer handle *)
  Replay : Type;
  (** per-optimizer state of Adam (moment estimates, step count) *)
  OptState : Type;
  (** one draw of the default initialiser of [nn.Linear(fan_in, _)] *)
  init_sample : nat → RNG → R * RNG;
  (** one draw from a normal distribution [(mean, std)] *)
  normal_sample : R → R → RNG → R * RNG;
  (** [replay.sample(batch_size)] *)
  replay_sample : Replay → Z → RNG → Samples * RNG;
  (** [loss.backward()]: the gradient of a loss, seen as a function of the
      values of some parameters, at their current values *)
  autograd : (list tensor → R) → list tensor → list tensor;
  (** [nn.utils.clip_grad_norm_(params, max_norm)]: the rescaled gradients
      and the norm before rescaling *)
  clip_grad_norm_ : list tensor → R → list tensor * R;
  (** [optim.Adam(params, lr)]: the initial optimizer state *)
  Adam : R → OptState;
  (** one Adam step: new parameter values and optimizer state from the
      current values and gradients *)
  Adam_update : OptState → list tensor → list tensor → list tensor * OptState;
  (** the step is in place: every parameter keeps its shape *)
  Adam_update_shapes : ∀ st vals grads,
    Forall2 (λ v v' : tensor, length v' = length v)
      vals (Adam_update st vals grads).1
}.

(** ** Instrumentation *)

(** The parameter updates performed by [learn], logged at the call sites of
    [critic_optimizer.step()], [actor_optimizer.step()] and
    [polyak_update_target()]. *)
Inductive event : Type :=
| CriticStep
| ActorStep
| TargetUpdate.

#[global] Instance event_eq_dec : EqDecision event.
Proof. solve_decision. Defined.

Record World `{Backend} : Type := {
  heap : gmap nat tensor;
  next_loc : nat;
  rng : RNG;
  trace : list event
}.

Definition set_heap `{Backend} (h : gmap nat tensor) (w : World) : World :=
  {| heap := h; next_loc := next_loc w; rng := rng w; trace := trace w |}.

Definition set_rng `{Backend} (g : RNG) (w : World) : World :=
  {| heap := heap w; next_loc := next_loc w; rng := g; trace := trace w |}.

Definition log `{Backend} (e : event) (w : World) : World :=
  {| heap := heap w; next_loc := next_loc w; rng := rng w;
     trace := trace w ++ [e] |}.

(** [n] successive draws. *)
Fixpoint draws {G : Type} (n : nat) (sample : G → R * G) (g : G) : list R * G :=
  match n with
  | O => ([], g)
  | S n' =>
      let '(x, g1) := sample g in
      let '(xs, g2) := draws n' sample g1 in
      (x :: xs, g2)
  end.

(** Fill a tensor of the shape of [t] with draws, as [empty_like(t).normal_]
    and [np.random.normal(size=t.shape)] do. *)
Definition fill_like {G : Type} (t : list R) (sample : G → R * G) (g : G)
  : list R * G :=
  draws (length t) sample g.

Fixpoint fill_like2 {G : Type} (t : list (list R)) (sample : G → R * G) (g : G)
  : list (list R) * G :=
  match t with
  | [] => ([], g)
  | r :: t' =>
      let '(r', g1) := fill_like r sample g in
      let '(t'', g2) := fill_like2 t' sample g1 in
      (r' :: t'', g2)
  end.

(** A new parameter tensor with the given initial value. *)
Definition alloc `{Backend} (v : tensor) (w : World) : nat * World :=
  (next_loc w,
   {| heap := <[next_loc w := v]> (heap w); next_loc := S (next_loc w);
      rng := rng w; trace := trace w |}).

(** ** Linear layers *)

Module Linear.

Record t : Type := {
  in_features : nat;
  out_features : nat;
  weight : nat;
  bias : nat
}.

(** [nn.Linear(in_features, out_features)]: a weight of
    [out_features * in_features] entries (row major) and a bias. *)
Definition init `{Backend} (i o : nat) (w : World) : t * World :=
  let '(wv, g1) := draws (o * i) (init_sample i) (rng w) in
  let '(bv, g2) := draws o (init_sample i) g1 in
  let '(wl, w1) := alloc wv (set_rng g2 w) in
  let '(bl, w2) := alloc bv w1 in
  ({| in_features := i; out_features := o; weight := wl; bias := bl |}, w2).

Definition parameters (l : t) : list nat := [weight l; bias l].

Definition dot (a b : list R) : R := torch.sum (zip_with Rmult a b).

(** Row [k] of a row-major matrix with rows of length [i]. *)
Definition row (i : nat) (m : tensor) (k : nat) : list R :=
  take i (drop (k * i) m).

(** The value of [layer(x)] on one input row of [in_features] entries:
    [x W^T + b]. *)
Definition forward (h : gmap nat tensor) (l : t) (x : list R) : list R :=
  vadd (map (λ k, dot x (row (in_features l) (h !!! weight l) k))
            (seq 0 (out_features l)))
       (h !!! bias l).

(** [layer(x)] as it runs: [nn.Linear] raises on a row whose width is not
    [in_features]. *)
Definition call (h : gmap nat tensor) (l : t) (x : list R) : result (list R) :=
  if bool_decide (length x = in_features l) then Ok (forward h l x)
  else Raise (RuntimeError "mat1 and mat2 shapes cannot be multiplied").

End Linear.

(** Modelled from the spec: [lagom.nn.make_fc] is not among the sources; the
    Actor goes "through two fully-connected hidden layers (sizes 400, 300)",
    so [make_fc(input_dim, hidden_sizes)] is the list of linear layers
    [input_dim → h1 → h2 → ...]. *)
Fixpoint make_fc `{Backend} (input_dim : nat) (hidden_sizes : list nat)
  (w : World) : list Linear.t * World :=
  match hidden_sizes with
  | [] => ([], w)
  | s :: rest =>
      let '(l, w1) := Linear.init input_dim s w in
      let '(ls, w2) := make_fc s rest w1 in
      (l :: ls, w2)
  end.

Definition layers_parameters (ls : list Linear.t) : list nat :=
  concat (map Linear.parameters ls).

(** The value of [for layer in layers: x = F.relu(layer(x))] on one row. *)
Definition feature_forward (h : gmap nat tensor) (ls : list Linear.t)
  (x : list R) : list R :=
  foldl (λ x' layer, torch.relu (Linear.forward h layer x')) x ls.

(** [for layer in layers: x = F.relu(layer(x))] as it runs. *)
Fixpoint feature_call (h : gmap nat tensor) (ls : list Linear.t) (x : list R)
  : result (list R) :=
  match ls with
  | [] => Ok x
  | layer :: rest =>
      let* y := Linear.call h layer x in
      feature_call h rest (torch.relu y)
  end.

(** ** Python values held in dictionaries *)

Inductive pyval : Type :=
| PyFloat (x : R)
| PyStr (s : string)
| PyArray (a : list R)
| PyTensor (rows : list (list R))
| PyList (rows : list (list R))
| PyDict (items : list (string * R)).

(** [d[key]]. *)
Definition getitem (d : gmap string pyval) (key : string) : result pyval :=
  match d !! key with
  | Some v => Ok v
  | None => Raise (KeyError key)
  end.

(** [d.pop(key)]: the value and the dictionary without the key. *)
Definition pop (d : gmap string pyval) (key : string)
  : result (pyval * gmap string pyval) :=
  match d !! key with
  | Some v => Ok (v, delete key d)
  | None => Raise (KeyError key)
  end.

(** [v == s] for a string literal [s]. *)
Definition eq_str (v : pyval) (s : string) : bool :=
  match v with
  | PyStr s' => bool_decide (s' = s)
  | _ => false
  end.

(** ** Actor *)

Module Actor.

Record t : Type := {
  config : Config;
  env : Env;
  feature_layers : list Linear.t;
  action_head : Linear.t;
  max_action : R
}.

(** [Actor.__init__] *)
Definition init `{Backend} (config : Config) (env : Env) (w : World)
  : result (t * World) :=
  let '(fl, w1) := make_fc (flatdim (observation_space env)) [400; 300]%nat w in
  let '(ah, w2) := Linear.init 300 (flatdim (action_space env)) w1 in
  let* _ := assert (np.size (np.unique (high (action_space env))) =? 1)%Z in
  let* lo := np.item (np.unique (low (action_space env))) in
  let* hi := np.item (np.unique (high (action_space env))) in
  let* _ := assert (bool_decide (- lo = hi)) in
  let* m := np.getitem (high (action_space env)) 0 in
  Ok ({| config := config; env := env; feature_layers := fl;
         action_head := ah; max_action := m |}, w2).

(** [self.parameters()], in registration order. *)
Definition parameters (self : t) : list nat :=
  layers_parameters (feature_layers self)
  ++ Linear.parameters (action_head self).

(** The value of [Actor.forward] on one row. *)
Definition forward_row (h : gmap nat tensor) (self : t) (x : list R) : list R :=
  let x := feature_forward h (feature_layers self) x in
  map (λ z, max_action self * tanh z) (Linear.forward h (action_head self) x).

(** [Actor.forward] on a batch. *)
Definition forward (h : gmap nat tensor) (self : t) (x : list (list R))
  : list (list R) :=
  map (forward_row h self) x.

(** [self.actor(x)] as it runs, on one row. *)
Definition call_row (h : gmap nat tensor) (self : t) (x : list R)
  : result (list R) :=
  let* x := feature_call h (feature_layers self) x in
  let* y := Linear.call h (action_head self) x in
  Ok (map (λ z, max_action self * tanh z) y).

End Actor.

(** ** Critic *)

Module Critic.

Record t : Type := {
  config : Config;
  env : Env;
  first_feature_layers : list Linear.t;
  first_Q_head : Linear.t;
  second_feature_layers : list Linear.t;
  second_Q_head : Linear.t
}.

(** [Critic.__init__] *)
Definition init `{Backend} (config : Config) (env : Env) (w : World)
  : t * World :=
  let obs_dim := flatdim (observation_space env) in
  let action_dim := flatdim (action_space env) in
  let '(fl1, w1) := make_fc (obs_dim + action_dim) [400; 300]%nat w in
  let '(h1, w2) := Linear.init 300 1 w1 in
  let '(fl2, w3) := make_fc (obs_dim + action_dim) [400; 300]%nat w2 in
  let '(h2, w4) := Linear.init 300 1 w3 in
  ({| config := config; env := env;
      first_feature_layers := fl1; first_Q_head := h1;
      second_feature_layers := fl2; second_Q_head := h2 |}, w4).

Definition parameters (self : t) : list nat :=
  layers_parameters (first_feature_layers self)
  ++ Linear.parameters (first_Q_head self)
  ++ layers_parameters (second_feature_layers self)
  ++ Linear.parameters (second_Q_head self).

(** [Critic.Q1]; the result, of shape (batch, 1), is kept flat. *)
Definition Q1 (h : gmap nat tensor) (self : t) (x action : list (list R))
  : list R :=
  let x := torch.cat x action in
  concat (map (λ r, Linear.forward h (first_Q_head self)
                      (feature_forward h (first_feature_layers self) r)) x).

(** [Critic.Q2] *)
Definition Q2 (h : gmap nat tensor) (self : t) (x action : list (list R))
  : list R :=
  let x := torch.cat x action in
  concat (map (λ r, Linear.forward h (second_Q_head self)
                      (feature_forward h (second_feature_layers self) r)) x).

(** [Critic.forward] *)
Definition forward (h : gmap nat tensor) (self : t) (x action : list (list R))
  : list R * list R :=
  (Q1 h self x action, Q2 h self x action).

End Critic.

(** ** Optimizer *)

Module Optimizer.

Record t `{Backend} : Type := {
  param_groups : list nat;
  state : OptState
}.

(** [optim.Adam(params, lr=lr)] *)
Definition init `{Backend} (params : list nat) (lr : R) : t :=
  {| param_groups := params; state := Adam lr |}.

(** [optimizer.step()]: the parameters the optimizer was built over are
    updated in place from their gradients. *)
Definition step `{Backend} (self : t) (grads : list tensor) (w : World)
  : t * World :=
  let '(vs, st) :=
    Adam_update (state self) (read (heap w) (param_groups self)) grads in
  ({| param_groups := param_groups self; state := st |},
   set_heap (write (param_groups self) vs (heap w)) w).

End Optimizer.

(** [dst.load_state_dict(src.state_dict())]: every tensor of [dst] receives a
    copy of the value of the tensor of [src] of the same name; a missing or
    unexpected name or a shape mismatch is an error. *)
Definition load_state_dict (dst src : list nat) (h : gmap nat tensor)
  : result (gmap nat tensor) :=
  if bool_decide (length dst = length src
                  ∧ Forall2 (λ d s, length (h !!! d : tensor) = length (h !!! s))
                      dst src)
  then Ok (copy_pairs (λ _ v, v) (zip src dst) h)
  else Raise (RuntimeError "Error(s) in loading state_dict").

(** ** The TD3 agent *)

(** 64-bit signed integers, the dtype of [torch.tensor(0)]. *)
Definition int64_min : Z := - 2 ^ 63.
Definition int64_max : Z := 2 ^ 63 - 1.

Definition wrap64 (z : Z) : Z := ((z + 2 ^ 63) mod 2 ^ 64 - 2 ^ 63)%Z.

(** [t += n] on an int64 tensor, for a Python integer [n]. *)
Definition iadd64 (t n : Z) : result Z :=
  if bool_decide (int64_min ≤ n ≤ int64_max)%Z
  then Ok (wrap64 (t + n))
  else Raise (RuntimeError "value cannot be converted to type int64_t").

(** An observation as [choose_action] receives it: an object with an
    [observation] attribute. *)
Record TimeStep : Type := { observation : list R }.

Module Agent.

Record t `{Backend} : Type := {
  config : Config;
  env : Env;
  actor : Actor.t;
  actor_target : Actor.t;
  actor_optimizer : Optimizer.t;
  critic : Critic.t;
  critic_target : Critic.t;
  critic_optimizer : Optimizer.t;
  total_timestep : Z;
  max_action : R
}.

(** [Agent.__init__].  The constructor of [lagom.BaseAgent], which is not
    among the sources, is taken to store [config] and [env]. *)
Definition init `{Backend} (config : Config) (env : Env) (w : World)
  : result (t * World) :=
  let* (actor, w) := Actor.init config env w in
  let* (actor_target, w) := Actor.init config env w in
  let* h :=
    load_state_dict (Actor.parameters actor_target) (Actor.parameters actor)
      (heap w) in
  let w := set_heap h w in
  let actor_optimizer :=
    Optimizer.init (Actor.parameters actor) (agent_actor_lr config) in
  let '(critic, w) := Critic.init config env w in
  let '(critic_target, w) := Critic.init config env w in
  let* h :=
    load_state_dict (Critic.parameters critic_target) (Critic.parameters critic)
      (heap w) in
  let w := set_heap h w in
  let critic_optimizer :=
    Optimizer.init (Critic.parameters critic) (agent_critic_lr config) in
  let* m := np.getitem (high (action_space env)) 0 in
  Ok ({| config := config; env := env;
         actor := actor; actor_target := actor_target;
         actor_optimizer := actor_optimizer;
         critic := critic; critic_target := critic_target;
         critic_optimizer := critic_optimizer;
         total_timestep := 0; max_action := m |}, w).

Definition set_actor_optimizer `{Backend} (o : Optimizer.t) (self : t) : t :=
  {| config := config self; env := env self;
     actor := actor self; actor_target := actor_target self;
     actor_optimizer := o;
     critic := critic self; critic_target := critic_target self;
     critic_optimizer := critic_optimizer self;
     total_timestep := total_timestep self; max_action := max_action self |}.

Definition set_critic_optimizer `{Backend} (o : Optimizer.t) (self : t) : t :=
  {| config := config self; env := env self;
     actor := actor self; actor_target := actor_target self;
     actor_optimizer := actor_optimizer self;
     critic := critic self; critic_target := critic_target self;
     critic_optimizer := o;
     total_timestep := total_timestep self; max_action := max_action self |}.

Definition set_total_timestep `{Backend} (n : Z) (self : t) : t :=
  {| config := config self; env := env self;
     actor := actor self; actor_target := actor_target self;
     actor_optimizer := actor_optimizer self;
     critic := critic self; critic_target := critic_target self;
     critic_optimizer := critic_optimizer self;
     total_timestep := n; max_action := max_action self |}.

(** [p*target_param.data + (1 - p)*param.data] *)
Definition polyak (p : R) (target_param param : tensor) : tensor :=
  vadd (vscale p target_param) (vscale (1 - p) param).

(** [Agent.polyak_update_target] *)
Definition polyak_update_target `{Backend} (self : t) (w : World) : World :=
  let p := agent_polyak (config self) in
  let h :=
    copy_pairs (polyak p)
      (zip (Actor.parameters (actor self))
           (Actor.parameters (actor_target self))) (heap w) in
  let h :=
    copy_pairs (polyak p)
      (zip (Critic.parameters (critic self))
           (Critic.parameters (critic_target self))) h in
  set_heap h w.

(** [unsqueeze(0)] and [squeeze(0)] for a batch of one. *)
Definition unsqueeze0 (x : list R) : list (list R) := [x].
Definition squeeze0 (x : list (list R)) : list R := concat x.

(** [self.actor(obs)] on a batch, one row after the other. *)
Fixpoint call_actor (h : gmap nat tensor) (a : Actor.t) (obs : list (list R))
  : result (list (list R)) :=
  match obs with
  | [] => Ok []
  | r :: rest =>
      let* y := Actor.call_row h a r in
      let* ys := call_actor h a rest in
      Ok (y :: ys)
  end.

(** [Agent.choose_action].  [utils.numpify], which is not among the sources,
    turns the tensor into a numpy array of the same entries. *)
Definition choose_action `{Backend} (self : t) (x : TimeStep)
  (kwargs : gmap string pyval) (w : World)
  : result (gmap string pyval * World) :=
  let obs := unsqueeze0 (observation x) in
  let* rows := call_actor (heap w) (actor self) obs in
  let action := squeeze0 rows in
  let* mode := getitem kwargs "mode" in
  let '(action, w) :=
    if eq_str mode "train" then
      let '(eps, g) :=
        fill_like action (normal_sample 0 (agent_action_noise (config self)))
          (rng w) in
      (np.clip (vadd action eps)
         (low (action_space (env self))) (high (action_space (env self))),
       set_rng g w)
    else (action, w) in
  let out : gmap string pyval := ∅ in
  let out := <["raw_action" := PyArray action]> out in
  Ok (out, w).

(** The local variables of [learn]; a variable that is assigned only inside
    the loop is unbound ([None]) until then. *)
Record Locals : Type := {
  list_actor_loss : list R;
  list_critic_loss : list R;
  Q1_vals : list (list R);
  Q2_vals : list (list R);
  actor_grad_norm : option R;
  critic_grad_norm : option R
}.

(** The aggregate [learn] returns. *)
Record Out : Type := {
  out_actor_loss : R;
  out_actor_grad_norm : R;
  out_critic_loss : R;
  out_critic_grad_norm : R;
  out_Q1 : string;
  out_Q2 : string
}.

(** [for i in range(n)] over a loop state, [i] counting from [i0]. *)
Fixpoint for_range {S : Type} (n : nat) (i0 : Z) (body : Z → S → result S)
  (s : S) : result S :=
  match n with
  | O => Ok s
  | S n' => let* s' := body i0 s in for_range n' (i0 + 1)%Z body s'
  end.

(** The next-actions of the target computation: target actor, clipped
    smoothing noise, clamp to the action bound. *)
Definition next_actions_of `{Backend} (self : t) (s : Samples) (w : World)
  : list (list R) * World :=
  let next_actions :=
    Actor.forward (heap w) (actor_target self) (next_observations s) in
  let '(eps, g) :=
    fill_like2 next_actions
      (normal_sample 0 (agent_target_noise (config self))) (rng w) in
  let eps :=
    torch.clamp eps (- agent_target_noise_clip (config self))
      (agent_target_noise_clip (config self)) in
  let next_actions :=
    torch.clamp (madd next_actions eps) (- max_action self) (max_action self) in
  (next_actions, set_rng g w).

(** The [with torch.no_grad()] block of [learn]: the regression targets. *)
Definition targets_of `{Backend} (self : t) (s : Samples) (w : World)
  : list R * World :=
  let '(next_actions, w) := next_actions_of self s w in
  let '(next_Qs1, next_Qs2) :=
    Critic.forward (heap w) (critic_target self) (next_observations s)
      next_actions in
  let next_Qs := torch.min next_Qs1 next_Qs2 in
  let targets :=
    vadd (rewards s)
      (zip_with Rmult (vscale (agent_gamma (config self)) (masks s)) next_Qs) in
  (targets, w).

(** The critic loss as a function of the values of the critic's parameters;
    the targets are a constant of it. *)
Definition critic_loss_of `{Backend} (self : t) (s : Samples) (targets : list R)
  (h : gmap nat tensor) (vals : list tensor) : R :=
  let h := write (Critic.parameters (critic self)) vals h in
  let '(Qs1, Qs2) :=
    Critic.forward h (critic self) (observations s) (actions s) in
  torch.mse_loss Qs1 targets + torch.mse_loss Qs2 targets.

(** The actor loss as a function of the values of the actor's parameters. *)
Definition actor_loss_of `{Backend} (self : t) (s : Samples)
  (h : gmap nat tensor) (vals : list tensor) : R :=
  let h := write (Actor.parameters (actor self)) vals h in
  - torch.mean
      (Critic.Q1 h (critic self) (observations s)
         (Actor.forward h (actor self) (observations s))).

(** The critic update of one iteration: sample, targets, loss, clipped
    gradient, optimizer step. *)
Definition update_critic `{Backend} (self : t) (replay : Replay) (w : World)
  : t * Samples * (R * R * list R * list R) * World :=
  let '(s, g) :=
    replay_sample replay (replay_batch_size (config self)) (rng w) in
  let w := set_rng g w in
  let '(Qs1, Qs2) :=
    Critic.forward (heap w) (critic self) (observations s) (actions s) in
  let '(targets, w) := targets_of self s w in
  let critic_loss :=
    torch.mse_loss Qs1 targets + torch.mse_loss Qs2 targets in
  let grads :=
    autograd (critic_loss_of self s targets (heap w))
      (read (heap w) (Critic.parameters (critic self))) in
  let '(grads, critic_grad_norm) :=
    clip_grad_norm_ grads (agent_max_grad_norm (config self)) in
  let '(o, w) := Optimizer.step (critic_optimizer self) grads w in
  let w := log CriticStep w in
  (set_critic_optimizer o self, s, (critic_loss, critic_grad_norm, Qs1, Qs2), w).

(** The actor update of the delayed branch, up to the optimizer step. *)
Definition update_actor `{Backend} (self : t) (s : Samples) (w : World)
  : t * (R * R) * World :=
  let actor_loss :=
    - torch.mean
        (Critic.Q1 (heap w) (critic self) (observations s)
           (Actor.forward (heap w) (actor self) (observations s))) in
  let grads :=
    autograd (actor_loss_of self s (heap w))
      (read (heap w) (Actor.parameters (actor self))) in
  let '(grads, actor_grad_norm) :=
    clip_grad_norm_ grads (agent_max_grad_norm (config self)) in
  let '(o, w) := Optimizer.step (actor_optimizer self) grads w in
  let w := log ActorStep w in
  (set_actor_optimizer o self, (actor_loss, actor_grad_norm), w).

(** [i % d == 0] on Python integers. *)
Definition divides_index (i d : Z) : result bool :=
  if bool_decide (d = 0)%Z then Raise ZeroDivisionError
  else Ok (i mod d =? 0)%Z.

(** The body of the loop of [learn]. *)
Definition learn_iteration `{Backend} (replay : Replay) (i : Z)
  (st : t * Locals * World) : result (t * Locals * World) :=
  let '(self, l, w) := st in
  let '(self, s, (critic_loss, cgn, Qs1, Qs2), w) :=
    update_critic self replay w in
  let* delayed := divides_index i (agent_policy_delay (config self)) in
  let '(self, lal, agn, w) :=
    if delayed then
      let '(self, (actor_loss, agn), w) := update_actor self s w in
      let w := log TargetUpdate (polyak_update_target self w) in
      (self, list_actor_loss l ++ [actor_loss], Some agn, w)
    else (self, list_actor_loss l, actor_grad_norm l, w) in
  Ok (self,
      {| list_actor_loss := lal;
         list_critic_loss := list_critic_loss l ++ [critic_loss];
         Q1_vals := Q1_vals l ++ [Qs1];
         Q2_vals := Q2_vals l ++ [Qs2];
         actor_grad_norm := agn;
         critic_grad_norm := Some cgn |},
      w).

(** A local variable read after the loop. *)
Definition local (name : string) (v : option R) : result R :=
  match v with
  | Some x => Ok x
  | None => Raise (UnboundLocalError name)
  end.

(** [Agent.learn], with [replay] and [T] taken from [kwargs].  [describe]
    stands for [lagom.utils.describe], which is not among the sources. *)
Definition learn `{Backend} (describe : list R → string) (self : t)
  (replay : Replay) (T : Z) (w : World) : result (Out * t * World) :=
  let l :=
    {| list_actor_loss := []; list_critic_loss := []; Q1_vals := [];
       Q2_vals := []; actor_grad_norm := None; critic_grad_norm := None |} in
  let* (self, l, w) :=
    for_range (Z.to_nat T) 0 (learn_iteration replay) (self, l, w) in
  let* n := iadd64 (total_timestep self) T in
  let self := set_total_timestep n self in
  let actor_loss := torch.mean (list_actor_loss l) in
  let* agn := local "actor_grad_norm" (actor_grad_norm l) in
  let critic_loss := torch.mean (list_critic_loss l) in
  let* cgn := local "critic_grad_norm" (critic_grad_norm l) in
  Ok ({| out_actor_loss := actor_loss; out_actor_grad_norm := agn;
         out_critic_loss := critic_loss; out_critic_grad_norm := cgn;
         out_Q1 := describe (concat (Q1_vals l));
         out_Q2 := describe (concat (Q2_vals l)) |},
      self, w).

End Agent.

(** ** The episode runner *)

(** What the runner asks of an agent. *)
Class BaseAgent (A Obs : Type) : Type := {
  (** [agent.reset(config)] *)
  agent_reset : A → Config → result A;
  (** [agent.choose_action(obs, **kwargs)] *)
  agent_choose_action :
    A → Obs → gmap string pyval → result (gmap string pyval * A)
}.

(** What the runner asks of a vectorized environment. *)
Class VecEnv (E Obs : Type) : Type := {
  (** the number of environment instances, as [EnvSpec(env)] reports it *)
  num_env : E → nat;
  (** [env.reset()] *)
  env_reset : E → result (Obs * E);
  (** [env.step(action)]: observations, rewards, done flags, infos *)
  env_step : E → pyval → result (Obs * list R * list bool * pyval * E)
}.

Module BatchEpisode.

(** Modelled from the spec: [lagom.history.BatchEpisode] is not among the
    sources.  The trajectory batch is an "ordered sequence of observations,
    actions, rewards, done-flags, per-step auxiliary info", growing by one
    entry per step, with a completion mark per environment instance: "mark
    any environment instance whose done-flag is true as completed". *)
Record t (Obs : Type) : Type := {
  observations : list Obs;
  actions : list pyval;
  rewards : list (list R);
  dones : list (list bool);
  infos : list pyval;
  batch_infos : list (gmap string pyval);
  completes : list bool
}.
Arguments observations {Obs} _.
Arguments actions {Obs} _.
Arguments rewards {Obs} _.
Arguments dones {Obs} _.
Arguments infos {Obs} _.
Arguments batch_infos {Obs} _.
Arguments completes {Obs} _.

Definition init {Obs : Type} (N : nat) : t Obs :=
  {| observations := []; actions := []; rewards := []; dones := [];
     infos := []; batch_infos := []; completes := replicate N false |}.

Definition add_observation {Obs : Type} (o : Obs) (D : t Obs) : t Obs :=
  {| observations := observations D ++ [o]; actions := actions D;
     rewards := rewards D; dones := dones D; infos := infos D;
     batch_infos := batch_infos D; completes := completes D |}.

Definition add_action {Obs : Type} (a : pyval) (D : t Obs) : t Obs :=
  {| observations := observations D; actions := actions D ++ [a];
     rewards := rewards D; dones := dones D; infos := infos D;
     batch_infos := batch_infos D; completes := completes D |}.

Definition add_reward {Obs : Type} (r : list R) (D : t Obs) : t Obs :=
  {| observations := observations D; actions := actions D;
     rewards := rewards D ++ [r]; dones := dones D; infos := infos D;
     batch_infos := batch_infos D; completes := completes D |}.

Definition add_done {Obs : Type} (d : list bool) (D : t Obs) : t Obs :=
  {| observations := observations D; actions := actions D;
     rewards := rewards D; dones := dones D ++ [d]; infos := infos D;
     batch_infos := batch_infos D; completes := completes D |}.

Definition add_info {Obs : Type} (i : pyval) (D : t Obs) : t Obs :=
  {| observations := observations D; actions := actions D;
     rewards := rewards D; dones := dones D; infos := infos D ++ [i];
     batch_infos := batch_infos D; completes := completes D |}.

Definition add_batch_info {Obs : Type} (i : gmap string pyval) (D : t Obs)
  : t Obs :=
  {| observations := observations D; actions := actions D;
     rewards := rewards D; dones := dones D; infos := infos D;
     batch_infos := batch_infos D ++ [i]; completes := completes D |}.

(** [completes[n] = True]; an index past the end is an [IndexError]. *)
Definition set_completed {Obs : Type} (n : nat) (D : t Obs) : result (t Obs) :=
  if bool_decide (n < length (completes D))%nat then
    Ok {| observations := observations D; actions := actions D;
          rewards := rewards D; dones := dones D; infos := infos D;
          batch_infos := batch_infos D;
          completes := <[n := true]> (completes D) |}
  else Raise IndexError.

(** The length of the trajectory: the number of steps recorded. *)
Definition T {Obs : Type} (D : t Obs) : nat := length (actions D).

End BatchEpisode.

Module EpisodeRunner.

Record t (A E : Type) : Type := {
  config : Config;
  agent : A;
  env : E
}.
Arguments config {A E} _.
Arguments agent {A E} _.
Arguments env {A E} _.

(** [[D.set_completed(n) for n, d in enumerate(done) if d]], [n] counting
    from [n0]. *)
Fixpoint mark_completed {Obs : Type} (n0 : nat) (done : list bool)
  (D : BatchEpisode.t Obs) : result (BatchEpisode.t Obs) :=
  match done with
  | [] => Ok D
  | d :: rest =>
      let* D := (if d then BatchEpisode.set_completed n0 D else Ok D) in
      mark_completed (S n0) rest D
  end.

(** [all(D.completes)] *)
Definition all (l : list bool) : bool := forallb (λ b : bool, b) l.

(** The body of the loop of [EpisodeRunner.__call__], up to the test of the
    [break]. *)
Definition step {A E Obs : Type} `{!BaseAgent A Obs, !VecEnv E Obs}
  (st : t A E * Obs * BatchEpisode.t Obs)
  : result (t A E * Obs * BatchEpisode.t Obs) :=
  let '(self, obs, D) := st in
  let info : list (string * R) := [] in
  let* (out_agent, agent') :=
    agent_choose_action (agent self) obs {[ "info" := PyDict info ]} in
  let* (action, out_agent) := pop out_agent "action" in
  let raw_action :=
    match action with
    | PyTensor rows => PyList rows
    | _ => action
    end in
  let D := BatchEpisode.add_action raw_action D in
  let* (obs, reward, done, info, env') := env_step (env self) raw_action in
  let D := BatchEpisode.add_observation obs D in
  let D := BatchEpisode.add_reward reward D in
  let D := BatchEpisode.add_done done D in
  let D := BatchEpisode.add_info info D in
  let* D := mark_completed 0 done D in
  let D := BatchEpisode.add_batch_info out_agent D in
  Ok ({| config := config self; agent := agent'; env := env' |}, obs, D).

(** [for t in range(n): ...; if all(D.completes): break] *)
Fixpoint loop {A E Obs : Type} `{!BaseAgent A Obs, !VecEnv E Obs} (n : nat)
  (st : t A E * Obs * BatchEpisode.t Obs)
  : result (t A E * Obs * BatchEpisode.t Obs) :=
  match n with
  | O => Ok st
  | S n' =>
      let* st' := step st in
      if all (BatchEpisode.completes (st'.2)) then Ok st' else loop n' st'
  end.

(** The part of [EpisodeRunner.__call__] before the loop: a new trajectory
    batch, the environment reset and its observation recorded, the agent
    reset. *)
Definition start {A E Obs : Type} `{!BaseAgent A Obs, !VecEnv E Obs}
  (self : t A E) : result (t A E * Obs * BatchEpisode.t Obs) :=
  let D := BatchEpisode.init (num_env (env self)) in
  let* (obs, env') := env_reset (env self) in
  let D := BatchEpisode.add_observation obs D in
  let* agent' := agent_reset (agent self) (config self) in
  Ok ({| config := config self; agent := agent'; env := env' |}, obs, D).

(** [EpisodeRunner.__call__] *)
Definition call {A E Obs : Type} `{!BaseAgent A Obs, !VecEnv E Obs}
  (self : t A E) (T : Z) : result (BatchEpisode.t Obs * t A E) :=
  let* st := start self in
  let* (self, _, D) := loop (Z.to_nat T) st in
  Ok (D, self).

(** [k] executions of the loop body in a row. *)
Fixpoint steps {A E Obs : Type} `{!BaseAgent A Obs, !VecEnv E Obs} (k : nat)
  (st : t A E * Obs * BatchEpisode.t Obs)
  : result (t A E * Obs * BatchEpisode.t Obs) :=
  match k with
  | O => Ok st
  | S k' => let* st' := step st in steps k' st'
  end.

End EpisodeRunner.

(** What an environment may hand over as an observation: an object with an
    [observation] attribute, as [Agent.choose_action] reads it, or a plain
    batch of observations, as the [reset] and [step] of a vectorized
    environment return it, which has no such attribute. *)
Inductive pyobs : Type :=
| ObsTimeStep (x : TimeStep)
| ObsBatch (rows : list (list R)).

(** [o.observation]. *)
Definition get_observation (o : pyobs) : result TimeStep :=
  match o with
  | ObsTimeStep x => Ok x
  | ObsBatch _ => Raise (AttributeError "observation")
  end.

(** Modelled from the spec: [lagom.BaseAgent], from which the TD3 agent
    inherits [reset], is not among the sources; [reset] is to "reset any
    per-episode agent state", of which the TD3 agent has none.  The TD3
    agent as the runner's agent is the agent object together with the state
    it reads and writes; [choose_action] starts by reading [x.observation]
    of whatever it is given. *)
#[global] Instance TD3_BaseAgent `{Backend}
  : BaseAgent (Agent.t * World) pyobs := {
  agent_reset := λ a _, Ok a;
  agent_choose_action := λ a o kwargs,
    let* x := get_observation o in
    let* (out, w) := Agent.choose_action a.1 x kwargs a.2 in
    Ok (out, (a.1, w))
}.


(** ** Test doubles *)

(** A single environment instance that reports done at its [done_at]-th
    step. *)
Record CountingEnv : Type := { done_at : nat; steps_taken : nat }.

#[global] Instance CountingEnv_VecEnv : VecEnv CountingEnv (list R) := {
  num_env := λ _, 1%nat;
  env_reset := λ e, Ok ([], {| done_at := done_at e; steps_taken := 0 |});
  env_step := λ e _,
    let n := S (steps_taken e) in
    Ok ([], [0], [Nat.eqb n (done_at e)], PyDict [],
        {| done_at := done_at e; steps_taken := n |})
}.

(** An agent that always answers with the same action, under the key
    ['action']. *)
Record ConstantAgent : Type := { constant_action : list R }.

#[global] Instance ConstantAgent_BaseAgent : BaseAgent ConstantAgent (list R) := {
  agent_reset := λ a _, Ok a;
  agent_choose_action := λ a _ _,
    Ok ({[ "action" := PyArray (constant_action a) ]}, a)
}.

(** A backend without randomness and with optimizers that leave the
    parameters as they are. *)
Definition still_backend : Backend := {|
  RNG := unit;
  Replay := unit;
  OptState := unit;
  init_sample := λ _ g, (0, g);
  normal_sample := λ _ _ g, (0, g);
  replay_sample := λ _ _ g,
    ({| observations := []; actions := []; next_observations := [];
        rewards := []; masks := [] |}, g);
  autograd := λ _ vals, vals;
  clip_grad_norm_ := λ grads _, (grads, 0);
  Adam := λ _, tt;
  Adam_update := λ st vals _, (vals, st);
  Adam_update_shapes := λ _ vals _,
    Forall_Forall2_diag _ vals (Forall_true _ vals (λ _, eq_refl))
|}.

Definition demo_config : Config := {|
  agent_actor_lr := 1; agent_critic_lr := 1; agent_polyak := 1;
  agent_action_noise := 1; agent_target_noise := 1;
  agent_target_noise_clip := 1; agent_gamma := 1; agent_max_grad_norm := 1;
  agent_policy_delay := 2; replay_batch_size := 2
|}.

(** One observation dimension, one action dimension bounded by [[-2, 2]]. *)
Definition demo_env : Env := {|
  observation_space := {| low := [-1]; high := [1] |};
  action_space := {| low := [-2]; high := [2] |}
|}.

Definition demo_world : @World still_backend :=
  @Build_World still_backend ∅ 0%nat tt [].

(** * Specification predicates *)

(** An action space that is uniformly bounded by [m] and symmetric: it has
    at least one dimension, every upper bound is [m] and every lower bound
    is [- m]. *)
Definition symmetric_uniform (b : Box) (m : R) : Prop :=
  high b ≠ [] ∧ low b ≠ [] ∧ Forall (eq m) (high b) ∧ Forall (eq (- m)) (low b).

(** Every entry lies in [[-m, m]]. *)
Definition within (m : R) (a : list R) : Prop :=
  Forall (λ v, - m <= v <= m) a.

(** The tensors [srcs] and [dsts] have pairwise the same number of entries. *)
Definition same_shapes (h : gmap nat tensor) (srcs dsts : list nat) : Prop :=
  Forall2 (λ s d, length (h !!! s : tensor) = length (h !!! d : tensor))
    srcs dsts.

(** The structure [Agent.__init__] builds: the four networks have their own
    parameter tensors, a target network has as many as its online network,
    each optimizer is over the parameters of its online network, and the
    action space is symmetric with bound [max_action]. *)
Definition agent_wf `{Backend} (self : Agent.t) : Prop :=
  NoDup (Actor.parameters (Agent.actor self)
         ++ Actor.parameters (Agent.actor_target self)
         ++ Critic.parameters (Agent.critic self)
         ++ Critic.parameters (Agent.critic_target self))
  ∧ length (Actor.parameters (Agent.actor self))
    = length (Actor.parameters (Agent.actor_target self))
  ∧ length (Critic.parameters (Agent.critic self))
    = length (Critic.parameters (Agent.critic_target self))
  ∧ Optimizer.param_groups (Agent.actor_optimizer self)
    = Actor.parameters (Agent.actor self)
  ∧ Optimizer.param_groups (Agent.critic_optimizer self)
    = Critic.parameters (Agent.critic self)
  ∧ symmetric_uniform (action_space (Agent.env self)) (Agent.max_action self)
  ∧ Actor.max_action (Agent.actor self) = Agent.max_action self
  ∧ Actor.max_action (Agent.actor_target self) = Agent.max_action self.

(** The parameters of the target networks. *)
Definition target_parameters `{Backend} (self : Agent.t) : list nat :=
  Actor.parameters (Agent.actor_target self)
  ++ Critic.parameters (Agent.critic_target self).

(** The parameters of the online networks. *)
Definition online_parameters `{Backend} (self : Agent.t) : list nat :=
  Actor.parameters (Agent.actor self)
  ++ Critic.parameters (Agent.critic self).

(** The sizes of the parameter tensors [make_fc] creates. *)
Fixpoint fc_shapes (input_dim : nat) (hidden_sizes : list nat) : list nat :=
  match hidden_sizes with
  | [] => []
  | s :: rest => [s * input_dim; s]%nat ++ fc_shapes s rest
  end.

(** The sizes of the parameter tensors of an Actor and of a Critic. *)
Definition actor_shapes (env : Env) : list nat :=
  fc_shapes (flatdim (observation_space env)) [400; 300]%nat
  ++ [flatdim (action_space env) * 300; flatdim (action_space env)]%nat.

Definition critic_shapes (env : Env) : list nat :=
  let d := (flatdim (observation_space env) + flatdim (action_space env))%nat in
  (fc_shapes d [400; 300] ++ [1 * 300; 1])%nat
  ++ (fc_shapes d [400; 300] ++ [1 * 300; 1])%nat.

(** Between [w] and [w'] the tensors [ps], of sizes [shapes], were created
    and nothing else changed. *)
Definition allocates `{Backend} (w w' : World) (ps shapes : list nat) : Prop :=
  ps = seq (next_loc w) (length shapes)
  ∧ next_loc w' = (next_loc w + length shapes)%nat
  ∧ trace w' = trace w
  ∧ (∀ l, (l < next_loc w)%nat → heap w' !! l = heap w !! l)
  ∧ Forall2 (λ l n, length (heap w' !!! l : tensor) = n) ps shapes.

(** [ag'] is the agent [ag] at a later time: the networks, the parameters
    the optimizers are over, the configuration and the action bound are the
    same; the optimizer states and the timestep counter may differ. *)
Definition same_structure `{Backend} (ag ag' : Agent.t) : Prop :=
  Agent.config ag' = Agent.config ag
  ∧ Agent.env ag' = Agent.env ag
  ∧ Agent.actor ag' = Agent.actor ag
  ∧ Agent.actor_target ag' = Agent.actor_target ag
  ∧ Agent.critic ag' = Agent.critic ag
  ∧ Agent.critic_target ag' = Agent.critic_target ag
  ∧ Optimizer.param_groups (Agent.actor_optimizer ag')
    = Optimizer.param_groups (Agent.actor_optimizer ag)
  ∧ Optimizer.param_groups (Agent.critic_optimizer ag')
    = Optimizer.param_groups (Agent.critic_optimizer ag)
  ∧ Agent.max_action ag' = Agent.max_action ag.

(** The updates of inner iteration [i] of [learn] with policy delay [d]: the
    critic always, the actor and the targets when [i % d == 0]. *)
Definition iteration_events (d i : Z) : list event :=
  CriticStep :: (if (i mod d =? 0)%Z then [ActorStep; TargetUpdate] else []).

(** The updates of iterations [i0, i0 + 1, ..., i0 + n - 1]. *)
Definition learn_events (d i0 : Z) (n : nat) : list event :=
  concat (map (iteration_events d) (seqZ i0 (Z.of_nat n))).




(** The environment double seen by an agent that takes [TimeStep]s. *)
#[global] Instance CountingEnv_TimeStep : VecEnv CountingEnv pyobs := {
  num_env := λ _, 1%nat;
  env_reset := λ e,
    Ok (ObsTimeStep {| observation := [0] |},
        {| done_at := done_at e; steps_taken := 0 |});
  env_step := λ e _,
    let n := S (steps_taken e) in
    Ok (ObsTimeStep {| observation := [0] |}, [0], [Nat.eqb n (done_at e)],
        PyDict [], {| done_at := done_at e; steps_taken := n |})
}.

(** The runner of the constant agent on an environment that is done at its
    third step. *)
Definition demo_runner : EpisodeRunner.t ConstantAgent CountingEnv := {|
  EpisodeRunner.config := demo_config;
  EpisodeRunner.agent := {| constant_action := [0] |};
  EpisodeRunner.env := {| done_at := 3; steps_taken := 0 |}
|}.

(** Every tensor of the store has in [h'] the shape it has in [h]. *)
Definition shapes_kept (h h' : gmap nat tensor) : Prop :=
  ∀ l, length (h' !!! l : tensor) = length (h !!! l : tensor).

(** ** More test doubles *)

(** An environment whose [step] raises. *)
Record BrokenEnv : Type := { broken_message : string }.

#[global] Instance BrokenEnv_VecEnv : VecEnv BrokenEnv (list R) := {
  num_env := λ _, 1%nat;
  env_reset := λ e, Ok ([], e);
  env_step := λ e _, Raise (RuntimeError (broken_message e))
}.

(** An agent whose dictionary has its action under ['raw_action'] only. *)
Record RawAgent : Type := { raw_action : list R }.

#[global] Instance RawAgent_BaseAgent : BaseAgent RawAgent (list R) := {
  agent_reset := λ a _, Ok a;
  agent_choose_action := λ a _ _,
    Ok ({[ "raw_action" := PyArray (raw_action a) ]}, a)
}.


(** The constant agent's runner with an environment whose [step] raises. *)
Definition broken_runner : EpisodeRunner.t ConstantAgent BrokenEnv := {|
  EpisodeRunner.config := demo_config;
  EpisodeRunner.agent := {| constant_action := [0] |};
  EpisodeRunner.env := {| broken_message := "boom" |}
|}.

(** A runner whose agent answers under ['raw_action']. *)
Definition raw_runner : EpisodeRunner.t RawAgent CountingEnv := {|
  EpisodeRunner.config := demo_config;
  EpisodeRunner.agent := {| raw_action := [0] |};
  EpisodeRunner.env := {| done_at := 3; steps_taken := 0 |}
|}.


(** An action space bounded by [[-1, 2]]: uniform bounds that are not
    opposite. *)
Definition lopsided_env : Env := {|
  observation_space := {| low := [-1]; high := [1] |};
  action_space := {| low := [-1]; high := [2] |}
|}.

(** An action space with the bounds swapped: every lower bound 2, every
    upper bound -2.  The two assertions of [Actor.__init__] hold of it. *)
Definition inverted_env : Env := {|
  observation_space := {| low := [-1]; high := [1] |};
  action_space := {| low := [2]; high := [-2] |}
|}.

(** A backend without randomness whose replay buffer returns a batch of one
    transition (observation 0, action 0, next observation 0, reward 1, not
    terminal) and whose optimizer steps are visible: a step adds 1 to every
    entry of every parameter. *)
Definition stepping_backend : Backend := {|
  RNG := unit;
  Replay := unit;
  OptState := unit;
  init_sample := λ _ g, (0, g);
  normal_sample := λ _ _ g, (0, g);
  replay_sample := λ _ _ g,
    ({| observations := [[0]]; actions := [[0]]; next_observations := [[0]];
        rewards := [1]; masks := [1] |}, g);
  autograd := λ _ vals, vals;
  clip_grad_norm_ := λ grads _, (grads, 0);
  Adam := λ _, tt;
  Adam_update := λ st vals _, (map (map (Rplus 1)) vals, st);
  Adam_update_shapes := λ _ vals _,
    proj2 (Forall2_fmap_r _ _ _ _)
      (Forall_Forall2_diag _ vals
         (Forall_true _ vals (λ v, length_map (Rplus 1) v)))
|}.

Definition stepping_world : @World stepping_backend :=
  @Build_World stepping_backend ∅ 0%nat tt [].

(** The configuration of the doubles with the targets moving half way. *)
Definition half_config : Config := {|
  agent_actor_lr := 1; agent_critic_lr := 1; agent_polyak := 1 / 2;
  agent_action_noise := 1; agent_target_noise := 1;
  agent_target_noise_clip := 1; agent_gamma := 1; agent_max_grad_norm := 1;
  agent_policy_delay := 2; replay_batch_size := 1
|}.

(** A vectorized environment that returns plain batches of observations. *)
Record BatchEnv : Type := { batch_width : nat }.

#[global] Instance BatchEnv_VecEnv : VecEnv BatchEnv pyobs := {
  num_env := λ _, 1%nat;
  env_reset := λ e, Ok (ObsBatch [replicate (batch_width e) 0], e);
  env_step := λ e _,
    Ok (ObsBatch [replicate (batch_width e) 0], [0], [false], PyDict [], e)
}.

(** ** Specification predicates on the store *)

(** A batch of transitions of the environment [env], as the replay buffer
    is to return it: at least one transition, one row per transition in each
    of the five components, observations and actions with one entry per
    dimension. *)
Definition transitions (env : Env) (s : Samples) : Prop :=
  observations s ≠ []
  ∧ length (actions s) = length (observations s)
  ∧ length (next_observations s) = length (observations s)
  ∧ length (rewards s) = length (observations s)
  ∧ length (masks s) = length (observations s)
  ∧ Forall (λ r, length r = flatdim (observation_space env)) (observations s)
  ∧ Forall (λ r, length r = flatdim (action_space env)) (actions s)
  ∧ Forall (λ r, length r = flatdim (observation_space env))
      (next_observations s).





(** Every tensor of the store holds zeros only. *)
Definition zero_store (h : gmap nat tensor) : Prop :=
  ∀ l, Forall (eq 0) (h !!! l : tensor).

(** * Properties *)

(** ** Results *)

Lemma bind_Ok {A B : Type} (m : result A) (k : A → result B) (b : B) :
  bind m k = Ok b → ∃ a, m = Ok a ∧ k a = Ok b.
Proof. destruct m as [a|e]; simpl; [eauto | discriminate]. Qed.

Lemma assert_Ok (b : bool) : assert b = Ok tt → b = true.
Proof. destruct b; [reflexivity | discriminate]. Qed.

(** ** Numbers *)

Lemma tanh_bounds (x : R) : -1 < tanh x < 1.
Proof.
  unfold tanh, sinh, cosh.
  pose proof (exp_pos x) as Hp. pose proof (exp_pos (- x)) as Hn.
  assert (Hc : 0 < (exp x + exp (- x)) / 2) by lra.
  split; apply (Rmult_lt_reg_r ((exp x + exp (- x)) / 2)); try exact Hc;
    field_simplify; lra.
Qed.

Lemma clamp1_bounds (x lo hi : R) : lo <= hi → lo <= clamp1 x lo hi <= hi.
Proof.
  intros Hle. unfold clamp1, Rmin, Rmax.
  destruct (Rle_dec x lo); destruct (Rle_dec _ hi); lra.
Qed.

Lemma scaled_tanh_bounds (m z : R) : 0 <= m → - m <= m * tanh z <= m.
Proof. intros Hm. pose proof (tanh_bounds z). nra. Qed.

(** ** [np.unique] *)

Lemma insert_sorted_perm (x : R) (l : list R) : np.insert_sorted x l ≡ₚ x :: l.
Proof.
  induction l as [|y l IH]; simpl; [reflexivity|].
  destruct (Rle_dec x y); [reflexivity|].
  rewrite IH. apply Permutation_swap.
Qed.

Lemma sort_perm (l : list R) : np.sort l ≡ₚ l.
Proof.
  induction l as [|x l IH]; simpl; [reflexivity|].
  rewrite insert_sorted_perm. by rewrite IH.
Qed.

Lemma unique_perm (l : list R) : np.unique l ≡ₚ remove_dups l.
Proof. apply sort_perm. Qed.

Lemma remove_dups_uniform (m : R) (l : list R) :
  l ≠ [] → Forall (eq m) l → remove_dups l = [m].
Proof.
  induction l as [|x l IH]; [done|]. intros _ Hall.
  apply Forall_cons in Hall as [<- Hall].
  destruct l as [|y l]; [reflexivity|].
  change (remove_dups (m :: y :: l))
    with (if decide_rel elem_of m (y :: l) then remove_dups (y :: l)
          else m :: remove_dups (y :: l)).
  destruct (decide_rel elem_of m (y :: l)) as [_|Hnot].
  - by apply IH.
  - exfalso. apply Hnot. apply Forall_cons in Hall as [<- _]. left.
Qed.

(** An array has a single distinct value exactly when it is not empty and
    constant. *)
Lemma unique_uniform (m : R) (l : list R) :
  l ≠ [] → Forall (eq m) l → np.unique l = [m].
Proof.
  intros Hne Hall. apply Permutation_singleton_r.
  rewrite unique_perm. by rewrite (remove_dups_uniform m).
Qed.

Lemma unique_singleton_inv (m : R) (l : list R) :
  np.unique l = [m] → l ≠ [] ∧ Forall (eq m) l.
Proof.
  intros Hu.
  assert (Hd : remove_dups l = [m]).
  { apply Permutation_singleton_r. rewrite <- unique_perm. by rewrite Hu. }
  split.
  - intros ->. discriminate.
  - apply Forall_forall. intros x Hx.
    apply elem_of_remove_dups in Hx. rewrite Hd in Hx.
    by apply list_elem_of_singleton in Hx.
Qed.

Lemma item_Ok (l : list R) (x : R) : np.item l = Ok x → l = [x].
Proof. destruct l as [|y [|z l]]; simpl; congruence. Qed.

(** ** Actor construction *)

Lemma Actor_init_Ok `{Backend} (cfg : Config) (env : Env) (w : World)
  (a : Actor.t) (w' : World) :
  Actor.init cfg env w = Ok (a, w') →
  symmetric_uniform (action_space env) (Actor.max_action a)
  ∧ Actor.env a = env ∧ Actor.config a = cfg
  ∧ ∃ w1, make_fc (flatdim (observation_space env)) [400; 300]%nat w
            = (Actor.feature_layers a, w1)
          ∧ Linear.init 300 (flatdim (action_space env)) w1
            = (Actor.action_head a, w').
Proof.
  unfold Actor.init.
  destruct (make_fc _ _ w) as [fl w1] eqn:Hfc.
  destruct (Linear.init _ _ w1) as [ah w2] eqn:Hah.
  intros Hi.
  apply bind_Ok in Hi as ([] & Hsz & Hi). apply assert_Ok in Hsz.
  apply bind_Ok in Hi as (lo & Hlo & Hi).
  apply bind_Ok in Hi as (hi & Hhi & Hi).
  apply bind_Ok in Hi as ([] & Heq & Hi). apply assert_Ok in Heq.
  apply bind_Ok in Hi as (m & Hm & Hi).
  injection Hi as <- <-. simpl.
  apply bool_decide_eq_true in Heq.
  apply item_Ok in Hlo, Hhi.
  apply unique_singleton_inv in Hlo as [Hlne Hlall].
  apply unique_singleton_inv in Hhi as [Hhne Hhall].
  assert (m = hi) as ->.
  { unfold np.getitem in Hm. destruct (high (action_space env)) as [|x l] eqn:E;
      [done|]. simpl in Hm. injection Hm as <-.
    apply Forall_cons in Hhall as [-> _]. reflexivity. }
  repeat split; try done.
  - replace (- hi) with lo by lra. exact Hlall.
  - exists w1. by rewrite Hah.
Qed.

Lemma Actor_init_symmetric `{Backend} (cfg : Config) (env : Env) (w : World)
  (m : R) :
  symmetric_uniform (action_space env) m →
  ∃ a w', Actor.init cfg env w = Ok (a, w') ∧ Actor.max_action a = m.
Proof.
  intros (Hhne & Hlne & Hh & Hl). unfold Actor.init.
  destruct (make_fc _ _ w) as [fl w1].
  destruct (Linear.init _ _ w1) as [ah w2].
  rewrite (unique_uniform m), (unique_uniform (- m)) by done. simpl.
  rewrite bool_decide_eq_true_2 by lra. simpl.
  unfold np.getitem.
  destruct (high (action_space env)) as [|x l]; [done|].
  apply Forall_cons in Hh as [<- _]. simpl. eauto.
Qed.

Lemma Actor_init_asymmetric `{Backend} (cfg : Config) (env : Env) (w : World) :
  (∀ m, ¬ symmetric_uniform (action_space env) m) →
  ∃ e, Actor.init cfg env w = Raise e.
Proof.
  intros Hno. destruct (Actor.init cfg env w) as [[a w']|e] eqn:Hi; [|eauto].
  apply Actor_init_Ok in Hi as [Hs _]. by apply Hno in Hs.
Qed.

(** C9: the Actor's constructor checks that the action space is symmetric and
    uniformly bounded.  When every upper bound is a common [m] and every
    lower bound is [- m], construction succeeds and [max_action] is [m];
    when the space is not of this form for any [m], construction raises;
    and a constructed Actor always has such a space.  The forward pass has
    no check of its own. *)
Theorem Actor_init_checks_action_space `{Backend} (cfg : Config) (env : Env)
  (w : World) :
  (∀ m, symmetric_uniform (action_space env) m →
        ∃ a w', Actor.init cfg env w = Ok (a, w') ∧ Actor.max_action a = m)
  ∧ ((∀ m, ¬ symmetric_uniform (action_space env) m) →
     ∃ e, Actor.init cfg env w = Raise e)
  ∧ (∀ a w', Actor.init cfg env w = Ok (a, w') →
             symmetric_uniform (action_space env) (Actor.max_action a)).
Proof.
  split; [|split].
  - intros m Hs. by apply Actor_init_symmetric.
  - apply Actor_init_asymmetric.
  - intros a w' Hi. by apply Actor_init_Ok in Hi as [Hs _].
Qed.

(** ** The store *)

Lemma lookup_total_eq (h h' : gmap nat tensor) (l : nat) :
  h' !! l = h !! l → (h' !!! l : tensor) = h !!! l.
Proof. intros Heq. by rewrite !lookup_total_alt, Heq. Qed.

Lemma read_frame (h h' : gmap nat tensor) (ps : list nat) :
  (∀ l, l ∈ ps → h' !! l = h !! l) → read h' ps = read h ps.
Proof.
  intros Hf. unfold read. apply map_ext_in. intros l Hl.
  apply lookup_total_eq, Hf. by apply list_elem_of_In.
Qed.

Lemma read_length (h : gmap nat tensor) (ps : list nat) :
  length (read h ps) = length ps.
Proof. apply length_map. Qed.

Lemma read_lookup (h : gmap nat tensor) (ps : list nat) (k l : nat) :
  ps !! k = Some l → read h ps !! k = Some (h !!! l).
Proof. intros Hk. unfold read. by rewrite list_lookup_fmap, Hk. Qed.

Lemma write_frame (ps : list nat) (vs : list tensor) (h : gmap nat tensor)
  (l : nat) :
  l ∉ ps → write ps vs h !! l = h !! l.
Proof.
  unfold write. revert vs h.
  induction ps as [|p ps IH]; intros vs h Hl; [reflexivity|].
  destruct vs as [|v vs]; [reflexivity|]. simpl.
  apply not_elem_of_cons in Hl as [Hne Hl].
  rewrite IH by done. by apply lookup_insert_ne.
Qed.

Lemma copy_pairs_frame (f : tensor → tensor → tensor) (srcs dsts : list nat)
  (h : gmap nat tensor) (l : nat) :
  l ∉ dsts → copy_pairs f (zip srcs dsts) h !! l = h !! l.
Proof.
  unfold copy_pairs. revert dsts h.
  induction srcs as [|s srcs IH]; intros dsts h Hl; [reflexivity|].
  destruct dsts as [|d dsts]; [reflexivity|]. simpl.
  apply not_elem_of_cons in Hl as [Hne Hl].
  rewrite IH by done. by apply lookup_insert_ne.
Qed.

(** When the destinations are distinct and none is a source, every
    destination receives [f] of its old value and of its source's value. *)
Lemma copy_pairs_lookup (f : tensor → tensor → tensor) (srcs dsts : list nat)
  (h : gmap nat tensor) (k s d : nat) :
  NoDup dsts → (∀ x, x ∈ srcs → x ∉ dsts) →
  srcs !! k = Some s → dsts !! k = Some d →
  copy_pairs f (zip srcs dsts) h !!! d = f (h !!! d) (h !!! s).
Proof.
  revert dsts h k.
  induction srcs as [|s0 srcs IH]; intros dsts h k Hnd Hdisj Hs Hd; [done|].
  destruct dsts as [|d0 dsts]; [done|].
  apply NoDup_cons in Hnd as [Hd0 Hnd].
  change (copy_pairs f (zip (s0 :: srcs) (d0 :: dsts)) h)
    with (copy_pairs f (zip srcs dsts) (<[d0 := f (h !!! d0) (h !!! s0)]> h)).
  destruct k as [|k]; simpl in Hs, Hd.
  - injection Hs as ->. injection Hd as ->.
    rewrite (lookup_total_eq (<[d := f (h !!! d) (h !!! s)]> h))
      by (by apply copy_pairs_frame).
    apply lookup_total_insert_eq.
  - assert (Hsin : s ∈ srcs) by (by eapply list_elem_of_lookup_2).
    assert (Hdin : d ∈ dsts) by (by eapply list_elem_of_lookup_2).
    rewrite (IH dsts _ k); [|done| |done|done].
    + rewrite !lookup_total_insert_ne; [done| |].
      * intros ->. eapply (Hdisj s); [by right | by left].
      * by intros ->.
    + intros x Hx Hxd. eapply (Hdisj x); by right.
Qed.

Lemma copy_pairs_sources (f : tensor → tensor → tensor) (srcs dsts : list nat)
  (h : gmap nat tensor) :
  (∀ x, x ∈ srcs → x ∉ dsts) →
  read (copy_pairs f (zip srcs dsts) h) srcs = read h srcs.
Proof.
  intros Hdisj. apply read_frame. intros l Hl.
  apply copy_pairs_frame. by apply Hdisj.
Qed.

(** After a [load_state_dict], the destination holds the source's values and
    everything else is as before. *)
Lemma load_state_dict_Ok (dst src : list nat) (h h' : gmap nat tensor) :
  NoDup dst → (∀ x, x ∈ src → x ∉ dst) →
  load_state_dict dst src h = Ok h' →
  read h' dst = read h src
  ∧ read h' src = read h src
  ∧ length dst = length src
  ∧ (∀ l, l ∉ dst → h' !! l = h !! l).
Proof.
  intros Hnd Hdisj. unfold load_state_dict.
  case_bool_decide as Hc; [|discriminate]. destruct Hc as [Hlen _].
  intros [= <-]. split; [|split; [|split]].
  - apply list_eq. intros k. unfold read. rewrite !list_lookup_fmap.
    destruct (dst !! k) as [d|] eqn:Hd; simpl.
    + destruct (lookup_lt_is_Some_2 src k) as [s Hs].
      { rewrite <- Hlen. by eapply lookup_lt_Some. }
      rewrite Hs. simpl. f_equal.
      by rewrite (copy_pairs_lookup _ src dst h k s d).
    + apply lookup_ge_None in Hd. rewrite Hlen in Hd.
      apply lookup_ge_None in Hd. by rewrite Hd.
  - by apply copy_pairs_sources.
  - done.
  - intros l Hl. by apply copy_pairs_frame.
Qed.

(** ** Allocation of parameters *)

Lemma draws_length {G : Type} (n : nat) (sample : G → R * G) (g : G) :
  length (draws n sample g).1 = n.
Proof.
  revert g. induction n as [|n IH]; intros g; [reflexivity|].
  cbn [draws]. destruct (sample g) as [x g1].
  specialize (IH g1). destruct (draws n sample g1) as [xs g2].
  simpl in *. by rewrite IH.
Qed.

Lemma allocates_nil `{Backend} (w : World) : allocates w w [] [].
Proof.
  unfold allocates. simpl. rewrite Nat.add_0_r.
  repeat split; auto using Forall2_nil_2.
Qed.

Lemma allocates_app `{Backend} (w w1 w2 : World) (ps qs s1 s2 : list nat) :
  allocates w w1 ps s1 → allocates w1 w2 qs s2 →
  allocates w w2 (ps ++ qs) (s1 ++ s2).
Proof.
  intros (Hps & Hn1 & Ht1 & Hf1 & Hs1) (Hqs & Hn2 & Ht2 & Hf2 & Hs2).
  unfold allocates. rewrite length_app.
  split; [|split; [|split; [|split]]].
  - rewrite seq_app, <- Hps, <- Hn1. by f_equal.
  - lia.
  - congruence.
  - intros l Hl. rewrite Hf2 by lia. by apply Hf1.
  - apply Forall2_app; [|done].
    apply Forall2_same_length_lookup.
    split; [by eapply Forall2_length|]. intros k l n Hl Hn.
    rewrite (lookup_total_eq (heap w1)).
    + exact (Forall2_lookup_lr _ _ _ _ _ _ Hs1 Hl Hn).
    + apply Hf2. rewrite Hps in Hl. apply lookup_seq in Hl. lia.
Qed.

Lemma Linear_init_allocates `{Backend} (i o : nat) (w w' : World)
  (l : Linear.t) :
  Linear.init i o w = (l, w') →
  allocates w w' (Linear.parameters l) [o * i; o]%nat.
Proof.
  unfold Linear.init.
  pose proof (draws_length (o * i) (init_sample i) (rng w)) as Hw.
  destruct (draws (o * i) (init_sample i) (rng w)) as [wv g1].
  pose proof (draws_length o (init_sample i) g1) as Hb.
  destruct (draws o (init_sample i) g1) as [bv g2].
  cbn [alloc set_rng heap next_loc rng trace fst] in *.
  intros [= <- <-].
  unfold allocates, Linear.parameters.
  cbn [Linear.weight Linear.bias heap next_loc rng trace length seq].
  split; [reflexivity|]. split; [lia|]. split; [reflexivity|]. split.
  - intros l Hl. rewrite !lookup_insert_ne by lia. reflexivity.
  - apply Forall2_cons. split.
    + rewrite lookup_total_insert_ne by lia.
      by rewrite lookup_total_insert_eq.
    + apply Forall2_cons. split; [|apply Forall2_nil_2].
      by rewrite lookup_total_insert_eq.
Qed.

Lemma make_fc_allocates `{Backend} (i : nat) (hs : list nat) (w w' : World)
  (ls : list Linear.t) :
  make_fc i hs w = (ls, w') →
  allocates w w' (layers_parameters ls) (fc_shapes i hs).
Proof.
  revert i w w' ls. induction hs as [|s hs IH]; intros i w w' ls.
  - intros [= <- <-]. apply allocates_nil.
  - cbn [make_fc]. destruct (Linear.init i s w) as [l w1] eqn:Hl.
    destruct (make_fc s hs w1) as [ls' w2] eqn:Hls.
    intros [= <- <-].
    change (layers_parameters (l :: ls'))
      with (Linear.parameters l ++ layers_parameters ls').
    cbn [fc_shapes].
    eapply allocates_app; [by apply Linear_init_allocates | by apply IH].
Qed.

Lemma Actor_init_allocates `{Backend} (cfg : Config) (env : Env)
  (w w' : World) (a : Actor.t) :
  Actor.init cfg env w = Ok (a, w') →
  allocates w w' (Actor.parameters a) (actor_shapes env).
Proof.
  intros Hi. apply Actor_init_Ok in Hi as (_ & _ & _ & w1 & Hfc & Hah).
  unfold Actor.parameters, actor_shapes.
  eapply allocates_app;
    [by apply make_fc_allocates | by apply Linear_init_allocates].
Qed.

Lemma Critic_init_allocates `{Backend} (cfg : Config) (env : Env)
  (w w' : World) (c : Critic.t) :
  Critic.init cfg env w = (c, w') →
  allocates w w' (Critic.parameters c) (critic_shapes env).
Proof.
  unfold Critic.init.
  destruct (make_fc _ _ w) as [fl1 w1] eqn:H1.
  destruct (Linear.init _ _ w1) as [h1 w2] eqn:H2.
  destruct (make_fc _ _ w2) as [fl2 w3] eqn:H3.
  destruct (Linear.init _ _ w3) as [h2 w4] eqn:H4.
  intros [= <- <-].
  unfold Critic.parameters, critic_shapes.
  cbn [Critic.first_feature_layers Critic.first_Q_head
       Critic.second_feature_layers Critic.second_Q_head].
  rewrite (app_assoc (layers_parameters fl1)).
  eapply allocates_app.
  - eapply allocates_app;
      [by apply make_fc_allocates | by apply Linear_init_allocates].
  - eapply allocates_app;
      [by apply make_fc_allocates | by apply Linear_init_allocates].
Qed.

(** ** Agent construction *)

Lemma allocates_params_lt `{Backend} (w w' : World) (ps sh : list nat) (l : nat) :
  allocates w w' ps sh → l ∈ ps → (next_loc w ≤ l < next_loc w')%nat.
Proof.
  intros (Hps & Hn & _) Hl. rewrite Hps in Hl. apply elem_of_seq in Hl. lia.
Qed.

Lemma allocates_length `{Backend} (w w' : World) (ps sh : list nat) :
  allocates w w' ps sh → length ps = length sh.
Proof. intros (Hps & _). rewrite Hps at 1. apply length_seq. Qed.

Lemma allocates_NoDup `{Backend} (w w' : World) (ps sh : list nat) :
  allocates w w' ps sh → NoDup ps.
Proof. intros (Hps & _). rewrite Hps. apply NoDup_seq. Qed.

Lemma read_allocates `{Backend} (w w' : World) (ps sh qs : list nat) :
  allocates w w' ps sh → (∀ l, l ∈ qs → (l < next_loc w)%nat) →
  read (heap w') qs = read (heap w) qs.
Proof.
  intros (_ & _ & _ & Hf & _) Hq. apply read_frame. intros l Hl.
  by apply Hf, Hq.
Qed.

(** A network built right after another of the same shapes can load the
    state of the first. *)
Lemma load_state_dict_fresh `{Backend} (w w1 w2 : World) (ps qs sh : list nat) :
  allocates w w1 ps sh → allocates w1 w2 qs sh →
  ∃ h, load_state_dict qs ps (heap w2) = Ok h.
Proof.
  intros Hp Hq. unfold load_state_dict.
  rewrite bool_decide_eq_true_2; [eauto|]. split.
  - by rewrite (allocates_length _ _ _ _ Hp), (allocates_length _ _ _ _ Hq).
  - apply Forall2_same_length_lookup. split.
    + by rewrite (allocates_length _ _ _ _ Hp), (allocates_length _ _ _ _ Hq).
    + intros k d s Hd Hs.
      destruct Hp as (Hps & Hn1 & _ & _ & Hs1).
      destruct Hq as (Hqs & Hn2 & _ & Hf2 & Hs2).
      destruct (lookup_lt_is_Some_2 sh k) as [n Hn].
      { apply lookup_lt_Some in Hs. rewrite Hps, length_seq in Hs. done. }
      rewrite (Forall2_lookup_lr _ _ _ _ _ _ Hs2 Hd Hn).
      rewrite (lookup_total_eq (heap w1)).
      * by rewrite (Forall2_lookup_lr _ _ _ _ _ _ Hs1 Hs Hn).
      * apply Hf2. rewrite Hps in Hs. apply lookup_seq in Hs. lia.
Qed.

Lemma Agent_init_Ok `{Backend} (cfg : Config) (env : Env) (w w' : World)
  (ag : Agent.t) :
  Agent.init cfg env w = Ok (ag, w') →
  agent_wf ag
  ∧ Agent.config ag = cfg ∧ Agent.env ag = env ∧ Agent.total_timestep ag = 0%Z
  ∧ read (heap w') (Actor.parameters (Agent.actor_target ag))
    = read (heap w') (Actor.parameters (Agent.actor ag))
  ∧ read (heap w') (Critic.parameters (Agent.critic_target ag))
    = read (heap w') (Critic.parameters (Agent.critic ag))
  ∧ trace w' = trace w.
Proof.
  intros Hi. unfold Agent.init in Hi.
  apply bind_Ok in Hi as ([a w1] & Ha & Hi).
  apply bind_Ok in Hi as ([a' w2] & Ha' & Hi).
  apply bind_Ok in Hi as (h3 & Hl1 & Hi).
  destruct (Critic.init cfg env (set_heap h3 w2)) as [c w3] eqn:Hc.
  destruct (Critic.init cfg env w3) as [c' w4] eqn:Hc'.
  apply bind_Ok in Hi as (h5 & Hl2 & Hi).
  apply bind_Ok in Hi as (m & Hm & Hi).
  injection Hi as <- <-.
  pose proof (Actor_init_Ok _ _ _ _ _ Ha) as (Hsym & _).
  pose proof (Actor_init_Ok _ _ _ _ _ Ha') as (Hsym' & _).
  apply Actor_init_allocates in Ha, Ha'.
  apply Critic_init_allocates in Hc, Hc'.
  set (pa := Actor.parameters a) in *. set (pa' := Actor.parameters a') in *.
  set (pc := Critic.parameters c) in *. set (pc' := Critic.parameters c') in *.
  assert (Hda : ∀ x, x ∈ pa → x ∉ pa').
  { intros x Hx Hx'. eapply allocates_params_lt in Hx, Hx'; [|done..]. lia. }
  assert (Hdc : ∀ x, x ∈ pc → x ∉ pc').
  { intros x Hx Hx'. eapply allocates_params_lt in Hx, Hx'; [|done..]. lia. }
  apply load_state_dict_Ok in Hl1 as (Hr1 & Hr1' & Hlen1 & Hf1);
    [|by eapply allocates_NoDup|done].
  apply load_state_dict_Ok in Hl2 as (Hr2 & Hr2' & Hlen2 & Hf2);
    [|by eapply allocates_NoDup|done].
  assert (Hm' : m = Actor.max_action a).
  { destruct Hsym as (Hne & _ & Hall & _). unfold np.getitem in Hm.
    destruct (high (action_space env)) as [|x l]; [done|].
    simpl in Hm. injection Hm as <-. by apply Forall_cons in Hall as [-> _]. }
  assert (Hm'' : m = Actor.max_action a').
  { destruct Hsym' as (Hne & _ & Hall & _). unfold np.getitem in Hm.
    destruct (high (action_space env)) as [|x l]; [done|].
    simpl in Hm. injection Hm as <-. by apply Forall_cons in Hall as [-> _]. }
  cbn [Agent.config Agent.env Agent.actor Agent.actor_target Agent.critic
       Agent.critic_target Agent.total_timestep set_heap heap trace].
  fold pa pa' pc pc'.
  split; [|split; [done|split; [done|split; [done|split; [|split]]]]].
  - unfold agent_wf.
    cbn [Agent.actor Agent.actor_target Agent.critic Agent.critic_target
         Agent.actor_optimizer Agent.critic_optimizer Agent.env
         Agent.max_action Optimizer.init Optimizer.param_groups].
    fold pa pa' pc pc'.
    split; [|split; [|split; [|split; [|split; [|split; [|split]]]]]].
    + destruct Ha as (Hpa & Hn1 & _). destruct Ha' as (Hpa' & Hn2 & _).
      destruct Hc as (Hpc & Hn3 & _). destruct Hc' as (Hpc' & Hn4 & _).
      cbn [set_heap next_loc] in Hpc, Hn3.
      rewrite Hpa, Hpa', Hpc, Hpc', Hn3, Hn2, Hn1.
      rewrite <- !seq_app. apply NoDup_seq.
    + done.
    + done.
    + reflexivity.
    + reflexivity.
    + by rewrite Hm'.
    + done.
    + done.
  - rewrite (read_frame (heap w4) h5 pa'), (read_frame (heap w4) h5 pa).
    + rewrite !(read_allocates _ _ _ _ _ Hc'), !(read_allocates _ _ _ _ _ Hc).
      * cbn [set_heap heap]. by rewrite Hr1, Hr1'.
      * intros l Hl. eapply allocates_params_lt in Hl; [|exact Ha].
        cbn [set_heap next_loc]. pose proof (proj1 (proj2 Ha')). lia.
      * intros l Hl. eapply allocates_params_lt in Hl; [|exact Ha'].
        cbn [set_heap next_loc]. lia.
      * intros l Hl. eapply allocates_params_lt in Hl; [|exact Ha].
        pose proof (proj1 (proj2 Ha')). pose proof (proj1 (proj2 Hc)).
        cbn [set_heap next_loc] in *. lia.
      * intros l Hl. eapply allocates_params_lt in Hl; [|exact Ha'].
        pose proof (proj1 (proj2 Hc)). cbn [set_heap next_loc] in *. lia.
    + intros l Hl. apply Hf2. intros Hl'.
      eapply allocates_params_lt in Hl; [|exact Ha].
      eapply allocates_params_lt in Hl'; [|exact Hc'].
      pose proof (proj1 (proj2 Ha')). pose proof (proj1 (proj2 Hc)).
      cbn [set_heap next_loc] in *. lia.
    + intros l Hl. apply Hf2. intros Hl'.
      eapply allocates_params_lt in Hl; [|exact Ha'].
      eapply allocates_params_lt in Hl'; [|exact Hc'].
      pose proof (proj1 (proj2 Hc)). cbn [set_heap next_loc] in *. lia.
  - by rewrite Hr2, Hr2'.
  - destruct Ha as (_ & _ & Ht1 & _). destruct Ha' as (_ & _ & Ht2 & _).
    destruct Hc as (_ & _ & Ht3 & _). destruct Hc' as (_ & _ & Ht4 & _).
    cbn [set_heap trace] in Ht3. congruence.
Qed.


Lemma Agent_init_total `{Backend} (cfg : Config) (env : Env) (w : World)
  (m : R) :
  symmetric_uniform (action_space env) m →
  ∃ ag w', Agent.init cfg env w = Ok (ag, w') ∧ Agent.max_action ag = m.
Proof.
  intros Hsym. unfold Agent.init.
  destruct (Actor_init_symmetric cfg env w m Hsym) as (a & w1 & Ha & _).
  rewrite Ha. cbn [bind].
  destruct (Actor_init_symmetric cfg env w1 m Hsym) as (a' & w2 & Ha' & _).
  rewrite Ha'. cbn [bind].
  destruct (load_state_dict_fresh w w1 w2 (Actor.parameters a)
              (Actor.parameters a') (actor_shapes env)) as [h3 Hl1];
    [by eapply Actor_init_allocates..|].
  rewrite Hl1. cbn [bind].
  destruct (Critic.init cfg env (set_heap h3 w2)) as [c w3] eqn:Hc.
  destruct (Critic.init cfg env w3) as [c' w4] eqn:Hc'.
  destruct (load_state_dict_fresh (set_heap h3 w2) w3 w4 (Critic.parameters c)
              (Critic.parameters c') (critic_shapes env)) as [h5 Hl2];
    [by eapply Critic_init_allocates..|].
  rewrite Hl2. cbn [bind].
  destruct Hsym as (Hne & _ & Hall & _). unfold np.getitem.
  destruct (high (action_space env)) as [|x l]; [done|].
  apply Forall_cons in Hall as [<- _]. simpl. eauto.
Qed.


(** ** Action bounds *)

Lemma np_clip_within (m : R) (a lo hi : list R) :
  0 <= m → Forall (eq (- m)) lo → Forall (eq m) hi → within m (np.clip a lo hi).
Proof.
  intros Hm. unfold np.clip, within. revert lo hi.
  induction a as [|v a IH]; intros lo hi Hlo Hhi; [constructor|].
  destruct lo as [|l lo]; [constructor|].
  destruct hi as [|h hi]; [constructor|].
  apply Forall_cons in Hlo as [<- Hlo]. apply Forall_cons in Hhi as [<- Hhi].
  simpl. constructor; [|by apply IH].
  apply clamp1_bounds. lra.
Qed.

Lemma torch_clamp_within (m : R) (x : list (list R)) :
  0 <= m → Forall (within m) (torch.clamp x (- m) m).
Proof.
  intros Hm. unfold torch.clamp. apply Forall_map, Forall_forall.
  intros r _. unfold within. apply Forall_map, Forall_forall.
  intros v _. apply clamp1_bounds. lra.
Qed.

Lemma Actor_forward_row_within (h : gmap nat tensor) (a : Actor.t) (x : list R) :
  0 <= Actor.max_action a → within (Actor.max_action a) (Actor.forward_row h a x).
Proof.
  intros Hm. unfold Actor.forward_row, within. apply Forall_map, Forall_forall.
  intros z _. by apply scaled_tanh_bounds.
Qed.

Lemma Actor_forward_within (h : gmap nat tensor) (a : Actor.t)
  (x : list (list R)) :
  0 <= Actor.max_action a →
  Forall (within (Actor.max_action a)) (Actor.forward h a x).
Proof.
  intros Hm. unfold Actor.forward. apply Forall_map, Forall_forall.
  intros r _. by apply Actor_forward_row_within.
Qed.

Lemma next_actions_of_within `{Backend} (ag : Agent.t) (s : Samples) (w : World) :
  0 <= Agent.max_action ag →
  Forall (within (Agent.max_action ag)) (Agent.next_actions_of ag s w).1.
Proof.
  intros Hm. unfold Agent.next_actions_of.
  destruct (fill_like2 _ _ (rng w)) as [eps g]. cbn [fst].
  by apply torch_clamp_within.
Qed.

(** ** Polyak averaging *)

Lemma polyak_elementwise (p : R) (t s : tensor) :
  Agent.polyak p t s = zip_with (λ a b, p * a + (1 - p) * b) t s.
Proof.
  unfold Agent.polyak, vadd, vscale. revert s.
  induction t as [|a t IH]; intros [|b s]; simpl; try reflexivity.
  by rewrite IH.
Qed.

Lemma polyak_one (t s : tensor) : length t = length s → Agent.polyak 1 t s = t.
Proof.
  rewrite polyak_elementwise. revert s.
  induction t as [|a t IH]; intros [|b s] Hlen; simpl in *; try done.
  rewrite IH by lia. f_equal. lra.
Qed.

Lemma polyak_zero (t s : tensor) : length t = length s → Agent.polyak 0 t s = s.
Proof.
  rewrite polyak_elementwise. revert s.
  induction t as [|a t IH]; intros [|b s] Hlen; simpl in *; try done.
  rewrite IH by lia. f_equal. lra.
Qed.

Lemma read_app (h : gmap nat tensor) (ps qs : list nat) :
  read h (ps ++ qs) = read h ps ++ read h qs.
Proof. apply map_app. Qed.

(** A pass of [copy_pairs] seen from the destinations. *)
Lemma copy_pairs_read (f : tensor → tensor → tensor) (srcs dsts : list nat)
  (h : gmap nat tensor) :
  NoDup dsts → (∀ x, x ∈ srcs → x ∉ dsts) → length srcs = length dsts →
  read (copy_pairs f (zip srcs dsts) h) dsts
  = zip_with f (read h dsts) (read h srcs).
Proof.
  intros Hnd Hdisj Hlen. apply list_eq. intros k.
  rewrite lookup_zip_with. unfold read. rewrite !list_lookup_fmap.
  destruct (dsts !! k) as [d|] eqn:Hd; simpl; [|done].
  destruct (lookup_lt_is_Some_2 srcs k) as [s Hs].
  { rewrite Hlen. by eapply lookup_lt_Some. }
  rewrite Hs. simpl. f_equal. by apply (copy_pairs_lookup f srcs dsts h k).
Qed.

Lemma agent_wf_separate `{Backend} (ag : Agent.t) :
  agent_wf ag →
  let pa := Actor.parameters (Agent.actor ag) in
  let pa' := Actor.parameters (Agent.actor_target ag) in
  let pc := Critic.parameters (Agent.critic ag) in
  let pc' := Critic.parameters (Agent.critic_target ag) in
  NoDup pa' ∧ NoDup pc'
  ∧ (∀ x, x ∈ pa → x ∉ pa') ∧ (∀ x, x ∈ pa → x ∉ pc')
  ∧ (∀ x, x ∈ pc → x ∉ pa') ∧ (∀ x, x ∈ pc → x ∉ pc')
  ∧ (∀ x, x ∈ pa' → x ∉ pc') ∧ (∀ x, x ∈ pc' → x ∉ pa').
Proof.
  intros (Hnd & _). cbv zeta.
  apply NoDup_app in Hnd as (_ & H1 & Hnd).
  apply NoDup_app in Hnd as (Hpa' & H2 & Hnd).
  apply NoDup_app in Hnd as (_ & H3 & Hpc').
  repeat split; try done.
  - intros x Hx Hx'. apply (H1 x Hx). apply elem_of_app. by left.
  - intros x Hx Hx'. apply (H1 x Hx). rewrite !elem_of_app. by right; right.
  - intros x Hx Hx'. apply (H2 x Hx'). apply elem_of_app. by left.
  - intros x Hx Hx'. apply (H2 x Hx). apply elem_of_app. by right.
  - intros x Hx Hx'. apply (H2 x Hx'). apply elem_of_app. by right.
Qed.

Lemma polyak_update_target_read `{Backend} (ag : Agent.t) (w : World) :
  agent_wf ag →
  let w' := Agent.polyak_update_target ag w in
  read (heap w') (target_parameters ag)
  = zip_with (Agent.polyak (agent_polyak (Agent.config ag)))
      (read (heap w) (target_parameters ag))
      (read (heap w) (online_parameters ag))
  ∧ read (heap w') (online_parameters ag) = read (heap w) (online_parameters ag)
  ∧ (∀ l, l ∉ target_parameters ag → heap w' !! l = heap w !! l)
  ∧ trace w' = trace w ∧ rng w' = rng w ∧ next_loc w' = next_loc w.
Proof.
  intros Hwf.
  pose proof (agent_wf_separate ag Hwf)
    as (Hnda & Hndc & Haa & Hac & Hca & Hcc & Hac' & Hca').
  destruct Hwf as (_ & Hla & Hlc & _).
  cbv zeta in *. unfold Agent.polyak_update_target, target_parameters,
    online_parameters.
  cbn [set_heap heap trace rng next_loc].
  set (p := agent_polyak (Agent.config ag)).
  set (pa := Actor.parameters (Agent.actor ag)) in *.
  set (pa' := Actor.parameters (Agent.actor_target ag)) in *.
  set (pc := Critic.parameters (Agent.critic ag)) in *.
  set (pc' := Critic.parameters (Agent.critic_target ag)) in *.
  set (h1 := copy_pairs (Agent.polyak p) (zip pa pa') (heap w)).
  assert (Hf1 : ∀ l, l ∉ pa' → h1 !! l = heap w !! l).
  { intros l Hl. by apply copy_pairs_frame. }
  assert (Hf2 : ∀ l, l ∉ pc' →
            copy_pairs (Agent.polyak p) (zip pc pc') h1 !! l = h1 !! l).
  { intros l Hl. by apply copy_pairs_frame. }
  split; [|split; [|split]].
  - rewrite !read_app, zip_with_app by (by rewrite !read_length).
    f_equal.
    + rewrite (read_frame h1) by (intros l Hl; apply Hf2; auto).
      by apply copy_pairs_read.
    + rewrite copy_pairs_read by done.
      by rewrite !(read_frame (heap w) h1) by (intros l Hl; apply Hf1; auto).
  - rewrite !read_app. f_equal.
    + rewrite (read_frame h1) by (intros l Hl; apply Hf2; auto).
      apply read_frame. intros l Hl. apply Hf1; auto.
    + rewrite (read_frame h1) by (intros l Hl; apply Hf2; auto).
      apply read_frame. intros l Hl. apply Hf1; auto.
  - intros l Hl. apply not_elem_of_app in Hl as [Hl1 Hl2].
    rewrite Hf2 by done. by apply Hf1.
  - done.
Qed.

Lemma zip_with_polyak_one (ts ss : list tensor) :
  Forall2 (λ t s, length t = length s) ts ss →
  zip_with (Agent.polyak 1) ts ss = ts.
Proof.
  induction 1 as [|t s ts ss Hlen _ IH]; simpl; [done|].
  by rewrite polyak_one, IH.
Qed.

Lemma zip_with_polyak_zero (ts ss : list tensor) :
  Forall2 (λ t s, length t = length s) ts ss →
  zip_with (Agent.polyak 0) ts ss = ss.
Proof.
  induction 1 as [|t s ts ss Hlen _ IH]; simpl; [done|].
  by rewrite polyak_zero, IH.
Qed.

Lemma same_shapes_read (h : gmap nat tensor) (srcs dsts : list nat) :
  same_shapes h srcs dsts →
  Forall2 (λ t s : tensor, length t = length s) (read h dsts) (read h srcs).
Proof.
  unfold same_shapes, read. intros Hs.
  apply Forall2_fmap, Forall2_flip.
  eapply Forall2_impl; [exact Hs|]. intros s d Hlen. simpl. done.
Qed.

(** C4: [polyak_update_target] replaces every parameter tensor of both
    target networks by [p * target + (1 - p) * source], entry by entry, and
    leaves the online networks as they are; so with [p = 1] the targets are
    unchanged and with [p = 0] they are exactly the sources. *)
Theorem polyak_update_target_convex `{Backend} (ag : Agent.t) (w : World) :
  agent_wf ag →
  same_shapes (heap w) (online_parameters ag) (target_parameters ag) →
  let p := agent_polyak (Agent.config ag) in
  let w' := Agent.polyak_update_target ag w in
  (∀ k t s, target_parameters ag !! k = Some t →
            online_parameters ag !! k = Some s →
            heap w' !!! t
            = zip_with (λ a b, p * a + (1 - p) * b) (heap w !!! t) (heap w !!! s))
  ∧ read (heap w') (online_parameters ag) = read (heap w) (online_parameters ag)
  ∧ (p = 1 → read (heap w') (target_parameters ag)
             = read (heap w) (target_parameters ag))
  ∧ (p = 0 → read (heap w') (target_parameters ag)
             = read (heap w) (online_parameters ag)).
Proof.
  intros Hwf Hsh p w'.
  destruct (polyak_update_target_read ag w Hwf) as (Hr & Ho & _).
  fold w' p in Hr, Ho.
  split; [|split; [done|split]].
  - intros k t s Ht Hs.
    assert (Hk : read (heap w') (target_parameters ag) !! k
                 = Some (heap w' !!! t)) by (by apply read_lookup).
    rewrite Hr, lookup_zip_with in Hk.
    rewrite (read_lookup _ _ _ _ Ht), (read_lookup _ _ _ _ Hs) in Hk.
    simpl in Hk. injection Hk as Hk.
    etransitivity; [symmetry; exact Hk | apply polyak_elementwise].
  - intros Hp. rewrite Hr, Hp. by apply zip_with_polyak_one, same_shapes_read.
  - intros Hp. rewrite Hr, Hp. by apply zip_with_polyak_zero, same_shapes_read.
Qed.

(** ** The learning step *)

Lemma same_structure_refl `{Backend} (ag : Agent.t) : same_structure ag ag.
Proof. by repeat split. Qed.

Lemma same_structure_trans `{Backend} (a b c : Agent.t) :
  same_structure a b → same_structure b c → same_structure a c.
Proof.
  unfold same_structure. intros (?&?&?&?&?&?&?&?&?) (?&?&?&?&?&?&?&?&?).
  repeat split; congruence.
Qed.

Lemma same_structure_wf `{Backend} (ag ag' : Agent.t) :
  same_structure ag ag' → agent_wf ag → agent_wf ag'.
Proof.
  unfold same_structure, agent_wf.
  intros (Hc&He&Ha&Ha'&Hcr&Hcr'&Hoa&Hoc&Hm).
  by rewrite He, Ha, Ha', Hcr, Hcr', Hoa, Hoc, Hm.
Qed.

Lemma same_structure_targets `{Backend} (ag ag' : Agent.t) :
  same_structure ag ag' →
  target_parameters ag' = target_parameters ag
  ∧ online_parameters ag' = online_parameters ag.
Proof.
  unfold target_parameters, online_parameters.
  intros (_&_&Ha&Ha'&Hcr&Hcr'&_). by rewrite Ha, Ha', Hcr, Hcr'.
Qed.

(** An optimizer step writes the optimizer's own parameters only. *)
Lemma Optimizer_step_frame `{Backend} (o o' : Optimizer.t)
  (grads : list tensor) (w w' : World) :
  Optimizer.step o grads w = (o', w') →
  Optimizer.param_groups o' = Optimizer.param_groups o
  ∧ (∀ l, l ∉ Optimizer.param_groups o → heap w' !! l = heap w !! l)
  ∧ trace w' = trace w ∧ rng w' = rng w ∧ next_loc w' = next_loc w.
Proof.
  unfold Optimizer.step.
  destruct (Adam_update _ _ _) as [vs st]. intros [= <- <-].
  cbn [Optimizer.param_groups set_heap heap trace rng next_loc].
  repeat split. intros l Hl. by apply write_frame.
Qed.

Lemma targets_of_world `{Backend} (ag : Agent.t) (s : Samples) (w : World) :
  let w' := (Agent.targets_of ag s w).2 in
  heap w' = heap w ∧ trace w' = trace w ∧ next_loc w' = next_loc w.
Proof.
  unfold Agent.targets_of, Agent.next_actions_of.
  destruct (fill_like2 _ _ (rng w)) as [eps g]. done.
Qed.

Lemma update_critic_frame `{Backend} (ag ag' : Agent.t) (replay : Replay)
  (w w' : World) (s : Samples) (r : R * R * list R * list R) :
  Agent.update_critic ag replay w = (ag', s, r, w') →
  same_structure ag ag'
  ∧ Agent.total_timestep ag' = Agent.total_timestep ag
  ∧ (∀ l, l ∉ Optimizer.param_groups (Agent.critic_optimizer ag) →
          heap w' !! l = heap w !! l)
  ∧ trace w' = trace w ++ [CriticStep]
  ∧ next_loc w' = next_loc w.
Proof.
  unfold Agent.update_critic.
  destruct (replay_sample _ _ (rng w)) as [s0 g].
  pose proof (targets_of_world ag s0 (set_rng g w)) as (Hh & Ht & Hn).
  destruct (Agent.targets_of ag s0 (set_rng g w)) as [targets w1].
  cbn [snd set_rng heap trace next_loc] in Hh, Ht, Hn.
  cbn [Critic.forward].
  destruct (clip_grad_norm_ _ _) as [grads cgn].
  destruct (Optimizer.step _ grads w1) as [o w2] eqn:Hstep.
  apply Optimizer_step_frame in Hstep as (Hpg & Hf & Htr & _ & Hnl).
  intros [= <- <- <- <-].
  cbn [log heap trace next_loc].
  split; [|split; [done|split; [|split]]].
  - unfold same_structure. by cbn.
  - intros l Hl. rewrite Hf by done. by rewrite Hh.
  - by rewrite Htr, Ht.
  - by rewrite Hnl, Hn.
Qed.

Lemma update_actor_frame `{Backend} (ag ag' : Agent.t) (s : Samples)
  (w w' : World) (r : R * R) :
  Agent.update_actor ag s w = (ag', r, w') →
  same_structure ag ag'
  ∧ Agent.total_timestep ag' = Agent.total_timestep ag
  ∧ (∀ l, l ∉ Optimizer.param_groups (Agent.actor_optimizer ag) →
          heap w' !! l = heap w !! l)
  ∧ trace w' = trace w ++ [ActorStep]
  ∧ next_loc w' = next_loc w.
Proof.
  unfold Agent.update_actor.
  destruct (clip_grad_norm_ _ _) as [grads agn].
  destruct (Optimizer.step _ grads w) as [o w2] eqn:Hstep.
  apply Optimizer_step_frame in Hstep as (Hpg & Hf & Htr & _ & Hnl).
  intros [= <- <- <-].
  cbn [log heap trace next_loc].
  split; [|split; [done|split; [|split]]].
  - unfold same_structure. by cbn.
  - done.
  - by rewrite Htr.
  - done.
Qed.

Lemma divides_index_Ok (i d : Z) :
  d ≠ 0%Z → Agent.divides_index i d = Ok (i mod d =? 0)%Z.
Proof. intros Hd. unfold Agent.divides_index. by rewrite bool_decide_eq_false_2. Qed.

Lemma divides_index_zero (i : Z) : Agent.divides_index i 0 = Raise ZeroDivisionError.
Proof. reflexivity. Qed.

(** One iteration of the loop of [learn]: it returns whenever the policy
    delay is not zero, logs the updates of [iteration_events], and binds the
    gradient norms. *)
Lemma learn_iteration_Ok `{Backend} (replay : Replay) (i : Z) (ag : Agent.t)
  (l : Agent.Locals) (w : World) :
  agent_policy_delay (Agent.config ag) ≠ 0%Z →
  ∃ ag' l' w',
    Agent.learn_iteration replay i (ag, l, w) = Ok (ag', l', w')
    ∧ same_structure ag ag'
    ∧ Agent.total_timestep ag' = Agent.total_timestep ag
    ∧ trace w'
      = trace w ++ iteration_events (agent_policy_delay (Agent.config ag)) i
    ∧ is_Some (Agent.critic_grad_norm l')
    ∧ ((i mod agent_policy_delay (Agent.config ag) = 0)%Z
       ∨ is_Some (Agent.actor_grad_norm l) → is_Some (Agent.actor_grad_norm l')).
Proof.
  intros Hd. unfold Agent.learn_iteration.
  destruct (Agent.update_critic ag replay w)
    as [[[ag1 s] [[[cl cgn] Qs1] Qs2]] w1] eqn:Hc.
  apply update_critic_frame in Hc as (Hs1 & Ht1 & _ & Htr1 & _).
  pose proof Hs1 as (Hcfg & _). rewrite Hcfg.
  rewrite divides_index_Ok by done. cbn [bind].
  unfold iteration_events.
  destruct (i mod agent_policy_delay (Agent.config ag) =? 0)%Z eqn:Hmod.
  - destruct (Agent.update_actor ag1 s w1) as [[ag2 [al agn]] w2] eqn:Ha.
    apply update_actor_frame in Ha as (Hs2 & Ht2 & _ & Htr2 & _).
    eexists _, _, _. split; [reflexivity|].
    cbn [Agent.critic_grad_norm Agent.actor_grad_norm log trace
         Agent.polyak_update_target set_heap].
    split; [by eapply same_structure_trans|]. split; [congruence|].
    split; [|split; [eauto|eauto]].
    rewrite Htr2, Htr1, <- !app_assoc. reflexivity.
  - eexists _, _, _. split; [reflexivity|].
    cbn [Agent.critic_grad_norm Agent.actor_grad_norm].
    split; [done|]. split; [done|]. split; [done|]. split; [eauto|].
    intros [Hz|Hsome]; [|done]. apply Z.eqb_neq in Hmod. done.
Qed.

Lemma learn_iteration_inv `{Backend} (replay : Replay) (i : Z) (ag ag' : Agent.t)
  (l l' : Agent.Locals) (w w' : World) :
  Agent.learn_iteration replay i (ag, l, w) = Ok (ag', l', w') →
  agent_policy_delay (Agent.config ag) ≠ 0%Z.
Proof.
  unfold Agent.learn_iteration.
  destruct (Agent.update_critic ag replay w)
    as [[[ag1 s] [[[cl cgn] Qs1] Qs2]] w1] eqn:Hc.
  apply update_critic_frame in Hc as ((Hcfg & _) & _). rewrite Hcfg.
  intros Hi Hz. rewrite Hz, divides_index_zero in Hi. discriminate.
Qed.

Lemma learn_events_S (d i0 : Z) (n : nat) :
  learn_events d i0 (S n) = iteration_events d i0 ++ learn_events d (i0 + 1) n.
Proof.
  unfold learn_events.
  replace (Z.of_nat (S n)) with (Z.succ (Z.of_nat n)) by lia.
  rewrite seqZ_cons by lia. cbn [map concat].
  replace (Z.pred (Z.succ (Z.of_nat n))) with (Z.of_nat n) by lia.
  reflexivity.
Qed.

(** The loop of [learn]. *)
Lemma learn_loop_Ok `{Backend} (replay : Replay) (n : nat) (i0 : Z)
  (ag : Agent.t) (l : Agent.Locals) (w : World) :
  agent_policy_delay (Agent.config ag) ≠ 0%Z →
  ∃ ag' l' w',
    Agent.for_range n i0 (Agent.learn_iteration replay) (ag, l, w)
    = Ok (ag', l', w')
    ∧ same_structure ag ag'
    ∧ Agent.total_timestep ag' = Agent.total_timestep ag
    ∧ trace w'
      = trace w ++ learn_events (agent_policy_delay (Agent.config ag)) i0 n
    ∧ ((0 < n)%nat → is_Some (Agent.critic_grad_norm l'))
    ∧ ((0 < n)%nat ∧ (i0 mod agent_policy_delay (Agent.config ag) = 0)%Z
       ∨ is_Some (Agent.actor_grad_norm l) → is_Some (Agent.actor_grad_norm l')).
Proof.
  revert i0 ag l w. induction n as [|n IH]; intros i0 ag l w Hd.
  - exists ag, l, w. cbn [Agent.for_range]. split; [done|].
    split; [apply same_structure_refl|]. split; [done|].
    split; [by rewrite app_nil_r|]. split; [lia|].
    intros [[Hn _]|Hs]; [lia|done].
  - cbn [Agent.for_range].
    destruct (learn_iteration_Ok replay i0 ag l w Hd)
      as (ag1 & l1 & w1 & -> & Hs1 & Ht1 & Htr1 & Hc1 & Ha1).
    cbn [bind].
    pose proof Hs1 as (Hcfg & _).
    destruct (IH (i0 + 1)%Z ag1 l1 w1) as (ag2 & l2 & w2 & Hl & Hs2 & Ht2 & Htr2 & Hc2 & Ha2);
      [by rewrite Hcfg|].
    exists ag2, l2, w2. split; [done|].
    split; [by eapply same_structure_trans|]. split; [congruence|].
    rewrite Hcfg in Htr2, Ha2.
    split; [|split].
    + by rewrite Htr2, Htr1, learn_events_S, app_assoc.
    + intros _. destruct n as [|n]; [|apply Hc2; lia].
      cbn [Agent.for_range] in Hl. by injection Hl as <- <- <-.
    + intros Hor. apply Ha2. right. apply Ha1.
      destruct Hor as [[_ Hz]|Hs]; [by left|by right].
Qed.


(** [learn] returns whenever it runs at least one iteration, the policy delay
    is not zero and [T] is an int64. *)
Lemma learn_Ok `{Backend} (describe : list R → string) (ag : Agent.t)
  (replay : Replay) (T : Z) (w : World) :
  (1 ≤ T ≤ int64_max)%Z → agent_policy_delay (Agent.config ag) ≠ 0%Z →
  ∃ out ag' w',
    Agent.learn describe ag replay T w = Ok (out, ag', w')
    ∧ same_structure ag ag'
    ∧ Agent.total_timestep ag' = wrap64 (Agent.total_timestep ag + T)
    ∧ trace w'
      = trace w
        ++ learn_events (agent_policy_delay (Agent.config ag)) 0 (Z.to_nat T).
Proof.
  intros HT Hd. unfold Agent.learn.
  destruct (learn_loop_Ok replay (Z.to_nat T) 0 ag
              {| Agent.list_actor_loss := []; Agent.list_critic_loss := [];
                 Agent.Q1_vals := []; Agent.Q2_vals := [];
                 Agent.actor_grad_norm := None;
                 Agent.critic_grad_norm := None |} w Hd)
    as (ag1 & l1 & w1 & -> & Hs & Ht & Htr & Hc & Ha).
  cbn [bind]. unfold iadd64.
  rewrite bool_decide_eq_true_2 by (unfold int64_min, int64_max in *; lia).
  cbn [bind].
  destruct Hc as [cgn Hcgn]; [lia|].
  destruct Ha as [agn Hagn]; [left; split; [lia|by rewrite Z.mod_0_l]|].
  rewrite Hagn, Hcgn. cbn [Agent.local bind].
  eexists _, _, _. split; [reflexivity|].
  split; [|split; [|done]].
  - destruct Hs as (?&?&?&?&?&?&?&?&?). by repeat split.
  - cbn. by rewrite Ht.
Qed.


(** ** The schedule of the updates *)




(** ** Frame: the target parameters *)

Lemma agent_wf_targets_not_online `{Backend} (ag : Agent.t) (l : nat) :
  agent_wf ag → l ∈ target_parameters ag →
  (l ∉ Optimizer.param_groups (Agent.actor_optimizer ag))
  ∧ (l ∉ Optimizer.param_groups (Agent.critic_optimizer ag)).
Proof.
  intros Hwf Hl.
  pose proof (agent_wf_separate ag Hwf)
    as (_ & _ & Haa & Hac & Hca & Hcc & _).
  destruct Hwf as (_ & _ & _ & -> & -> & _). cbv zeta in *.
  unfold target_parameters in Hl. apply elem_of_app in Hl as [Hl|Hl].
  - split; intros Hin; [by apply (Haa l)|by apply (Hca l)].
  - split; intros Hin; [by apply (Hac l)|by apply (Hcc l)].
Qed.

Lemma update_critic_targets `{Backend} (ag ag' : Agent.t) (replay : Replay)
  (w w' : World) (s : Samples) (r : R * R * list R * list R) :
  agent_wf ag →
  Agent.update_critic ag replay w = (ag', s, r, w') →
  read (heap w') (target_parameters ag) = read (heap w) (target_parameters ag).
Proof.
  intros Hwf Hu. apply update_critic_frame in Hu as (_ & _ & Hf & _).
  apply read_frame. intros l Hl. apply Hf.
  by apply agent_wf_targets_not_online.
Qed.

Lemma update_actor_targets `{Backend} (ag ag' : Agent.t) (s : Samples)
  (w w' : World) (r : R * R) :
  agent_wf ag →
  Agent.update_actor ag s w = (ag', r, w') →
  read (heap w') (target_parameters ag) = read (heap w) (target_parameters ag).
Proof.
  intros Hwf Hu. apply update_actor_frame in Hu as (_ & _ & Hf & _).
  apply read_frame. intros l Hl. apply Hf.
  by apply agent_wf_targets_not_online.
Qed.

Lemma polyak_update_target_structure `{Backend} (ag ag' : Agent.t) (w : World) :
  same_structure ag ag' →
  Agent.polyak_update_target ag' w = Agent.polyak_update_target ag w.
Proof.
  intros (Hc & _ & Ha & Ha' & Hcr & Hcr' & _).
  unfold Agent.polyak_update_target. by rewrite Hc, Ha, Ha', Hcr, Hcr'.
Qed.

(** Within one iteration the target parameters are as at its start until
    [polyak_update_target] runs, which it does in the delayed branch only. *)
Lemma learn_iteration_targets `{Backend} (replay : Replay) (i : Z)
  (ag ag' : Agent.t) (l l' : Agent.Locals) (w w' : World) :
  agent_wf ag →
  Agent.learn_iteration replay i (ag, l, w) = Ok (ag', l', w') →
  let d := agent_policy_delay (Agent.config ag) in
  ((i mod d)%Z ≠ 0%Z →
   read (heap w') (target_parameters ag) = read (heap w) (target_parameters ag))
  ∧ ((i mod d)%Z = 0%Z →
     ∃ w2, read (heap w2) (target_parameters ag)
           = read (heap w) (target_parameters ag)
           ∧ heap w' = heap (Agent.polyak_update_target ag w2)).
Proof.
  intros Hwf Hi d.
  pose proof (learn_iteration_inv _ _ _ _ _ _ _ _ Hi) as Hd.
  unfold Agent.learn_iteration in Hi.
  destruct (Agent.update_critic ag replay w)
    as [[[ag1 s] [[[cl cgn] Qs1] Qs2]] w1] eqn:Hc.
  pose proof (update_critic_targets _ _ _ _ _ _ _ Hwf Hc) as Hr1.
  apply update_critic_frame in Hc as (Hs1 & _).
  pose proof Hs1 as (Hcfg & _). rewrite Hcfg in Hi.
  rewrite divides_index_Ok in Hi by done. cbn [bind] in Hi. fold d in Hi.
  destruct (i mod d =? 0)%Z eqn:Hmod.
  - apply Z.eqb_eq in Hmod.
    destruct (Agent.update_actor ag1 s w1) as [[ag2 [al agn]] w2] eqn:Ha.
    injection Hi as <- <- <-. split; [done|]. intros _. exists w2. split.
    + pose proof (same_structure_targets _ _ Hs1) as [Ht _].
      rewrite <- Hr1, <- Ht.
      eapply update_actor_targets; [|exact Ha].
      by eapply same_structure_wf.
    + apply update_actor_frame in Ha as (Hs2 & _).
      cbn [log heap].
      by rewrite (polyak_update_target_structure ag ag2)
        by (by eapply same_structure_trans).
  - apply Z.eqb_neq in Hmod. injection Hi as <- <- <-. split; [done|].
    intros Hz. done.
Qed.

(** C6: the optimizers [Agent.__init__] builds are over the parameters of the
    online actor and of the online critic, none of which is a parameter of
    a target network; so at any later time neither optimizer step of
    [learn] changes a target parameter, and an iteration changes the
    target parameters through [polyak_update_target] only. *)
Theorem targets_updated_only_by_polyak `{Backend} (cfg : Config) (env : Env)
  (w0 w1 : World) (ag0 ag : Agent.t) :
  Agent.init cfg env w0 = Ok (ag0, w1) →
  same_structure ag0 ag →
  (Optimizer.param_groups (Agent.actor_optimizer ag)
   = Actor.parameters (Agent.actor ag)
   ∧ Optimizer.param_groups (Agent.critic_optimizer ag)
     = Critic.parameters (Agent.critic ag)
   ∧ ∀ l, l ∈ target_parameters ag →
          (l ∉ Optimizer.param_groups (Agent.actor_optimizer ag))
          ∧ (l ∉ Optimizer.param_groups (Agent.critic_optimizer ag)))
  ∧ (∀ replay w ag' s r w',
       Agent.update_critic ag replay w = (ag', s, r, w') →
       read (heap w') (target_parameters ag)
       = read (heap w) (target_parameters ag))
  ∧ (∀ s w ag' r w',
       Agent.update_actor ag s w = (ag', r, w') →
       read (heap w') (target_parameters ag)
       = read (heap w) (target_parameters ag))
  ∧ (∀ replay i l w ag' l' w',
       Agent.learn_iteration replay i (ag, l, w) = Ok (ag', l', w') →
       let d := agent_policy_delay (Agent.config ag) in
       ((i mod d)%Z ≠ 0%Z →
        read (heap w') (target_parameters ag)
        = read (heap w) (target_parameters ag))
       ∧ ((i mod d)%Z = 0%Z →
          ∃ w2, read (heap w2) (target_parameters ag)
                = read (heap w) (target_parameters ag)
                ∧ heap w' = heap (Agent.polyak_update_target ag w2))).
Proof.
  intros Hi Hs. apply Agent_init_Ok in Hi as (Hwf0 & _).
  pose proof (same_structure_wf _ _ Hs Hwf0) as Hwf.
  split; [|split; [|split]].
  - pose proof Hwf as (_ & _ & _ & Hoa & Hoc & _).
    split; [done|]. split; [done|].
    intros l Hl. by apply agent_wf_targets_not_online.
  - intros replay w ag' s r w' Hu. by eapply update_critic_targets.
  - intros s w ag' r w' Hu. by eapply update_actor_targets.
  - intros replay i l w ag' l' w' Hit. by eapply learn_iteration_targets.
Qed.

(** ** The regression targets *)









(** ** The episode runner *)

Section Runner.
Context {A E Obs : Type} `{!BaseAgent A Obs, !VecEnv E Obs}.

Abbreviation state := (EpisodeRunner.t A E * Obs * BatchEpisode.t Obs)%type.

Lemma mark_completed_actions (n0 : nat) (done : list bool)
  (D D' : BatchEpisode.t Obs) :
  EpisodeRunner.mark_completed n0 done D = Ok D' →
  BatchEpisode.actions D' = BatchEpisode.actions D.
Proof.
  revert n0 D. induction done as [|d done IH]; intros n0 D; simpl.
  - by intros [= <-].
  - intros Hm. apply bind_Ok in Hm as (D1 & H1 & Hm).
    rewrite (IH _ _ Hm). destruct d; [|by injection H1 as <-].
    unfold BatchEpisode.set_completed in H1.
    case_bool_decide; [|done]. by injection H1 as <-.
Qed.

(** What one execution of the loop body does with the agent's answer: the
    action is the value under ['action'], it is recorded and it is what the
    environment is stepped with. *)
Lemma step_Ok (self self' : EpisodeRunner.t A E) (obs obs' : Obs)
  (D D' : BatchEpisode.t Obs) :
  EpisodeRunner.step (self, obs, D) = Ok (self', obs', D') →
  ∃ out agent' action raw_action reward done info env',
    agent_choose_action (EpisodeRunner.agent self) obs
      {[ "info" := PyDict [] ]} = Ok (out, agent')
    ∧ out !! "action" = Some action
    ∧ raw_action = match action with PyTensor rows => PyList rows | _ => action end
    ∧ env_step (EpisodeRunner.env self) raw_action
      = Ok (obs', reward, done, info, env')
    ∧ BatchEpisode.actions D' = BatchEpisode.actions D ++ [raw_action]
    ∧ EpisodeRunner.agent self' = agent' ∧ EpisodeRunner.env self' = env'.
Proof.
  unfold EpisodeRunner.step. intros Hs.
  apply bind_Ok in Hs as ([out agent'] & Hc & Hs).
  apply bind_Ok in Hs as ([action out'] & Hp & Hs).
  apply bind_Ok in Hs as ([[[[obs1 reward] done] info] env'] & He & Hs).
  apply bind_Ok in Hs as (D1 & Hm & Hs).
  injection Hs as <- <- <-.
  unfold pop in Hp. destruct (out !! "action") as [v|] eqn:Hv; [|done].
  injection Hp as <- <-.
  eexists out, agent', v, _, reward, done, info, env'.
  split; [done|]. split; [done|]. split; [reflexivity|]. split; [done|].
  split; [|done].
  cbn [BatchEpisode.add_batch_info BatchEpisode.actions].
  by rewrite (mark_completed_actions _ _ _ _ Hm).
Qed.

Lemma step_T (st st' : state) :
  EpisodeRunner.step st = Ok st' →
  BatchEpisode.T st'.2 = S (BatchEpisode.T st.2).
Proof.
  destruct st as [[self obs] D], st' as [[self' obs'] D']. intros Hs.
  apply step_Ok in Hs as (?&?&?&?&?&?&?&?&_&_&_&_&Ha&_).
  unfold BatchEpisode.T. cbn [snd]. rewrite Ha, length_app. simpl. lia.
Qed.

Lemma steps_T (k : nat) (st st' : state) :
  EpisodeRunner.steps k st = Ok st' →
  BatchEpisode.T st'.2 = (BatchEpisode.T st.2 + k)%nat.
Proof.
  revert st. induction k as [|k IH]; intros st; simpl.
  - intros [= <-]. lia.
  - intros Hs. apply bind_Ok in Hs as (st1 & H1 & Hs).
    rewrite (IH _ Hs), (step_T _ _ H1). lia.
Qed.

(** The loop runs the body until the budget is used up or, if that comes
    first, until every instance is marked completed after a step. *)
Lemma loop_Ok (n : nat) (st st' : state) :
  EpisodeRunner.loop n st = Ok st' →
  ∃ k, (k ≤ n)%nat ∧ ((0 < n)%nat → (0 < k)%nat)
       ∧ EpisodeRunner.steps k st = Ok st'
       ∧ ((k < n)%nat →
          EpisodeRunner.all (BatchEpisode.completes st'.2) = true)
       ∧ ∀ j stj, (0 < j < k)%nat → EpisodeRunner.steps j st = Ok stj →
                  EpisodeRunner.all (BatchEpisode.completes stj.2) = false.
Proof.
  revert st. induction n as [|n IH]; intros st; simpl.
  - intros [= <-]. exists 0%nat. repeat split; try done; lia.
  - intros Hl. apply bind_Ok in Hl as (st1 & H1 & Hl).
    destruct (EpisodeRunner.all (BatchEpisode.completes st1.2)) eqn:Hall.
    + injection Hl as <-. exists 1%nat. simpl. rewrite H1. simpl.
      repeat split; try done; lia.
    + apply IH in Hl as (k & Hk & Hpos & Hs & Hstop & Hearly).
      exists (S k). simpl. rewrite H1. simpl.
      split; [lia|]. split; [lia|]. split; [done|]. split.
      * intros Hlt. apply Hstop. lia.
      * intros j stj Hj Hsj. destruct j as [|j]; [lia|].
        simpl in Hsj. rewrite H1 in Hsj. simpl in Hsj.
        destruct j as [|j].
        -- simpl in Hsj. by injection Hsj as <-.
        -- apply (Hearly (S j)); [lia|done].
Qed.

Lemma loop_stops (n k : nat) (st st' : state) :
  (0 < k ≤ n)%nat →
  EpisodeRunner.steps k st = Ok st' →
  ((k < n)%nat → EpisodeRunner.all (BatchEpisode.completes st'.2) = true) →
  (∀ j stj, (0 < j < k)%nat → EpisodeRunner.steps j st = Ok stj →
            EpisodeRunner.all (BatchEpisode.completes stj.2) = false) →
  EpisodeRunner.loop n st = Ok st'.
Proof.
  revert k st. induction n as [|n IH]; intros k st Hk Hs Hstop Hearly; [lia|].
  destruct k as [|k]; [lia|]. simpl in Hs |- *.
  apply bind_Ok in Hs as (st1 & H1 & Hs). rewrite H1. simpl.
  destruct k as [|k].
  - simpl in Hs. injection Hs as <-.
    destruct n as [|n]; [by destruct (EpisodeRunner.all _)|].
    by rewrite Hstop by lia.
  - rewrite (Hearly 1%nat st1); [|lia|by simpl; rewrite H1].
    apply (IH (S k)); [lia|done| |].
    + intros Hlt. apply Hstop. lia.
    + intros j stj Hj Hsj. apply (Hearly (S j)); [lia|].
      simpl. by rewrite H1.
Qed.

Lemma mark_completed_dones (n0 : nat) (done : list bool)
  (D D' : BatchEpisode.t Obs) :
  EpisodeRunner.mark_completed n0 done D = Ok D' →
  BatchEpisode.dones D' = BatchEpisode.dones D.
Proof.
  revert n0 D. induction done as [|d done IH]; intros n0 D; simpl.
  - by intros [= <-].
  - intros Hm. apply bind_Ok in Hm as (D1 & H1 & Hm).
    rewrite (IH _ _ Hm). destruct d; [|by injection H1 as <-].
    unfold BatchEpisode.set_completed in H1.
    case_bool_decide; [|done]. by injection H1 as <-.
Qed.

(** Marking is cumulative: instance [n] is completed afterwards exactly when
    it was before or its done flag is set. *)
Lemma mark_completed_completes (n0 : nat) (done : list bool)
  (D D' : BatchEpisode.t Obs) :
  EpisodeRunner.mark_completed n0 done D = Ok D' →
  ∀ n, BatchEpisode.completes D' !! n
       = (λ b : bool,
            b || (bool_decide (n0 ≤ n)%nat
                  && default false (done !! (n - n0)%nat)))
         <$> BatchEpisode.completes D !! n.
Proof.
  revert n0 D. induction done as [|d done IH]; intros n0 D; simpl.
  - intros [= <-] n. destruct (BatchEpisode.completes D !! n) as [b|]; [|done].
    simpl. by rewrite andb_false_r, orb_false_r.
  - intros Hm n. apply bind_Ok in Hm as (D1 & H1 & Hm).
    rewrite (IH _ _ Hm n). clear IH Hm.
    assert (Hc : BatchEpisode.completes D1 !! n
                 = (λ b : bool, b || (bool_decide (n = n0) && d))
                   <$> BatchEpisode.completes D !! n).
    { destruct d.
      - unfold BatchEpisode.set_completed in H1.
        case_bool_decide as Hlt; [|done]. injection H1 as <-.
        cbn [BatchEpisode.completes].
        destruct (decide (n = n0)) as [->|Hne].
        + rewrite list_lookup_insert_eq by done.
          destruct (lookup_lt_is_Some_2 _ _ Hlt) as [b ->]. simpl.
          by rewrite bool_decide_eq_true_2, orb_true_r.
        + rewrite list_lookup_insert_ne by done.
          destruct (_ !! n) as [b|]; [|done]. simpl.
          by rewrite bool_decide_eq_false_2, orb_false_r.
      - injection H1 as <-. destruct (_ !! n) as [b|]; [|done]. simpl.
        by rewrite andb_false_r, orb_false_r. }
    rewrite Hc. destruct (BatchEpisode.completes D !! n) as [b|]; [|done].
    simpl. f_equal.
    destruct (decide (n = n0)) as [->|Hne].
    + rewrite bool_decide_eq_true_2 by done.
      rewrite (bool_decide_eq_false_2 (S n0 ≤ n0)%nat) by lia.
      rewrite (bool_decide_eq_true_2 (n0 ≤ n0)%nat) by lia.
      rewrite Nat.sub_diag. simpl. by rewrite orb_false_r.
    + rewrite (bool_decide_eq_false_2 (n = n0)) by done.
      simpl. rewrite orb_false_r.
      destruct (decide (n0 ≤ n)%nat) as [Hle|Hgt].
      * rewrite (bool_decide_eq_true_2 (S n0 ≤ n)%nat) by lia.
        rewrite (bool_decide_eq_true_2 (n0 ≤ n)%nat) by lia.
        replace (n - n0)%nat with (S (n - S n0)) by lia. done.
      * rewrite (bool_decide_eq_false_2 (S n0 ≤ n)%nat) by lia.
        by rewrite (bool_decide_eq_false_2 (n0 ≤ n)%nat) by lia.
Qed.

(** One execution of the loop body records the done flags and marks the
    instances whose flag is set. *)
Lemma step_completes (st st' : state) :
  EpisodeRunner.step st = Ok st' →
  ∃ done,
    BatchEpisode.dones st'.2 = BatchEpisode.dones st.2 ++ [done]
    ∧ ∀ n, BatchEpisode.completes st'.2 !! n
           = (λ b : bool, b || default false (done !! n))
             <$> BatchEpisode.completes st.2 !! n.
Proof.
  destruct st as [[self obs] D], st' as [[self' obs'] D'].
  unfold EpisodeRunner.step. intros Hs.
  apply bind_Ok in Hs as ([out agent'] & Hc & Hs).
  apply bind_Ok in Hs as ([action out'] & Hp & Hs).
  apply bind_Ok in Hs as ([[[[obs1 reward] done] info] env'] & He & Hs).
  apply bind_Ok in Hs as (D1 & Hm & Hs).
  injection Hs as <- <- <-. exists done. cbn [snd]. split.
  - cbn [BatchEpisode.add_batch_info BatchEpisode.dones].
    by rewrite (mark_completed_dones _ _ _ _ Hm).
  - intros n. cbn [BatchEpisode.add_batch_info BatchEpisode.completes].
    rewrite (mark_completed_completes _ _ _ _ Hm n).
    cbn [BatchEpisode.completes BatchEpisode.add_info BatchEpisode.add_done
         BatchEpisode.add_reward BatchEpisode.add_observation
         BatchEpisode.add_action].
    destruct (BatchEpisode.completes D !! n) as [b|]; [|done]. simpl.
    by rewrite Nat.sub_0_r.
Qed.

Lemma start_Ok (self : EpisodeRunner.t A E) (st0 : state) :
  EpisodeRunner.start self = Ok st0 →
  BatchEpisode.T st0.2 = 0%nat
  ∧ BatchEpisode.dones st0.2 = []
  ∧ BatchEpisode.completes st0.2
    = replicate (num_env (EpisodeRunner.env self)) false.
Proof.
  unfold EpisodeRunner.start. intros Hs.
  apply bind_Ok in Hs as ([obs env'] & _ & Hs).
  apply bind_Ok in Hs as (agent' & _ & Hs).
  by injection Hs as <-.
Qed.

Lemma step_single (st st' : state) (c : bool) :
  EpisodeRunner.step st = Ok st' →
  BatchEpisode.completes st.2 = [c] →
  ∃ done,
    BatchEpisode.dones st'.2 = BatchEpisode.dones st.2 ++ [done]
    ∧ BatchEpisode.completes st'.2 = [c || default false (done !! 0%nat)].
Proof.
  intros Hs Hc. apply step_completes in Hs as (done & Hd & Hl).
  exists done. split; [done|]. apply list_eq. intros n.
  rewrite Hl, Hc. by destruct n as [|[|n]].
Qed.

(** C5: the rollout takes at most [T] steps; it takes fewer only when every
    instance is marked completed after its last step, and it does not stop
    before [T] steps while some instance is not completed.  With [T = 5] and
    one instance whose done flag is first set at step 3, the trajectory
    returned has length 3. *)
Theorem episode_runner_stops (self : EpisodeRunner.t A E) (T : Z) (st0 : state) :
  EpisodeRunner.start self = Ok st0 →
  (∀ D self', EpisodeRunner.call self T = Ok (D, self') →
     let k := BatchEpisode.T D in
     (k ≤ Z.to_nat T)%nat ∧ ((0 < T)%Z → (0 < k)%nat)
     ∧ ((k < Z.to_nat T)%nat →
        EpisodeRunner.all (BatchEpisode.completes D) = true)
     ∧ ∀ j stj, (0 < j < k)%nat → EpisodeRunner.steps j st0 = Ok stj →
                EpisodeRunner.all (BatchEpisode.completes stj.2) = false)
  ∧ (∀ k st',
       (0 < k ≤ Z.to_nat T)%nat → EpisodeRunner.steps k st0 = Ok st' →
       ((k < Z.to_nat T)%nat →
        EpisodeRunner.all (BatchEpisode.completes st'.2) = true) →
       (∀ j stj, (0 < j < k)%nat → EpisodeRunner.steps j st0 = Ok stj →
                 EpisodeRunner.all (BatchEpisode.completes stj.2) = false) →
       EpisodeRunner.call self T = Ok (st'.2, st'.1.1)
       ∧ BatchEpisode.T st'.2 = k)
  ∧ (T = 5%Z → num_env (EpisodeRunner.env self) = 1%nat →
     ∀ st3, EpisodeRunner.steps 3 st0 = Ok st3 →
            BatchEpisode.dones st3.2 = [[false]; [false]; [true]] →
            EpisodeRunner.call self T = Ok (st3.2, st3.1.1)
            ∧ BatchEpisode.T st3.2 = 3%nat).
Proof.
  intros Hstart. pose proof (start_Ok _ _ Hstart) as (HT0 & Hd0 & Hc0).
  assert (Hstops : ∀ k st',
    (0 < k ≤ Z.to_nat T)%nat → EpisodeRunner.steps k st0 = Ok st' →
    ((k < Z.to_nat T)%nat →
     EpisodeRunner.all (BatchEpisode.completes st'.2) = true) →
    (∀ j stj, (0 < j < k)%nat → EpisodeRunner.steps j st0 = Ok stj →
              EpisodeRunner.all (BatchEpisode.completes stj.2) = false) →
    EpisodeRunner.call self T = Ok (st'.2, st'.1.1)
    ∧ BatchEpisode.T st'.2 = k).
  { intros k st' Hk Hs Hstop Hearly. split.
    - unfold EpisodeRunner.call. rewrite Hstart. cbn [bind].
      rewrite (loop_stops _ k st0 st') by done.
      by destruct st' as [[self' obs'] D'].
    - rewrite (steps_T _ _ _ Hs), HT0. lia. }
  split; [|split; [exact Hstops|]].
  - intros D self' Hcall k. unfold EpisodeRunner.call in Hcall.
    rewrite Hstart in Hcall. cbn [bind] in Hcall.
    apply bind_Ok in Hcall as ([[self1 obs1] D1] & Hloop & Hcall).
    injection Hcall as <- <-.
    apply loop_Ok in Hloop as (k' & Hk & Hpos & Hs & Hstop & Hearly).
    assert (k = k') as ->.
    { unfold k. change D1 with ((self1, obs1, D1).2).
      rewrite (steps_T _ _ _ Hs), HT0. lia. }
    split; [done|]. split; [intros; apply Hpos; lia|]. split; done.
  - intros -> HN st3 Hs3 Hdones.
    rewrite HN in Hc0. cbn [replicate] in Hc0.
    cbn [EpisodeRunner.steps] in Hs3.
    apply bind_Ok in Hs3 as (st1 & H1 & Hs3).
    apply bind_Ok in Hs3 as (st2 & H2 & Hs3).
    apply bind_Ok in Hs3 as (st3' & H3 & Hs3). injection Hs3 as ->.
    destruct (step_single _ _ _ H1 Hc0) as (d1 & Hd1 & Hc1).
    destruct (step_single _ _ _ H2 Hc1) as (d2 & Hd2 & Hc2).
    destruct (step_single _ _ _ H3 Hc2) as (d3 & Hd3 & Hc3).
    rewrite Hd3, Hd2, Hd1, Hd0 in Hdones. injection Hdones as -> -> ->.
    cbn in Hc1, Hc2, Hc3.
    apply Hstops.
    + change (Z.to_nat 5) with 5%nat. lia.
    + cbn [EpisodeRunner.steps]. rewrite H1. cbn [bind]. rewrite H2.
      cbn [bind]. by rewrite H3.
    + intros _. by rewrite Hc3.
    + intros j stj Hj Hsj. destruct j as [|[|[|j]]]; [lia| | |lia].
      * cbn [EpisodeRunner.steps] in Hsj. rewrite H1 in Hsj.
        injection Hsj as <-. by rewrite Hc1.
      * cbn [EpisodeRunner.steps] in Hsj. rewrite H1 in Hsj. cbn [bind] in Hsj.
        rewrite H2 in Hsj. injection Hsj as <-. by rewrite Hc2.
Qed.

End Runner.

(** ** Shapes are invariant under training *)

Lemma shapes_kept_refl (h : gmap nat tensor) : shapes_kept h h.
Proof. by intros l. Qed.

Lemma shapes_kept_trans (h1 h2 h3 : gmap nat tensor) :
  shapes_kept h1 h2 → shapes_kept h2 h3 → shapes_kept h1 h3.
Proof. intros H12 H23 l. by rewrite H23. Qed.

Lemma shapes_kept_same_shapes (h h' : gmap nat tensor) (srcs dsts : list nat) :
  shapes_kept h h' → same_shapes h srcs dsts → same_shapes h' srcs dsts.
Proof.
  intros Hk Hs. unfold same_shapes in *.
  eapply Forall2_impl; [exact Hs|]. intros s d Hlen. simpl in *.
  by rewrite !Hk.
Qed.

Lemma write_lookup (ps : list nat) (vs : list tensor) (h : gmap nat tensor)
  (k l : nat) (v : tensor) :
  NoDup ps → ps !! k = Some l → vs !! k = Some v → write ps vs h !!! l = v.
Proof.
  unfold write. revert vs h k.
  induction ps as [|p ps IH]; intros vs h k Hnd Hp Hv; [done|].
  destruct vs as [|v0 vs]; [done|].
  apply NoDup_cons in Hnd as [Hp0 Hnd]. simpl.
  destruct k as [|k]; simpl in Hp, Hv.
  - injection Hp as ->. injection Hv as ->.
    rewrite (lookup_total_eq (<[l := v]> h)).
    + apply lookup_total_insert_eq.
    + by apply (write_frame ps vs).
  - by apply (IH vs _ k).
Qed.

Lemma write_shapes (ps : list nat) (vs : list tensor) (h : gmap nat tensor) :
  NoDup ps →
  Forall2 (λ v v' : tensor, length v' = length v) (read h ps) vs →
  shapes_kept h (write ps vs h).
Proof.
  intros Hnd Hsh l.
  destruct (decide (l ∈ ps)) as [Hin|Hout].
  - apply list_elem_of_lookup in Hin as [k Hk].
    pose proof (read_lookup h ps k l Hk) as Hr.
    destruct (Forall2_lookup_l _ _ _ _ _ Hsh Hr) as (v' & Hv' & Hlen).
    by rewrite (write_lookup ps vs h k l v').
  - by rewrite (lookup_total_eq h) by (by apply write_frame).
Qed.

Lemma Optimizer_step_shapes `{Backend} (o o' : Optimizer.t)
  (grads : list tensor) (w w' : World) :
  NoDup (Optimizer.param_groups o) →
  Optimizer.step o grads w = (o', w') →
  shapes_kept (heap w) (heap w').
Proof.
  intros Hnd. unfold Optimizer.step.
  pose proof (Adam_update_shapes (Optimizer.state o)
                (read (heap w) (Optimizer.param_groups o)) grads) as Hsh.
  destruct (Adam_update _ _ _) as [vs st]. intros [= <- <-].
  cbn [set_heap heap]. by apply write_shapes.
Qed.

Lemma polyak_length (p : R) (t s : tensor) :
  length t = length s → length (Agent.polyak p t s) = length t.
Proof.
  intros Hlen. rewrite polyak_elementwise, length_zip_with. lia.
Qed.

Lemma polyak_update_target_shapes `{Backend} (ag : Agent.t) (w : World) :
  agent_wf ag →
  same_shapes (heap w) (online_parameters ag) (target_parameters ag) →
  shapes_kept (heap w) (heap (Agent.polyak_update_target ag w)).
Proof.
  intros Hwf Hsh l.
  destruct (polyak_update_target_read ag w Hwf) as (Hr & _ & Hf & _).
  cbv zeta in Hr, Hf.
  remember (Agent.polyak_update_target ag w) as w' eqn:Hw'. clear Hw'.
  destruct (decide (l ∈ target_parameters ag)) as [Hin|Hout].
  - apply list_elem_of_lookup in Hin as [k Hk].
    destruct (Forall2_lookup_r _ _ _ _ _ Hsh Hk) as (s & Hs & Hlen).
    assert (Hl : read (heap w') (target_parameters ag) !! k
                 = Some (heap w' !!! l))
      by (by apply read_lookup).
    rewrite Hr, lookup_zip_with in Hl.
    rewrite (read_lookup _ _ _ _ Hk), (read_lookup _ _ _ _ Hs) in Hl.
    simpl in Hl. injection Hl as Hl. rewrite <- Hl.
    by apply polyak_length.
  - by rewrite (lookup_total_eq (heap w)) by (by apply Hf).
Qed.

Lemma agent_wf_NoDup_optimizers `{Backend} (ag : Agent.t) :
  agent_wf ag →
  NoDup (Optimizer.param_groups (Agent.actor_optimizer ag))
  ∧ NoDup (Optimizer.param_groups (Agent.critic_optimizer ag)).
Proof.
  intros (Hnd & _ & _ & -> & -> & _).
  apply NoDup_app in Hnd as (Ha & _ & Hnd).
  apply NoDup_app in Hnd as (_ & _ & Hnd).
  by apply NoDup_app in Hnd as (Hc & _ & _).
Qed.

Lemma update_critic_shapes `{Backend} (ag ag' : Agent.t) (replay : Replay)
  (w w' : World) (s : Samples) (r : R * R * list R * list R) :
  agent_wf ag →
  Agent.update_critic ag replay w = (ag', s, r, w') →
  shapes_kept (heap w) (heap w').
Proof.
  intros Hwf. unfold Agent.update_critic.
  destruct (replay_sample _ _ (rng w)) as [s0 g].
  pose proof (targets_of_world ag s0 (set_rng g w)) as (Hh & _).
  destruct (Agent.targets_of ag s0 (set_rng g w)) as [targets w1].
  cbn [snd set_rng heap] in Hh. cbn [Critic.forward].
  destruct (clip_grad_norm_ _ _) as [grads cgn].
  destruct (Optimizer.step _ grads w1) as [o w2] eqn:Hstep.
  apply Optimizer_step_shapes in Hstep;
    [|by apply agent_wf_NoDup_optimizers].
  intros [= <- <- <- <-]. cbn [log heap]. by rewrite <- Hh.
Qed.

Lemma update_actor_shapes `{Backend} (ag ag' : Agent.t) (s : Samples)
  (w w' : World) (r : R * R) :
  agent_wf ag →
  Agent.update_actor ag s w = (ag', r, w') →
  shapes_kept (heap w) (heap w').
Proof.
  intros Hwf. unfold Agent.update_actor.
  destruct (clip_grad_norm_ _ _) as [grads agn].
  destruct (Optimizer.step _ grads w) as [o w2] eqn:Hstep.
  apply Optimizer_step_shapes in Hstep;
    [|by apply agent_wf_NoDup_optimizers].
  by intros [= <- <- <-].
Qed.

Lemma learn_iteration_shapes `{Backend} (replay : Replay) (i : Z)
  (ag ag' : Agent.t) (l l' : Agent.Locals) (w w' : World) :
  agent_wf ag →
  same_shapes (heap w) (online_parameters ag) (target_parameters ag) →
  Agent.learn_iteration replay i (ag, l, w) = Ok (ag', l', w') →
  shapes_kept (heap w) (heap w').
Proof.
  intros Hwf Hsh Hi. unfold Agent.learn_iteration in Hi.
  destruct (Agent.update_critic ag replay w)
    as [[[ag1 s] [[[cl cgn] Qs1] Qs2]] w1] eqn:Hc.
  pose proof (update_critic_shapes _ _ _ _ _ _ _ Hwf Hc) as Hk1.
  apply update_critic_frame in Hc as (Hs1 & _).
  apply bind_Ok in Hi as (delayed & _ & Hi). destruct delayed.
  - destruct (Agent.update_actor ag1 s w1) as [[ag2 [al agn]] w2] eqn:Ha.
    pose proof (same_structure_wf _ _ Hs1 Hwf) as Hwf1.
    pose proof (update_actor_shapes _ _ _ _ _ _ Hwf1 Ha) as Hk2.
    apply update_actor_frame in Ha as (Hs2 & _).
    injection Hi as <- <- <-. cbn [log heap].
    pose proof (same_structure_trans _ _ _ Hs1 Hs2) as Hs12.
    rewrite (polyak_update_target_structure ag ag2 w2 Hs12).
    eapply shapes_kept_trans; [exact Hk1|].
    eapply shapes_kept_trans; [exact Hk2|].
    apply polyak_update_target_shapes; [done|].
    eapply shapes_kept_same_shapes; [|exact Hsh].
    by eapply shapes_kept_trans.
  - by injection Hi as <- <- <-.
Qed.

Lemma learn_loop_shapes `{Backend} (replay : Replay) (n : nat) (i0 : Z)
  (ag ag' : Agent.t) (l l' : Agent.Locals) (w w' : World) :
  agent_wf ag →
  same_shapes (heap w) (online_parameters ag) (target_parameters ag) →
  Agent.for_range n i0 (Agent.learn_iteration replay) (ag, l, w)
  = Ok (ag', l', w') →
  shapes_kept (heap w) (heap w').
Proof.
  revert i0 ag l w. induction n as [|n IH]; intros i0 ag l w Hwf Hsh.
  - intros [= <- <- <-]. apply shapes_kept_refl.
  - cbn [Agent.for_range]. intros Hl.
    apply bind_Ok in Hl as ([[ag1 l1] w1] & Hi & Hl).
    pose proof (learn_iteration_shapes _ _ _ _ _ _ _ _ Hwf Hsh Hi) as Hk1.
    destruct (learn_iteration_Ok replay i0 ag l w
                (learn_iteration_inv _ _ _ _ _ _ _ _ Hi))
      as (ag1' & l1' & w1' & Hi' & Hs1 & _).
    rewrite Hi in Hi'. injection Hi' as <- <- <-.
    destruct (same_structure_targets _ _ Hs1) as [Ht Ho].
    eapply shapes_kept_trans; [exact Hk1|].
    apply (IH _ _ _ _ (same_structure_wf _ _ Hs1 Hwf)) in Hl; [done|].
    rewrite Ht, Ho. by eapply shapes_kept_same_shapes.
Qed.

(** [learn] keeps what [polyak_update_target] relies on: the structure of
    the agent and the agreement of the shapes of online and target
    parameters. *)
Lemma learn_keeps_invariants `{Backend} (describe : list R → string)
  (ag ag' : Agent.t) (replay : Replay) (T : Z) (w w' : World) (out : Agent.Out) :
  agent_wf ag →
  same_shapes (heap w) (online_parameters ag) (target_parameters ag) →
  Agent.learn describe ag replay T w = Ok (out, ag', w') →
  agent_wf ag'
  ∧ same_shapes (heap w') (online_parameters ag') (target_parameters ag').
Proof.
  intros Hwf Hsh Hl. unfold Agent.learn in Hl.
  apply bind_Ok in Hl as ([[ag1 l1] w1] & Hloop & Hl).
  apply bind_Ok in Hl as (n & _ & Hl).
  apply bind_Ok in Hl as (agn & _ & Hl).
  apply bind_Ok in Hl as (cgn & _ & Hl).
  injection Hl as _ <- <-.
  pose proof (learn_loop_shapes _ _ _ _ _ _ _ _ _ Hwf Hsh Hloop) as Hk.
  assert (Hs : same_structure ag ag1).
  { destruct (Z.to_nat T) as [|m] eqn:Hm.
    - injection Hloop as <- <- <-. apply same_structure_refl.
    - destruct (learn_loop_Ok replay (S m) 0 ag
                  {| Agent.list_actor_loss := []; Agent.list_critic_loss := [];
                     Agent.Q1_vals := []; Agent.Q2_vals := [];
                     Agent.actor_grad_norm := None;
                     Agent.critic_grad_norm := None |} w)
        as (ag2 & l2 & w2 & Hl2 & Hs2 & _).
      + cbn [Agent.for_range] in Hloop.
        apply bind_Ok in Hloop as ([[a b] c] & Hi & _).
        by apply learn_iteration_inv in Hi.
      + rewrite Hloop in Hl2. by injection Hl2 as <- <- <-. }
  assert (Hs' : same_structure ag (Agent.set_total_timestep n ag1)).
  { destruct Hs as (?&?&?&?&?&?&?&?&?). by repeat split. }
  split; [by eapply same_structure_wf|].
  destruct (same_structure_targets _ _ Hs') as [-> ->].
  by eapply shapes_kept_same_shapes.
Qed.

(** ** The properties on the test doubles *)

Lemma demo_env_symmetric : symmetric_uniform (action_space demo_env) 2.
Proof.
  unfold symmetric_uniform, demo_env. cbn [action_space low high].
  repeat split; try done; repeat constructor; lra.
Qed.

Lemma demo_agent_exists :
  ∃ ag w, Agent.init demo_config demo_env demo_world = Ok (ag, w)
          ∧ Agent.max_action ag = 2.
Proof. apply Agent_init_total, demo_env_symmetric. Qed.

Lemma Agent_init_same_shapes `{Backend} (cfg : Config) (env : Env)
  (w w' : World) (ag : Agent.t) :
  Agent.init cfg env w = Ok (ag, w') →
  same_shapes (heap w') (online_parameters ag) (target_parameters ag).
Proof.
  intros Hi. apply Agent_init_Ok in Hi as (Hwf & _ & _ & _ & Ha & Hc & _).
  destruct Hwf as (_ & Hla & Hlc & _).
  unfold same_shapes, online_parameters, target_parameters.
  apply Forall2_same_length_lookup. split; [by rewrite !length_app, Hla, Hlc|].
  intros k s d Hs Hd.
  assert (Hr : read (heap w') (Actor.parameters (Agent.actor_target ag)
                               ++ Critic.parameters (Agent.critic_target ag))
               = read (heap w') (Actor.parameters (Agent.actor ag)
                                 ++ Critic.parameters (Agent.critic ag)))
    by (by rewrite !read_app, Ha, Hc).
  apply (f_equal (λ l, l !! k)) in Hr.
  rewrite (read_lookup _ _ _ _ Hs), (read_lookup _ _ _ _ Hd) in Hr.
  by injection Hr as ->.
Qed.

Lemma polyak_update_target_convex_witness :
  ∃ ag w,
    Agent.init demo_config demo_env demo_world = Ok (ag, w)
    ∧ read (heap (Agent.polyak_update_target ag w)) (target_parameters ag)
      = read (heap w) (target_parameters ag).
Proof.
  destruct demo_agent_exists as (ag & w & Hi & _).
  exists ag, w. split; [exact Hi|].
  pose proof (proj1 (proj2 (Agent_init_Ok _ _ _ _ _ Hi))) as Hc.
  apply (polyak_update_target_convex ag w).
  - exact (proj1 (Agent_init_Ok _ _ _ _ _ Hi)).
  - exact (Agent_init_same_shapes _ _ _ _ _ Hi).
  - rewrite Hc. reflexivity.
Defined.

Lemma episode_runner_stops_witness :
  ∃ D self',
    EpisodeRunner.call (Obs := list R) demo_runner 5 = Ok (D, self')
    ∧ BatchEpisode.T D = 3%nat.
Proof.
  pose (st0 := (demo_runner, [],
                BatchEpisode.add_observation [] (BatchEpisode.init 1))
               : EpisodeRunner.t ConstantAgent CountingEnv * list R
                 * BatchEpisode.t (list R)).
  assert (Hstart : EpisodeRunner.start demo_runner = Ok st0) by reflexivity.
  destruct (episode_runner_stops demo_runner 5 st0 Hstart) as (_ & _ & H3).
  destruct (EpisodeRunner.steps 3 st0) as [st3|e] eqn:Hs;
    [|vm_compute in Hs; discriminate Hs].
  destruct (H3 eq_refl eq_refl st3 eq_refl) as [Hcall HT].
  - vm_compute in Hs. injection Hs as <-. reflexivity.
  - exists st3.2, st3.1.1. split; [exact Hcall | exact HT].
Defined.

Lemma targets_updated_only_by_polyak_witness :
  ∃ ag w,
    Agent.init demo_config demo_env demo_world = Ok (ag, w)
    ∧ Optimizer.param_groups (Agent.actor_optimizer ag)
      = Actor.parameters (Agent.actor ag)
    ∧ Optimizer.param_groups (Agent.critic_optimizer ag)
      = Critic.parameters (Agent.critic ag).
Proof.
  destruct demo_agent_exists as (ag & w & Hi & _).
  exists ag, w. split; [exact Hi|].
  destruct (targets_updated_only_by_polyak demo_config demo_env demo_world w
              ag ag Hi (same_structure_refl ag)) as ((Ha & Hc & _) & _).
  split; [exact Ha | exact Hc].
Defined.


Lemma Actor_init_checks_action_space_witness :
  ∃ a w', Actor.init demo_config demo_env demo_world = Ok (a, w')
          ∧ Actor.max_action a = 2.
Proof.
  apply (proj1 (Actor_init_checks_action_space demo_config demo_env demo_world)).
  apply demo_env_symmetric.
Defined.


(** * Further properties *)

(** ** The episode runner: records, errors, completion marks *)

Section RunnerRecords.
Context {A E Obs : Type} `{!BaseAgent A Obs, !VecEnv E Obs}.

Abbreviation rstate := (EpisodeRunner.t A E * Obs * BatchEpisode.t Obs)%type.

Lemma set_completed_fields (n : nat) (D D' : BatchEpisode.t Obs) :
  BatchEpisode.set_completed n D = Ok D' →
  BatchEpisode.observations D' = BatchEpisode.observations D
  ∧ BatchEpisode.actions D' = BatchEpisode.actions D
  ∧ BatchEpisode.rewards D' = BatchEpisode.rewards D
  ∧ BatchEpisode.dones D' = BatchEpisode.dones D
  ∧ BatchEpisode.infos D' = BatchEpisode.infos D
  ∧ BatchEpisode.batch_infos D' = BatchEpisode.batch_infos D
  ∧ length (BatchEpisode.completes D') = length (BatchEpisode.completes D).
Proof.
  unfold BatchEpisode.set_completed. case_bool_decide; [|done].
  intros [= <-]. cbn. by rewrite length_insert.
Qed.

Lemma mark_completed_fields (n0 : nat) (done : list bool)
  (D D' : BatchEpisode.t Obs) :
  EpisodeRunner.mark_completed n0 done D = Ok D' →
  BatchEpisode.observations D' = BatchEpisode.observations D
  ∧ BatchEpisode.actions D' = BatchEpisode.actions D
  ∧ BatchEpisode.rewards D' = BatchEpisode.rewards D
  ∧ BatchEpisode.dones D' = BatchEpisode.dones D
  ∧ BatchEpisode.infos D' = BatchEpisode.infos D
  ∧ BatchEpisode.batch_infos D' = BatchEpisode.batch_infos D
  ∧ length (BatchEpisode.completes D') = length (BatchEpisode.completes D).
Proof.
  revert n0 D. induction done as [|d done IH]; intros n0 D; simpl.
  - by intros [= <-].
  - intros Hm. apply bind_Ok in Hm as (D1 & H1 & Hm).
    apply IH in Hm as (-> & -> & -> & -> & -> & -> & ->).
    destruct d; [by apply (set_completed_fields n0)|by injection H1 as <-].
Qed.

(** Marking succeeds when there are no more done flags than instances. *)
Lemma mark_completed_total (n0 : nat) (done : list bool) (D : BatchEpisode.t Obs) :
  (n0 + length done ≤ length (BatchEpisode.completes D))%nat →
  ∃ D', EpisodeRunner.mark_completed n0 done D = Ok D'.
Proof.
  revert n0 D. induction done as [|d done IH]; intros n0 D Hlen; simpl in *.
  - eauto.
  - destruct d.
    + unfold BatchEpisode.set_completed.
      rewrite bool_decide_eq_true_2 by lia. cbn [bind].
      apply IH. cbn. rewrite length_insert. lia.
    + cbn [bind]. apply IH. lia.
Qed.

(** X1: one execution of the loop body, for an agent that answers with a
    dictionary holding the key ['action'] and an environment that returns
    no more done flags than it has instances: the environment is stepped
    with the action (a tensor turned into the list of its rows), and the
    action, the new observation, the reward, the done flags and the info
    are appended to the trajectory; what is left of the agent's dictionary
    once ['action'] is popped is appended as batch info. *)
Theorem step_with_action_key (self : EpisodeRunner.t A E) (obs obs' : Obs)
  (D : BatchEpisode.t Obs) (out : gmap string pyval) (agent' : A)
  (action info : pyval) (reward : list R) (done : list bool) (env' : E) :
  agent_choose_action (EpisodeRunner.agent self) obs {[ "info" := PyDict [] ]}
  = Ok (out, agent') →
  out !! "action" = Some action →
  env_step (EpisodeRunner.env self)
    match action with PyTensor rows => PyList rows | _ => action end
  = Ok (obs', reward, done, info, env') →
  (length done ≤ length (BatchEpisode.completes D))%nat →
  ∃ D',
    EpisodeRunner.step (self, obs, D)
    = Ok ({| EpisodeRunner.config := EpisodeRunner.config self;
             EpisodeRunner.agent := agent'; EpisodeRunner.env := env' |},
          obs', D')
    ∧ BatchEpisode.actions D'
      = BatchEpisode.actions D
        ++ [match action with PyTensor rows => PyList rows | _ => action end]
    ∧ BatchEpisode.observations D' = BatchEpisode.observations D ++ [obs']
    ∧ BatchEpisode.rewards D' = BatchEpisode.rewards D ++ [reward]
    ∧ BatchEpisode.dones D' = BatchEpisode.dones D ++ [done]
    ∧ BatchEpisode.infos D' = BatchEpisode.infos D ++ [info]
    ∧ BatchEpisode.batch_infos D'
      = BatchEpisode.batch_infos D ++ [delete "action" out].
Proof.
  intros Hc Ha He Hlen. unfold EpisodeRunner.step.
  rewrite Hc. cbn [bind]. unfold pop. rewrite Ha. cbn [bind].
  rewrite He. cbn [bind].
  destruct (mark_completed_total 0 done
              (BatchEpisode.add_info info
                 (BatchEpisode.add_done done
                    (BatchEpisode.add_reward reward
                       (BatchEpisode.add_observation obs'
                          (BatchEpisode.add_action
                             match action with
                             | PyTensor rows => PyList rows
                             | _ => action
                             end D)))))) as [D1 Hm]; [by cbn|].
  rewrite Hm. cbn [bind]. eexists. split; [reflexivity|].
  apply mark_completed_fields in Hm as (Ho & Hac & Hr & Hd & Hi & Hb & _).
  cbn [BatchEpisode.add_batch_info BatchEpisode.actions
       BatchEpisode.observations BatchEpisode.rewards BatchEpisode.dones
       BatchEpisode.infos BatchEpisode.batch_infos].
  by rewrite Ho, Hac, Hr, Hd, Hi, Hb.
Qed.

Lemma step_fields (st st' : rstate) :
  EpisodeRunner.step st = Ok st' →
  length (BatchEpisode.observations st'.2)
  = S (length (BatchEpisode.observations st.2))
  ∧ length (BatchEpisode.actions st'.2) = S (length (BatchEpisode.actions st.2))
  ∧ length (BatchEpisode.rewards st'.2) = S (length (BatchEpisode.rewards st.2))
  ∧ length (BatchEpisode.dones st'.2) = S (length (BatchEpisode.dones st.2))
  ∧ length (BatchEpisode.infos st'.2) = S (length (BatchEpisode.infos st.2))
  ∧ length (BatchEpisode.batch_infos st'.2)
    = S (length (BatchEpisode.batch_infos st.2))
  ∧ length (BatchEpisode.completes st'.2)
    = length (BatchEpisode.completes st.2).
Proof.
  destruct st as [[self obs] D], st' as [[self' obs'] D'].
  unfold EpisodeRunner.step. intros Hs.
  apply bind_Ok in Hs as ([out agent'] & Hc & Hs).
  apply bind_Ok in Hs as ([action out'] & Hp & Hs).
  apply bind_Ok in Hs as ([[[[obs1 reward] done] info] env'] & He & Hs).
  apply bind_Ok in Hs as (D1 & Hm & Hs).
  injection Hs as <- <- <-.
  apply mark_completed_fields in Hm as (Ho & Hac & Hr & Hd & Hi & Hb & Hl).
  cbn [snd BatchEpisode.add_batch_info BatchEpisode.actions
       BatchEpisode.observations BatchEpisode.rewards BatchEpisode.dones
       BatchEpisode.infos BatchEpisode.batch_infos BatchEpisode.completes].
  rewrite Ho, Hac, Hr, Hd, Hi, Hb, Hl. cbn. rewrite !length_app. cbn.
  repeat split; lia.
Qed.

Lemma steps_fields (k : nat) (st st' : rstate) :
  EpisodeRunner.steps k st = Ok st' →
  length (BatchEpisode.observations st'.2)
  = (length (BatchEpisode.observations st.2) + k)%nat
  ∧ length (BatchEpisode.actions st'.2)
    = (length (BatchEpisode.actions st.2) + k)%nat
  ∧ length (BatchEpisode.rewards st'.2)
    = (length (BatchEpisode.rewards st.2) + k)%nat
  ∧ length (BatchEpisode.dones st'.2)
    = (length (BatchEpisode.dones st.2) + k)%nat
  ∧ length (BatchEpisode.infos st'.2)
    = (length (BatchEpisode.infos st.2) + k)%nat
  ∧ length (BatchEpisode.batch_infos st'.2)
    = (length (BatchEpisode.batch_infos st.2) + k)%nat
  ∧ length (BatchEpisode.completes st'.2)
    = length (BatchEpisode.completes st.2).
Proof.
  revert st. induction k as [|k IH]; intros st; simpl.
  - intros [= <-]. repeat split; lia.
  - intros Hs. apply bind_Ok in Hs as (st1 & H1 & Hs).
    apply IH in Hs as (-> & -> & -> & -> & -> & -> & ->).
    apply step_fields in H1 as (-> & -> & -> & -> & -> & -> & ->).
    repeat split; lia.
Qed.

Lemma start_fields (self : EpisodeRunner.t A E) (st0 : rstate) :
  EpisodeRunner.start self = Ok st0 →
  length (BatchEpisode.observations st0.2) = 1%nat
  ∧ BatchEpisode.actions st0.2 = [] ∧ BatchEpisode.rewards st0.2 = []
  ∧ BatchEpisode.dones st0.2 = [] ∧ BatchEpisode.infos st0.2 = []
  ∧ BatchEpisode.batch_infos st0.2 = []
  ∧ BatchEpisode.completes st0.2
    = replicate (num_env (EpisodeRunner.env self)) false.
Proof.
  unfold EpisodeRunner.start. intros Hs.
  apply bind_Ok in Hs as ([obs env'] & _ & Hs).
  apply bind_Ok in Hs as (agent' & _ & Hs).
  by injection Hs as <-.
Qed.

(** X2: the trajectory batch a rollout returns is consistent: with [k] the
    number of steps taken, it holds [k + 1] observations (the one of the
    reset first), [k] actions, rewards, done flags, infos and batch infos,
    and one completion mark per environment instance. *)
Theorem call_record_lengths (self self' : EpisodeRunner.t A E) (T : Z)
  (D : BatchEpisode.t Obs) :
  EpisodeRunner.call self T = Ok (D, self') →
  let k := BatchEpisode.T D in
  length (BatchEpisode.observations D) = S k
  ∧ length (BatchEpisode.rewards D) = k
  ∧ length (BatchEpisode.dones D) = k
  ∧ length (BatchEpisode.infos D) = k
  ∧ length (BatchEpisode.batch_infos D) = k
  ∧ length (BatchEpisode.completes D) = num_env (EpisodeRunner.env self).
Proof.
  unfold EpisodeRunner.call. intros Hc.
  apply bind_Ok in Hc as (st0 & Hstart & Hc).
  apply bind_Ok in Hc as ([[self1 obs1] D1] & Hloop & Hc).
  injection Hc as <- <-.
  apply loop_Ok in Hloop as (k' & _ & _ & Hs & _).
  apply steps_fields in Hs as (Ho & Ha & Hr & Hd & Hi & Hb & Hl).
  apply start_fields in Hstart as (Ho0 & Ha0 & Hr0 & Hd0 & Hi0 & Hb0 & Hc0).
  cbn [snd] in *. unfold BatchEpisode.T.
  rewrite Ho, Ha, Hr, Hd, Hi, Hb, Hl, Ho0, Ha0, Hr0, Hd0, Hi0, Hb0, Hc0.
  cbn. rewrite length_replicate. repeat split; lia.
Qed.

Lemma loop_raises (n k : nat) (st stk : rstate) (e : exn) :
  (k < n)%nat →
  EpisodeRunner.steps k st = Ok stk →
  (∀ j stj, (0 < j ≤ k)%nat → EpisodeRunner.steps j st = Ok stj →
            EpisodeRunner.all (BatchEpisode.completes stj.2) = false) →
  EpisodeRunner.step stk = Raise e →
  EpisodeRunner.loop n st = Raise e.
Proof.
  revert k st. induction n as [|n IH]; intros k st Hk Hs Hearly He; [lia|].
  destruct k as [|k]; simpl in Hs |- *.
  - injection Hs as ->. by rewrite He.
  - apply bind_Ok in Hs as (st1 & H1 & Hs). rewrite H1. cbn [bind].
    rewrite (Hearly 1%nat st1); [|lia|by simpl; rewrite H1].
    apply (IH k); [lia|done| |done].
    intros j stj Hj Hsj. apply (Hearly (S j)); [lia|].
    simpl. by rewrite H1.
Qed.

(** X3: there is no retry and no partial result.  When the reset of the
    environment or of the agent raises, the rollout raises the same
    exception; and when, after [k < T] steps none of which completed every
    instance, the next execution of the loop body raises, the rollout
    raises that exception and returns no trajectory. *)
Theorem call_aborts_on_error (self : EpisodeRunner.t A E) (T : Z) (e : exn) :
  (env_reset (EpisodeRunner.env self) = Raise e →
   EpisodeRunner.call self T = Raise e)
  ∧ (∀ obs env',
       env_reset (EpisodeRunner.env self) = Ok (obs, env') →
       agent_reset (EpisodeRunner.agent self) (EpisodeRunner.config self)
       = Raise e →
       EpisodeRunner.call self T = Raise e)
  ∧ (∀ st0 k stk,
       EpisodeRunner.start self = Ok st0 →
       (k < Z.to_nat T)%nat →
       EpisodeRunner.steps k st0 = Ok stk →
       (∀ j stj, (0 < j ≤ k)%nat → EpisodeRunner.steps j st0 = Ok stj →
                 EpisodeRunner.all (BatchEpisode.completes stj.2) = false) →
       EpisodeRunner.step stk = Raise e →
       EpisodeRunner.call self T = Raise e).
Proof.
  split; [|split].
  - intros Hr. unfold EpisodeRunner.call, EpisodeRunner.start. by rewrite Hr.
  - intros obs env' Hr Ha. unfold EpisodeRunner.call, EpisodeRunner.start.
    rewrite Hr. cbn [bind]. by rewrite Ha.
  - intros st0 k stk Hstart Hk Hs Hearly He. unfold EpisodeRunner.call.
    rewrite Hstart. cbn [bind].
    by rewrite (loop_raises _ k st0 stk e).
Qed.

(** X4: an agent whose dictionary has no key ['action'] stops the rollout at
    its first step with [KeyError('action')], whatever else the dictionary
    holds. *)
Theorem call_missing_action_key (self : EpisodeRunner.t A E) (T : Z)
  (st0 : rstate) (out : gmap string pyval) (agent' : A) :
  (1 ≤ T)%Z →
  EpisodeRunner.start self = Ok st0 →
  agent_choose_action (EpisodeRunner.agent st0.1.1) st0.1.2
    {[ "info" := PyDict [] ]} = Ok (out, agent') →
  out !! "action" = None →
  EpisodeRunner.call self T = Raise (KeyError "action").
Proof.
  intros HT Hstart Hc Hk. unfold EpisodeRunner.call.
  rewrite Hstart. cbn [bind].
  rewrite (loop_raises _ 0 st0 st0 (KeyError "action")); [done|lia|done| |].
  - intros j stj Hj. lia.
  - destruct st0 as [[self0 obs0] D0]. unfold EpisodeRunner.step.
    cbn [fst snd] in Hc. rewrite Hc. cbn [bind]. unfold pop. by rewrite Hk.
Qed.

Lemma step_marks (st st' : rstate) (n : nat) :
  EpisodeRunner.step st = Ok st' →
  (BatchEpisode.completes st'.2 !! n = Some true
   ↔ BatchEpisode.completes st.2 !! n = Some true
     ∨ (n < length (BatchEpisode.completes st.2))%nat
       ∧ ∃ d, last (BatchEpisode.dones st'.2) = Some d ∧ d !! n = Some true).
Proof.
  intros Hs. apply step_completes in Hs as (done & Hd & Hc).
  rewrite Hc, Hd, last_snoc.
  destruct (BatchEpisode.completes st.2 !! n) as [b|] eqn:Hb; simpl.
  - apply lookup_lt_Some in Hb as Hlt. split.
    + intros [= Hor]. apply orb_true_iff in Hor as [->|Hdn]; [by left|].
      right. split; [done|]. exists done. split; [done|].
      destruct (done !! n) as [[]|]; done.
    + intros [[= ->]|(_ & d & [= <-] & Hdn)]; [done|].
      rewrite Hdn. simpl. by rewrite orb_true_r.
  - apply lookup_ge_None in Hb. split; [done|].
    intros [?|[? _]]; [done|lia].
Qed.

(** X5: completion marks are cumulative.  In the trajectory batch a rollout
    returns, instance [n] is marked completed exactly when one of the
    recorded done flags of instance [n] is set: a mark is never taken back
    when a later step reports the instance as not done. *)
Theorem call_completes_iff_done (self self' : EpisodeRunner.t A E) (T : Z)
  (D : BatchEpisode.t Obs) (n : nat) :
  EpisodeRunner.call self T = Ok (D, self') →
  (BatchEpisode.completes D !! n = Some true
   ↔ (n < num_env (EpisodeRunner.env self))%nat
     ∧ ∃ j d, BatchEpisode.dones D !! j = Some d ∧ d !! n = Some true).
Proof.
  unfold EpisodeRunner.call. intros Hc.
  apply bind_Ok in Hc as (st0 & Hstart & Hc).
  apply bind_Ok in Hc as ([[self1 obs1] D1] & Hloop & Hc).
  injection Hc as <- <-.
  apply loop_Ok in Hloop as (k & _ & _ & Hs & _).
  apply start_fields in Hstart as (_ & _ & _ & Hd0 & _ & _ & Hc0).
  change D1 with ((self1, obs1, D1).2).
  assert (Hinv : ∀ k (st st' : rstate),
    EpisodeRunner.steps k st = Ok st' →
    length (BatchEpisode.completes st.2) = num_env (EpisodeRunner.env self) →
    (BatchEpisode.completes st.2 !! n = Some true
     ↔ (n < num_env (EpisodeRunner.env self))%nat
       ∧ ∃ j d, BatchEpisode.dones st.2 !! j = Some d ∧ d !! n = Some true) →
    (BatchEpisode.completes st'.2 !! n = Some true
     ↔ (n < num_env (EpisodeRunner.env self))%nat
       ∧ ∃ j d, BatchEpisode.dones st'.2 !! j = Some d ∧ d !! n = Some true)).
  { clear. intros k. induction k as [|k IH]; intros st st' Hs Hlen Hinv.
    - simpl in Hs. by injection Hs as <-.
    - simpl in Hs. apply bind_Ok in Hs as (st1 & H1 & Hs).
      apply (IH st1 st' Hs).
      + apply step_fields in H1 as (_ & _ & _ & _ & _ & _ & ->). done.
      + rewrite (step_marks st st1 n H1), Hinv, Hlen.
        pose proof (step_completes _ _ H1) as (done & Hd & _).
        rewrite Hd, last_snoc. split.
        * intros [(Hn & j & d & Hj & Hdn)|(Hn & d & [= <-] & Hdn)].
          -- split; [done|]. exists j, d. split; [|done].
             by apply lookup_app_l_Some.
          -- split; [done|]. exists (length (BatchEpisode.dones st.2)), done.
             split; [|done]. by rewrite list_lookup_middle.
        * intros (Hn & j & d & Hj & Hdn).
          apply lookup_app_Some in Hj as [Hj|[Hge Hj]].
          -- left. eauto.
          -- right. split; [done|]. exists done. split; [done|].
             destruct (j - length (BatchEpisode.dones st.2))%nat; [|done].
             simpl in Hj. by injection Hj as <-. }
  apply (Hinv k st0 _ Hs).
  - by rewrite Hc0, length_replicate.
  - rewrite Hc0, Hd0. split.
    + intros Hl. apply lookup_replicate in Hl as [? _]. done.
    + intros (_ & j & d & Hj & _). done.
Qed.

End RunnerRecords.

(** ** Construction: errors, allocation, shapes *)

Lemma unique_size_one (l : list R) :
  (np.size (np.unique l) =? 1)%Z = true → ∃ m, np.unique l = [m].
Proof.
  unfold np.size. intros Hs. apply Z.eqb_eq in Hs.
  destruct (np.unique l) as [|x [|y u]]; simpl in Hs; try lia. eauto.
Qed.

Lemma item_not_uniform (l : list R) :
  (∀ x, ¬ (l ≠ [] ∧ Forall (eq x) l)) → np.item (np.unique l) = Raise ValueError.
Proof.
  intros Hno. destruct (np.unique l) as [|x [|y u]] eqn:Hu; try reflexivity.
  apply unique_singleton_inv in Hu. by apply Hno in Hu.
Qed.

(** X6: which exception [Actor.__init__] raises.  Upper bounds that are not
    all equal (or an action space without dimension) fail the first
    assertion; with uniform upper bounds, lower bounds that are not all
    equal make [np.unique(low).item()] raise [ValueError], not an assertion
    error; uniform bounds that are not opposite fail the second
    assertion. *)
Theorem Actor_init_errors `{Backend} (cfg : Config) (env : Env) (w : World) :
  let hi := high (action_space env) in
  let lo := low (action_space env) in
  ((∀ m, ¬ (hi ≠ [] ∧ Forall (eq m) hi)) →
   Actor.init cfg env w = Raise AssertionError)
  ∧ (∀ m, hi ≠ [] → Forall (eq m) hi →
          (∀ l, ¬ (lo ≠ [] ∧ Forall (eq l) lo)) →
          Actor.init cfg env w = Raise ValueError)
  ∧ (∀ m l, hi ≠ [] → Forall (eq m) hi → lo ≠ [] → Forall (eq l) lo →
            - l ≠ m →
            Actor.init cfg env w = Raise AssertionError).
Proof.
  intros hi lo. unfold Actor.init. fold hi lo.
  destruct (make_fc _ _ w) as [fl w1].
  destruct (Linear.init _ _ w1) as [ah w2].
  split; [|split].
  - intros Hno.
    destruct (np.size (np.unique hi) =? 1)%Z eqn:Hs; [|reflexivity].
    apply unique_size_one in Hs as [m Hu].
    apply unique_singleton_inv in Hu. by apply Hno in Hu.
  - intros m Hne Hall Hno.
    rewrite (unique_uniform m hi) by done. cbn.
    by rewrite item_not_uniform.
  - intros m l Hne Hall Hlne Hlall Hopp.
    rewrite (unique_uniform m hi), (unique_uniform l lo) by done. cbn.
    by rewrite bool_decide_eq_false_2.
Qed.


Lemma shapes_of_allocated (h : gmap nat tensor) (ps sh : list nat) :
  Forall2 (λ l n, length (h !!! l : tensor) = n) ps sh →
  map length (read h ps) = sh.
Proof. induction 1 as [|l n ps sh Hl _ IH]; simpl; [done|]. by rewrite Hl, IH. Qed.

Lemma actor_shapes_length (env : Env) : length (actor_shapes env) = 6%nat.
Proof. reflexivity. Qed.

Lemma critic_shapes_length (env : Env) : length (critic_shapes env) = 12%nat.
Proof. reflexivity. Qed.

(** What [Agent.__init__] leaves behind, in full. *)
Lemma Agent_init_store `{Backend} (cfg : Config) (env : Env) (w w' : World)
  (ag : Agent.t) :
  Agent.init cfg env w = Ok (ag, w') →
  let pa := Actor.parameters (Agent.actor ag) in
  let pa' := Actor.parameters (Agent.actor_target ag) in
  let pc := Critic.parameters (Agent.critic ag) in
  let pc' := Critic.parameters (Agent.critic_target ag) in
  pa ++ pa' ++ pc ++ pc' = seq (next_loc w) 36
  ∧ next_loc w' = (next_loc w + 36)%nat
  ∧ (∀ l, (l < next_loc w)%nat → heap w' !! l = heap w !! l)
  ∧ map length (read (heap w') pa) = actor_shapes env
  ∧ map length (read (heap w') pa') = actor_shapes env
  ∧ map length (read (heap w') pc) = critic_shapes env
  ∧ map length (read (heap w') pc') = critic_shapes env.
Proof.
  intros Hi pa pa' pc pc'. unfold Agent.init in Hi.
  apply bind_Ok in Hi as ([a w1] & Ha & Hi).
  apply bind_Ok in Hi as ([a' w2] & Ha' & Hi).
  apply bind_Ok in Hi as (h3 & Hl1 & Hi).
  destruct (Critic.init cfg env (set_heap h3 w2)) as [c w3] eqn:Hc.
  destruct (Critic.init cfg env w3) as [c' w4] eqn:Hc'.
  apply bind_Ok in Hi as (h5 & Hl2 & Hi).
  apply bind_Ok in Hi as (m & Hm & Hi).
  injection Hi as <- <-.
  apply Actor_init_allocates in Ha, Ha'.
  apply Critic_init_allocates in Hc, Hc'.
  subst pa pa' pc pc'.
  cbn [Agent.actor Agent.actor_target Agent.critic Agent.critic_target
       set_heap heap next_loc].
  set (pa := Actor.parameters a) in *. set (pa' := Actor.parameters a') in *.
  set (pc := Critic.parameters c) in *. set (pc' := Critic.parameters c') in *.
  pose proof (actor_shapes_length env) as HA.
  pose proof (critic_shapes_length env) as HC.
  assert (Hda : ∀ x, x ∈ pa → x ∉ pa').
  { intros x Hx Hx'. eapply allocates_params_lt in Hx, Hx'; [|done..]. lia. }
  assert (Hdc : ∀ x, x ∈ pc → x ∉ pc').
  { intros x Hx Hx'. eapply allocates_params_lt in Hx, Hx'; [|done..]. lia. }
  apply load_state_dict_Ok in Hl1 as (Hr1 & Hr1' & _ & Hf1);
    [|by eapply allocates_NoDup|done].
  apply load_state_dict_Ok in Hl2 as (Hr2 & Hr2' & _ & Hf2);
    [|by eapply allocates_NoDup|done].
  pose proof Ha as (Hpa & Hn1 & _ & Hfa & Hsa).
  pose proof Ha' as (Hpa' & Hn2 & _ & Hfa' & Hsa').
  pose proof Hc as (Hpc & Hn3 & _ & Hfc & Hsc).
  pose proof Hc' as (Hpc' & Hn4 & _ & Hfc' & Hsc').
  cbn [set_heap next_loc heap] in Hpc, Hn3, Hfc.
  rewrite HA in Hpa, Hn1, Hpa', Hn2. rewrite HC in Hpc, Hn3, Hpc', Hn4.
  assert (Hlt : ∀ l, (l < next_loc w3)%nat → h5 !! l = heap w3 !! l).
  { intros l Hl. rewrite Hf2, Hfc' by (rewrite ?Hpc'; rewrite ?elem_of_seq; lia).
    done. }
  assert (Hra : read h5 pa = read (heap w2) pa).
  { rewrite (read_frame (heap w3) h5), (read_frame h3 (heap w3)); [done| |].
    - intros l Hl. apply Hfc. rewrite Hpa in Hl. apply elem_of_seq in Hl. lia.
    - intros l Hl. apply Hlt. rewrite Hpa in Hl. apply elem_of_seq in Hl. lia. }
  assert (Hra' : read h5 pa' = read (heap w2) pa).
  { rewrite (read_frame (heap w3) h5), (read_frame h3 (heap w3)); [done| |].
    - intros l Hl. apply Hfc. rewrite Hpa' in Hl. apply elem_of_seq in Hl. lia.
    - intros l Hl. apply Hlt. rewrite Hpa' in Hl. apply elem_of_seq in Hl. lia. }
  assert (Hsh2 : map length (read (heap w2) pa) = actor_shapes env).
  { rewrite (read_frame (heap w1) (heap w2)); [by apply shapes_of_allocated|].
    intros l Hl. apply Hfa'. rewrite Hpa in Hl. apply elem_of_seq in Hl. lia. }
  assert (Hsh4 : map length (read (heap w4) pc) = critic_shapes env).
  { rewrite (read_frame (heap w3) (heap w4)); [by apply shapes_of_allocated|].
    intros l Hl. apply Hfc'. rewrite Hpc in Hl. apply elem_of_seq in Hl. lia. }
  split; [|split; [|split; [|split; [|split; [|split]]]]].
  - rewrite Hpa, Hpa', Hpc, Hpc', Hn3, Hn2, Hn1, <- !seq_app. done.
  - lia.
  - intros l Hl. rewrite Hlt, Hfc by lia. cbn [set_heap heap].
    rewrite Hf1, Hfa', Hfa by (rewrite ?Hpa'; rewrite ?elem_of_seq; lia).
    done.
  - by rewrite Hra.
  - by rewrite Hra'.
  - by rewrite Hr2'.
  - by rewrite Hr2.
Qed.

(** X8: [Agent.__init__] on the store.  It creates 36 parameter tensors, 6
    for each actor and 12 for each critic, with the sizes of two hidden
    layers of 400 and 300 units and a head; the tensors that existed before
    keep their values, the four networks start with these sizes, the
    timestep counter is 0 and no update is logged. *)
Theorem Agent_init_allocates_networks `{Backend} (cfg : Config) (env : Env)
  (w w' : World) (ag : Agent.t) :
  Agent.init cfg env w = Ok (ag, w') →
  let obs_dim := flatdim (observation_space env) in
  let act_dim := flatdim (action_space env) in
  let actor_sizes :=
    [400 * obs_dim; 400; 300 * 400; 300; act_dim * 300; act_dim]%nat in
  let stack_sizes :=
    [400 * (obs_dim + act_dim); 400; 300 * 400; 300; 1 * 300; 1]%nat in
  next_loc w' = (next_loc w + 36)%nat
  ∧ (∀ l, (l < next_loc w)%nat → heap w' !! l = heap w !! l)
  ∧ (∀ l, l ∈ online_parameters ag ++ target_parameters ag →
          (next_loc w ≤ l < next_loc w')%nat)
  ∧ map length (read (heap w') (Actor.parameters (Agent.actor ag)))
    = actor_sizes
  ∧ map length (read (heap w') (Actor.parameters (Agent.actor_target ag)))
    = actor_sizes
  ∧ map length (read (heap w') (Critic.parameters (Agent.critic ag)))
    = stack_sizes ++ stack_sizes
  ∧ map length (read (heap w') (Critic.parameters (Agent.critic_target ag)))
    = stack_sizes ++ stack_sizes
  ∧ Agent.total_timestep ag = 0%Z
  ∧ trace w' = trace w.
Proof.
  intros Hi obs_dim act_dim actor_sizes stack_sizes.
  pose proof (Agent_init_store _ _ _ _ _ Hi)
    as (Hall & Hn & Hf & Hsa & Hsa' & Hsc & Hsc').
  apply Agent_init_Ok in Hi as (_ & _ & _ & Ht & _ & _ & Htr).
  split; [done|]. split; [done|]. split.
  - intros l Hl. rewrite Hn.
    assert (Hin : l ∈ seq (next_loc w) 36).
    { rewrite <- Hall. unfold online_parameters, target_parameters in Hl.
      rewrite !elem_of_app in *. tauto. }
    apply elem_of_seq in Hin. lia.
  - by repeat split.
Qed.

(** ** The networks: what they read and the shape of what they return *)

Lemma Linear_forward_ext (h h' : gmap nat tensor) (l : Linear.t) (x : list R) :
  (∀ p, p ∈ Linear.parameters l → h' !! p = h !! p) →
  Linear.forward h' l x = Linear.forward h l x.
Proof.
  intros Hp. unfold Linear.forward. rewrite !lookup_total_alt.
  unfold tensor in *.
  rewrite (Hp (Linear.weight l)), (Hp (Linear.bias l)); [done| |].
  - unfold Linear.parameters. apply elem_of_cons. right. apply elem_of_cons.
    by left.
  - unfold Linear.parameters. apply elem_of_cons. by left.
Qed.

Lemma feature_forward_ext (h h' : gmap nat tensor) (ls : list Linear.t)
  (x : list R) :
  (∀ p, p ∈ layers_parameters ls → h' !! p = h !! p) →
  feature_forward h' ls x = feature_forward h ls x.
Proof.
  unfold feature_forward. revert x.
  induction ls as [|l ls IH]; intros x Hp; [done|].
  change (layers_parameters (l :: ls))
    with (Linear.parameters l ++ layers_parameters ls) in Hp.
  cbn [foldl]. rewrite (Linear_forward_ext h h').
  - apply IH. intros p Hin. apply Hp. apply elem_of_app. by right.
  - intros p Hin. apply Hp. apply elem_of_app. by left.
Qed.

(** The actor reads its own parameters only. *)
Lemma Actor_forward_ext (h h' : gmap nat tensor) (a : Actor.t)
  (x : list (list R)) :
  (∀ p, p ∈ Actor.parameters a → h' !! p = h !! p) →
  Actor.forward h' a x = Actor.forward h a x.
Proof.
  intros Hp. unfold Actor.forward. apply map_ext. intros r.
  unfold Actor.forward_row.
  rewrite (feature_forward_ext h h'), (Linear_forward_ext h h'); [done| |].
  - intros p Hin. apply Hp. unfold Actor.parameters. apply elem_of_app. by right.
  - intros p Hin. apply Hp. unfold Actor.parameters. apply elem_of_app. by left.
Qed.

Lemma Critic_Q1_ext (h h' : gmap nat tensor) (c : Critic.t)
  (x a : list (list R)) :
  (∀ p, p ∈ layers_parameters (Critic.first_feature_layers c)
            ++ Linear.parameters (Critic.first_Q_head c) →
        h' !! p = h !! p) →
  Critic.Q1 h' c x a = Critic.Q1 h c x a.
Proof.
  intros Hp. unfold Critic.Q1. f_equal. apply map_ext. intros r.
  rewrite (feature_forward_ext h h'), (Linear_forward_ext h h'); [done| |].
  - intros p Hin. apply Hp. apply elem_of_app. by right.
  - intros p Hin. apply Hp. apply elem_of_app. by left.
Qed.

Lemma Critic_Q2_ext (h h' : gmap nat tensor) (c : Critic.t)
  (x a : list (list R)) :
  (∀ p, p ∈ layers_parameters (Critic.second_feature_layers c)
            ++ Linear.parameters (Critic.second_Q_head c) →
        h' !! p = h !! p) →
  Critic.Q2 h' c x a = Critic.Q2 h c x a.
Proof.
  intros Hp. unfold Critic.Q2. f_equal. apply map_ext. intros r.
  rewrite (feature_forward_ext h h'), (Linear_forward_ext h h'); [done| |].
  - intros p Hin. apply Hp. apply elem_of_app. by right.
  - intros p Hin. apply Hp. apply elem_of_app. by left.
Qed.

(** X9: the two value estimates of a Critic are independent.  The two stacks
    a Critic is built with share no parameter tensor, [Q1] reads the first
    stack only and [Q2] the second only: assigning any values to the
    tensors of one stack leaves the other estimate as it is. *)
Theorem Critic_estimates_independent `{Backend} (cfg : Config) (env : Env)
  (w w' : World) (c : Critic.t) :
  Critic.init cfg env w = (c, w') →
  let first :=
    layers_parameters (Critic.first_feature_layers c)
    ++ Linear.parameters (Critic.first_Q_head c) in
  let second :=
    layers_parameters (Critic.second_feature_layers c)
    ++ Linear.parameters (Critic.second_Q_head c) in
  Critic.parameters c = first ++ second
  ∧ NoDup (first ++ second)
  ∧ ∀ h vs x a,
      Critic.Q1 (write second vs h) c x a = Critic.Q1 h c x a
      ∧ Critic.Q2 (write first vs h) c x a = Critic.Q2 h c x a.
Proof.
  intros Hc first second.
  apply Critic_init_allocates in Hc. apply allocates_NoDup in Hc.
  assert (Hp : Critic.parameters c = first ++ second).
  { unfold Critic.parameters, first, second. by rewrite <- !app_assoc. }
  rewrite Hp in Hc. split; [done|]. split; [done|].
  apply NoDup_app in Hc as (_ & Hdisj & _).
  intros h vs x a. split.
  - apply Critic_Q1_ext. intros p Hin. apply write_frame. by apply Hdisj.
  - apply Critic_Q2_ext. intros p Hin. apply write_frame.
    intros Hin'. by apply (Hdisj p).
Qed.

Lemma Linear_init_fields `{Backend} (i o : nat) (w w' : World) (l : Linear.t) :
  Linear.init i o w = (l, w') →
  Linear.in_features l = i ∧ Linear.out_features l = o.
Proof.
  unfold Linear.init.
  destruct (draws (o * i) (init_sample i) (rng w)) as [wv g1].
  destruct (draws o (init_sample i) g1) as [bv g2].
  cbn [alloc]. by intros [= <- <-].
Qed.

Lemma Linear_forward_length (h : gmap nat tensor) (l : Linear.t) (x : list R) :
  length (h !!! Linear.bias l : tensor) = Linear.out_features l →
  length (Linear.forward h l x) = Linear.out_features l.
Proof.
  intros Hb. unfold Linear.forward, vadd.
  rewrite length_zip_with, length_map, length_seq. unfold tensor in *. lia.
Qed.

(** The bias of the head is the last parameter of a stack. *)
Lemma stack_head_bias (h : gmap nat tensor) (ls : list Linear.t)
  (head : Linear.t) (sh : list nat) (a b : nat) :
  length (layers_parameters ls) = length sh →
  map length (read h (layers_parameters ls ++ Linear.parameters head))
  = sh ++ [a; b] →
  length (h !!! Linear.bias head : tensor) = b.
Proof.
  intros Hlen Hsh. rewrite read_app, map_app in Hsh.
  apply app_inj_1 in Hsh as [_ Hsh]; [|by rewrite length_map, read_length].
  by injection Hsh as _ ->.
Qed.

Lemma Actor_forward_row_length `{Backend} (cfg : Config) (env : Env)
  (w0 w1 : World) (a : Actor.t) (h : gmap nat tensor) (x : list R) :
  Actor.init cfg env w0 = Ok (a, w1) →
  map length (read h (Actor.parameters a)) = actor_shapes env →
  length (Actor.forward_row h a x) = flatdim (action_space env).
Proof.
  intros Hi Hsh. apply Actor_init_Ok in Hi as (_ & _ & _ & w' & Hfc & Hah).
  apply make_fc_allocates, allocates_length in Hfc.
  apply Linear_init_fields in Hah as [_ Hout].
  unfold Actor.forward_row. rewrite length_map, Linear_forward_length; [done|].
  rewrite Hout.
  exact (stack_head_bias h (Actor.feature_layers a) (Actor.action_head a)
           _ _ _ Hfc Hsh).
Qed.

Lemma concat_singletons {X : Type} (g : X → list R) (l : list X) :
  (∀ r, length (g r) = 1%nat) → length (concat (map g l)) = length l.
Proof.
  intros Hg. induction l as [|r l IH]; [done|].
  cbn [map concat]. rewrite length_app, Hg, IH. done.
Qed.

Lemma Critic_forward_length `{Backend} (cfg : Config) (env : Env)
  (w0 w1 : World) (c : Critic.t) (h : gmap nat tensor) (x a : list (list R)) :
  Critic.init cfg env w0 = (c, w1) →
  map length (read h (Critic.parameters c)) = critic_shapes env →
  length (Critic.Q1 h c x a) = (length x `min` length a)%nat
  ∧ length (Critic.Q2 h c x a) = (length x `min` length a)%nat.
Proof.
  unfold Critic.init.
  destruct (make_fc _ _ w0) as [fl1 w2] eqn:H1.
  destruct (Linear.init _ _ w2) as [h1 w3] eqn:H2.
  destruct (make_fc _ _ w3) as [fl2 w4] eqn:H3.
  destruct (Linear.init _ _ w4) as [h2 w5] eqn:H4.
  intros [= <- <-] Hsh.
  apply make_fc_allocates, allocates_length in H1, H3.
  apply Linear_init_fields in H2 as [_ Ho1], H4 as [_ Ho2].
  unfold Critic.parameters, critic_shapes in Hsh.
  cbn [Critic.first_feature_layers Critic.first_Q_head
       Critic.second_feature_layers Critic.second_Q_head] in Hsh.
  rewrite (app_assoc (layers_parameters fl1)) in Hsh.
  rewrite read_app, map_app in Hsh.
  apply app_inj_1 in Hsh as [Hs1 Hs2].
  2:{ rewrite length_map, read_length, !length_app, H1. done. }
  unfold Critic.Q1, Critic.Q2, torch.cat.
  cbn [Critic.first_feature_layers Critic.first_Q_head
       Critic.second_feature_layers Critic.second_Q_head].
  rewrite !concat_singletons, !length_zip_with; [done| |].
  - intros r. rewrite Linear_forward_length; [done|].
    rewrite Ho2. exact (stack_head_bias h fl2 h2 _ _ _ H3 Hs2).
  - intros r. rewrite Linear_forward_length; [done|].
    rewrite Ho1. exact (stack_head_bias h fl1 h1 _ _ _ H1 Hs1).
Qed.

Lemma Agent_init_parts `{Backend} (cfg : Config) (env : Env) (w w' : World)
  (ag : Agent.t) :
  Agent.init cfg env w = Ok (ag, w') →
  (∃ w0 w1, Actor.init cfg env w0 = Ok (Agent.actor ag, w1))
  ∧ (∃ w0 w1, Actor.init cfg env w0 = Ok (Agent.actor_target ag, w1))
  ∧ (∃ w0 w1, Critic.init cfg env w0 = (Agent.critic ag, w1))
  ∧ (∃ w0 w1, Critic.init cfg env w0 = (Agent.critic_target ag, w1)).
Proof.
  intros Hi. unfold Agent.init in Hi.
  apply bind_Ok in Hi as ([a w1] & Ha & Hi).
  apply bind_Ok in Hi as ([a' w2] & Ha' & Hi).
  apply bind_Ok in Hi as (h3 & Hl1 & Hi).
  destruct (Critic.init cfg env (set_heap h3 w2)) as [c w3] eqn:Hc.
  destruct (Critic.init cfg env w3) as [c' w4] eqn:Hc'.
  apply bind_Ok in Hi as (h5 & Hl2 & Hi).
  apply bind_Ok in Hi as (m & Hm & Hi).
  injection Hi as <- <-.
  cbn [Agent.actor Agent.actor_target Agent.critic Agent.critic_target].
  split; [by exists w, w1|]. split; [by exists w1, w2|].
  split; [by exists (set_heap h3 w2), w3 | by exists w3, w4].
Qed.

Lemma shapes_kept_read (h h' : gmap nat tensor) (ps : list nat) :
  shapes_kept h h' → map length (read h' ps) = map length (read h ps).
Proof.
  intros Hk. unfold read. rewrite !map_map. apply map_ext. intros l. apply Hk.
Qed.

(** X10: the shapes of what the networks of an agent return, right after
    construction and for as long as the parameter tensors keep their shapes
    (as they do under [learn]), on rows of the widths the networks were
    built for: the actor and the target actor map a batch of observations
    to one action per observation, each with one entry per action
    dimension; on a batch of observations and as many actions, each
    estimate of the critic and of the target critic has one value per row
    of the batch. *)
Theorem network_output_shapes `{Backend} (cfg : Config) (env : Env)
  (w w' : World) (ag : Agent.t) (h : gmap nat tensor) :
  Agent.init cfg env w = Ok (ag, w') →
  shapes_kept (heap w') h →
  ∀ x,
    Forall (λ r, length r = flatdim (observation_space env)) x →
    (∀ actor, actor = Agent.actor ag ∨ actor = Agent.actor_target ag →
       length (Actor.forward h actor x) = length x
       ∧ Forall (λ r, length r = flatdim (action_space env))
           (Actor.forward h actor x))
    ∧ (∀ critic a,
         critic = Agent.critic ag ∨ critic = Agent.critic_target ag →
         length a = length x →
         Forall (λ r, length r = flatdim (action_space env)) a →
         length (Critic.Q1 h critic x a) = length x
         ∧ length (Critic.Q2 h critic x a) = length x).
Proof.
  intros Hi Hk x _.
  pose proof (Agent_init_store _ _ _ _ _ Hi)
    as (_ & _ & _ & Hsa & Hsa' & Hsc & Hsc').
  apply Agent_init_parts in Hi
    as ((wa & wa' & Ha) & (wb & wb' & Ha') & (wc & wc' & Hc) & (wd & wd' & Hc')).
  cbv zeta in *.
  rewrite <- (shapes_kept_read _ _ (Actor.parameters (Agent.actor ag)) Hk)
    in Hsa.
  rewrite <- (shapes_kept_read _ _ (Actor.parameters (Agent.actor_target ag)) Hk)
    in Hsa'.
  rewrite <- (shapes_kept_read _ _ (Critic.parameters (Agent.critic ag)) Hk)
    in Hsc.
  rewrite <- (shapes_kept_read _ _ (Critic.parameters (Agent.critic_target ag)) Hk)
    in Hsc'.
  split.
  - intros actor [->| ->]; (split; [apply length_map|]);
      apply Forall_map, Forall_forall; intros r _;
      by eapply Actor_forward_row_length.
  - intros critic a Hor Hlen _.
    destruct Hor as [->| ->].
    + destruct (Critic_forward_length cfg env wc wc' _ h x a Hc Hsc) as [-> ->].
      split; lia.
    + destruct (Critic_forward_length cfg env wd wd' _ h x a Hc' Hsc') as [-> ->].
      split; lia.
Qed.

(** ** Acting *)


(** ** Learning: errors, frame, invariants *)

(** X15: [learn] cannot return without an iteration.  With [T <= 0] the loop
    body never runs, [actor_grad_norm] is not bound when the result is
    assembled, and the call raises [UnboundLocalError]. *)
Theorem learn_without_iteration `{Backend} (describe : list R → string)
  (ag : Agent.t) (replay : Replay) (T : Z) (w : World) :
  (int64_min ≤ T ≤ 0)%Z →
  Agent.learn describe ag replay T w
  = Raise (UnboundLocalError "actor_grad_norm").
Proof.
  intros HT. unfold Agent.learn.
  replace (Z.to_nat T) with 0%nat by lia.
  cbn [Agent.for_range bind]. unfold iadd64.
  rewrite bool_decide_eq_true_2 by (unfold int64_max, int64_min in *; lia).
  reflexivity.
Qed.


Lemma sum_nonneg (l : list R) : Forall (λ x, 0 <= x) l → 0 <= torch.sum l.
Proof.
  unfold torch.sum. induction 1 as [|x l Hx _ IH]; simpl in *; lra.
Qed.

Lemma mean_nonneg (l : list R) : Forall (λ x, 0 <= x) l → 0 <= torch.mean l.
Proof.
  intros Hl. unfold torch.mean, Rdiv. destruct l as [|x l].
  - simpl. lra.
  - apply Rmult_le_pos; [by apply sum_nonneg|].
    left. apply Rinv_0_lt_compat, lt_0_INR. simpl. lia.
Qed.

Lemma mse_loss_nonneg (input target : list R) :
  0 <= torch.mse_loss input target.
Proof.
  unfold torch.mse_loss. apply mean_nonneg. revert target.
  induction input as [|x input IH]; intros [|y target]; simpl;
    try by constructor.
  constructor; [|apply IH].
  pose proof (Rle_0_sqr (x - y)) as Hsq. unfold Rsqr in Hsq. exact Hsq.
Qed.

Lemma update_critic_loss `{Backend} (ag ag' : Agent.t) (replay : Replay)
  (w w' : World) (s : Samples) (cl cgn : R) (Qs1 Qs2 : list R) :
  Agent.update_critic ag replay w = (ag', s, (cl, cgn, Qs1, Qs2), w') →
  0 <= cl.
Proof.
  unfold Agent.update_critic.
  destruct (replay_sample _ _ (rng w)) as [s0 g].
  destruct (Agent.targets_of ag s0 (set_rng g w)) as [targets w1].
  cbn [Critic.forward].
  destruct (clip_grad_norm_ _ _) as [grads n].
  destruct (Optimizer.step _ grads w1) as [o w2].
  intros [= _ _ <- _ _ _ _].
  apply Rplus_le_le_0_compat; apply mse_loss_nonneg.
Qed.

Lemma learn_iteration_losses `{Backend} (replay : Replay) (i : Z)
  (ag ag' : Agent.t) (l l' : Agent.Locals) (w w' : World) :
  Agent.learn_iteration replay i (ag, l, w) = Ok (ag', l', w') →
  Forall (λ x, 0 <= x) (Agent.list_critic_loss l) →
  Forall (λ x, 0 <= x) (Agent.list_critic_loss l').
Proof.
  unfold Agent.learn_iteration. intros Hi Hl.
  destruct (Agent.update_critic ag replay w)
    as [[[ag1 s] [[[cl cgn] Qs1] Qs2]] w1] eqn:Hc.
  apply update_critic_loss in Hc.
  apply bind_Ok in Hi as (delayed & _ & Hi).
  destruct delayed.
  - destruct (Agent.update_actor ag1 s w1) as [[ag2 [al agn]] w2].
    injection Hi as _ <- _. cbn. apply Forall_app. split; [done|].
    by constructor.
  - injection Hi as _ <- _. cbn. apply Forall_app. split; [done|].
    by constructor.
Qed.

Lemma learn_loop_losses `{Backend} (replay : Replay) (n : nat) (i0 : Z)
  (ag ag' : Agent.t) (l l' : Agent.Locals) (w w' : World) :
  Agent.for_range n i0 (Agent.learn_iteration replay) (ag, l, w)
  = Ok (ag', l', w') →
  Forall (λ x, 0 <= x) (Agent.list_critic_loss l) →
  Forall (λ x, 0 <= x) (Agent.list_critic_loss l').
Proof.
  revert i0 ag l w. induction n as [|n IH]; intros i0 ag l w.
  - by intros [= <- <- <-].
  - cbn [Agent.for_range]. intros Hl Hnn.
    apply bind_Ok in Hl as ([[ag1 l1] w1] & Hi & Hl).
    eapply IH; [exact Hl|]. by eapply learn_iteration_losses.
Qed.

Lemma agent_wf_online_separate `{Backend} (ag : Agent.t) (p : nat) :
  agent_wf ag →
  p ∈ Actor.parameters (Agent.actor ag) →
  p ∉ Critic.parameters (Agent.critic ag).
Proof.
  intros (Hnd & _) Hin Hin'.
  apply NoDup_app in Hnd as (_ & Hdisj & _).
  apply (Hdisj p Hin). rewrite !elem_of_app. tauto.
Qed.

(** One iteration on the store: no tensor is created, only tensors of the
    agent are written, and outside the delayed branch only those of the
    online critic. *)
Lemma learn_iteration_frame `{Backend} (replay : Replay) (i : Z)
  (ag ag' : Agent.t) (l l' : Agent.Locals) (w w' : World) :
  agent_wf ag →
  Agent.learn_iteration replay i (ag, l, w) = Ok (ag', l', w') →
  same_structure ag ag'
  ∧ next_loc w' = next_loc w
  ∧ (∀ p, p ∉ online_parameters ag ++ target_parameters ag →
          heap w' !! p = heap w !! p)
  ∧ ((i mod agent_policy_delay (Agent.config ag))%Z ≠ 0%Z →
     (∀ p, p ∉ Critic.parameters (Agent.critic ag) →
           heap w' !! p = heap w !! p)
     ∧ Agent.list_actor_loss l' = Agent.list_actor_loss l
     ∧ Agent.actor_grad_norm l' = Agent.actor_grad_norm l).
Proof.
  intros Hwf Hi. unfold Agent.learn_iteration in Hi.
  destruct (Agent.update_critic ag replay w)
    as [[[ag1 s] [[[cl cgn] Qs1] Qs2]] w1] eqn:Hc.
  apply update_critic_frame in Hc as (Hs1 & _ & Hf1 & _ & Hn1).
  pose proof Hwf as (_ & _ & _ & Hoa & Hoc & _).
  rewrite Hoc in Hf1.
  pose proof Hs1 as (Hcfg & _ & _ & _ & _ & _ & Hpa & _).
  apply bind_Ok in Hi as (delayed & Hdiv & Hi).
  rewrite Hcfg in Hdiv. unfold Agent.divides_index in Hdiv.
  case_bool_decide as Hz; [done|]. injection Hdiv as <-.
  destruct (i mod agent_policy_delay (Agent.config ag) =? 0)%Z eqn:Hmod.
  - destruct (Agent.update_actor ag1 s w1) as [[ag2 [al agn]] w2] eqn:Ha.
    apply update_actor_frame in Ha as (Hs2 & _ & Hf2 & _ & Hn2).
    rewrite Hpa, Hoa in Hf2.
    injection Hi as <- <- <-. cbn [log heap next_loc].
    pose proof (same_structure_trans _ _ _ Hs1 Hs2) as Hs12.
    rewrite (polyak_update_target_structure ag ag2 w2 Hs12).
    destruct (polyak_update_target_read ag w2 Hwf)
      as (_ & _ & Hf3 & _ & _ & Hn3).
    split; [done|]. split; [by rewrite Hn3, Hn2, Hn1|]. split.
    + intros p Hp. unfold online_parameters in Hp.
      rewrite !elem_of_app in Hp.
      rewrite Hf3, Hf2, Hf1; [done|tauto|tauto|tauto].
    + intros Hne. apply Z.eqb_eq in Hmod. done.
  - injection Hi as <- <- <-. split; [done|]. split; [done|]. split.
    + intros p Hp. apply Hf1. unfold online_parameters in Hp.
      rewrite !elem_of_app in Hp. tauto.
    + intros _. by split.
Qed.

Lemma learn_loop_frame `{Backend} (replay : Replay) (n : nat) (i0 : Z)
  (ag ag' : Agent.t) (l l' : Agent.Locals) (w w' : World) :
  agent_wf ag →
  Agent.for_range n i0 (Agent.learn_iteration replay) (ag, l, w)
  = Ok (ag', l', w') →
  same_structure ag ag'
  ∧ next_loc w' = next_loc w
  ∧ (∀ p, p ∉ online_parameters ag ++ target_parameters ag →
          heap w' !! p = heap w !! p).
Proof.
  revert i0 ag l w. induction n as [|n IH]; intros i0 ag l w Hwf.
  - intros [= <- <- <-]. split; [apply same_structure_refl|done].
  - cbn [Agent.for_range]. intros Hl.
    apply bind_Ok in Hl as ([[ag1 l1] w1] & Hi & Hl).
    apply learn_iteration_frame in Hi as (Hs1 & Hn1 & Hf1 & _); [|done].
    apply IH in Hl as (Hs2 & Hn2 & Hf2); [|by eapply same_structure_wf].
    destruct (same_structure_targets _ _ Hs1) as [Ht Ho].
    rewrite Ht, Ho in Hf2.
    split; [by eapply same_structure_trans|]. split; [congruence|].
    intros p Hp. by rewrite Hf2, Hf1.
Qed.

(** X18: [learn] works in place on the agent's own networks.  A call that
    returns has created no tensor and has written no tensor other than the
    parameters of the agent's four networks; the agent it returns has the
    same networks, optimizer parameter groups, configuration and action
    bound. *)
Theorem learn_writes_own_parameters_only `{Backend} (describe : list R → string)
  (ag ag' : Agent.t) (replay : Replay) (T : Z) (w w' : World) (out : Agent.Out) :
  agent_wf ag →
  Agent.learn describe ag replay T w = Ok (out, ag', w') →
  same_structure ag ag'
  ∧ next_loc w' = next_loc w
  ∧ (∀ p, p ∉ online_parameters ag ++ target_parameters ag →
          heap w' !! p = heap w !! p).
Proof.
  intros Hwf Hl. unfold Agent.learn in Hl.
  apply bind_Ok in Hl as ([[ag1 l1] w1] & Hloop & Hl).
  apply bind_Ok in Hl as (n & _ & Hl).
  apply bind_Ok in Hl as (agn & _ & Hl).
  apply bind_Ok in Hl as (cgn & _ & Hl).
  injection Hl as _ <- <-.
  apply learn_loop_frame in Hloop as (Hs & Hn & Hf); [|done].
  split; [|by split].
  destruct Hs as (?&?&?&?&?&?&?&?&?). by repeat split.
Qed.

(** X19: between two delayed iterations the policy is frozen.  An iteration
    with [i % policy_delay != 0] writes parameters of the online critic
    only: the online actor computes the same actions after it as before, and
    no actor loss or actor gradient norm is recorded. *)
Theorem learn_iteration_not_delayed `{Backend} (replay : Replay) (i : Z)
  (ag ag' : Agent.t) (l l' : Agent.Locals) (w w' : World) :
  agent_wf ag →
  Agent.learn_iteration replay i (ag, l, w) = Ok (ag', l', w') →
  (i mod agent_policy_delay (Agent.config ag))%Z ≠ 0%Z →
  (∀ p, p ∉ Critic.parameters (Agent.critic ag) → heap w' !! p = heap w !! p)
  ∧ (∀ x, Actor.forward (heap w') (Agent.actor ag') x
          = Actor.forward (heap w) (Agent.actor ag) x)
  ∧ Agent.list_actor_loss l' = Agent.list_actor_loss l
  ∧ Agent.actor_grad_norm l' = Agent.actor_grad_norm l.
Proof.
  intros Hwf Hi Hne.
  apply learn_iteration_frame in Hi as (Hs & _ & _ & Hnd); [|done].
  destruct (Hnd Hne) as (Hf & Hal & Hagn).
  split; [done|]. split; [|done].
  intros x. destruct Hs as (_ & _ & -> & _).
  apply Actor_forward_ext. intros p Hp. apply Hf.
  by apply agent_wf_online_separate.
Qed.

(** X20: [learn] keeps what [__init__] establishes.  On an agent with the
    structure [__init__] builds and target tensors of the shapes of the
    online tensors, a call that returns leaves every tensor of the store
    with its shape and returns an agent of the same structure, so that
    [learn] and [choose_action] can be called again. *)
Theorem learn_keeps_shapes `{Backend} (describe : list R → string)
  (ag ag' : Agent.t) (replay : Replay) (T : Z) (w w' : World) (out : Agent.Out) :
  agent_wf ag →
  same_shapes (heap w) (online_parameters ag) (target_parameters ag) →
  Agent.learn describe ag replay T w = Ok (out, ag', w') →
  shapes_kept (heap w) (heap w')
  ∧ agent_wf ag'
  ∧ same_shapes (heap w') (online_parameters ag') (target_parameters ag').
Proof.
  intros Hwf Hsh Hl.
  split; [|by eapply learn_keeps_invariants].
  unfold Agent.learn in Hl.
  apply bind_Ok in Hl as ([[ag1 l1] w1] & Hloop & Hl).
  apply bind_Ok in Hl as (n & _ & Hl).
  apply bind_Ok in Hl as (agn & _ & Hl).
  apply bind_Ok in Hl as (cgn & _ & Hl).
  injection Hl as _ _ <-.
  by eapply learn_loop_shapes.
Qed.

(** ** The runner without a step *)

Section RunnerEdge.
Context {A E Obs : Type} `{!BaseAgent A Obs, !VecEnv E Obs}.

(** X21: a rollout with [T <= 0] takes no step.  The environment and the
    agent are reset, the agent is never asked for an action, and the
    trajectory batch holds the observation of the reset and nothing
    else. *)
Theorem call_without_step (self : EpisodeRunner.t A E) (T : Z)
  (st0 : EpisodeRunner.t A E * Obs * BatchEpisode.t Obs) :
  (T ≤ 0)%Z →
  EpisodeRunner.start self = Ok st0 →
  EpisodeRunner.call self T = Ok (st0.2, st0.1.1)
  ∧ BatchEpisode.T st0.2 = 0%nat
  ∧ length (BatchEpisode.observations st0.2) = 1%nat
  ∧ BatchEpisode.rewards st0.2 = []
  ∧ BatchEpisode.dones st0.2 = []
  ∧ BatchEpisode.completes st0.2
    = replicate (num_env (EpisodeRunner.env self)) false.
Proof.
  intros HT Hstart. unfold EpisodeRunner.call. rewrite Hstart. cbn [bind].
  replace (Z.to_nat T) with 0%nat by lia. cbn [EpisodeRunner.loop bind].
  apply start_fields in Hstart as (Ho & Ha & Hr & Hd & _ & _ & Hc).
  destruct st0 as [[self0 obs0] D0]. cbn [fst snd] in *.
  unfold BatchEpisode.T. rewrite Ha. by repeat split.
Qed.

End RunnerEdge.

(** ** The further properties on the test doubles *)

Lemma step_with_action_key_witness :
  ∃ D',
    EpisodeRunner.step
      (demo_runner, [] : list R,
       BatchEpisode.add_observation [] (BatchEpisode.init 1))
    = Ok ({| EpisodeRunner.config := demo_config;
             EpisodeRunner.agent := {| constant_action := [0] |};
             EpisodeRunner.env := {| done_at := 3; steps_taken := 1 |} |},
          [], D')
    ∧ BatchEpisode.actions D' = [PyArray [0]].
Proof.
  destruct (step_with_action_key demo_runner ([] : list R) []
              (BatchEpisode.add_observation [] (BatchEpisode.init 1))
              {[ "action" := PyArray [0] ]} {| constant_action := [0] |}
              (PyArray [0]) (PyDict []) [0] [false]
              {| done_at := 3; steps_taken := 1 |})
    as (D' & Hs & Ha & _).
  - reflexivity.
  - reflexivity.
  - reflexivity.
  - simpl. lia.
  - exists D'. split; [exact Hs | exact Ha].
Defined.

Lemma call_record_lengths_witness :
  ∃ D self',
    EpisodeRunner.call (Obs := list R) demo_runner 5 = Ok (D, self')
    ∧ length (BatchEpisode.observations D) = S (BatchEpisode.T D)
    ∧ length (BatchEpisode.rewards D) = BatchEpisode.T D.
Proof.
  destruct (EpisodeRunner.call (Obs := list R) demo_runner 5)
    as [[D self']|e] eqn:Hc; [|vm_compute in Hc; discriminate Hc].
  exists D, self'. split; [reflexivity|].
  destruct (call_record_lengths demo_runner self' 5 D Hc) as (Ho & Hr & _).
  split; [exact Ho | exact Hr].
Defined.

Lemma call_aborts_on_error_witness :
  EpisodeRunner.call (Obs := list R) broken_runner 5
  = Raise (RuntimeError "boom").
Proof.
  apply (proj2 (proj2 (call_aborts_on_error (Obs := list R) broken_runner 5
                         (RuntimeError "boom")))
           (broken_runner, [],
            BatchEpisode.add_observation [] (BatchEpisode.init 1))
           0%nat
           (broken_runner, [],
            BatchEpisode.add_observation [] (BatchEpisode.init 1))).
  - reflexivity.
  - lia.
  - reflexivity.
  - intros j stj Hj. lia.
  - reflexivity.
Defined.

Lemma call_missing_action_key_witness :
  EpisodeRunner.call (Obs := list R) raw_runner 5 = Raise (KeyError "action").
Proof.
  apply (call_missing_action_key (Obs := list R) raw_runner 5
           (raw_runner, [],
            BatchEpisode.add_observation [] (BatchEpisode.init 1))
           {[ "raw_action" := PyArray [0] ]} {| raw_action := [0] |}).
  - lia.
  - reflexivity.
  - reflexivity.
  - reflexivity.
Defined.

Lemma call_completes_iff_done_witness :
  ∃ D self',
    EpisodeRunner.call (Obs := list R) demo_runner 5 = Ok (D, self')
    ∧ (BatchEpisode.completes D !! 0%nat = Some true
       ↔ (0 < 1)%nat
         ∧ ∃ j d, BatchEpisode.dones D !! j = Some d ∧ d !! 0%nat = Some true).
Proof.
  destruct (EpisodeRunner.call (Obs := list R) demo_runner 5)
    as [[D self']|e] eqn:Hc; [|vm_compute in Hc; discriminate Hc].
  exists D, self'. split; [reflexivity|].
  exact (call_completes_iff_done demo_runner self' 5 D 0 Hc).
Defined.

Lemma call_without_step_witness :
  ∃ D self',
    EpisodeRunner.call (Obs := list R) demo_runner 0 = Ok (D, self')
    ∧ BatchEpisode.T D = 0%nat.
Proof.
  destruct (call_without_step (Obs := list R) demo_runner 0
              (demo_runner, [],
               BatchEpisode.add_observation [] (BatchEpisode.init 1)))
    as (Hc & HT & _).
  - lia.
  - reflexivity.
  - eexists _, _. split; [exact Hc | exact HT].
Defined.

Lemma Actor_init_errors_witness :
  Actor.init demo_config lopsided_env demo_world = Raise AssertionError.
Proof.
  pose proof (Actor_init_errors demo_config lopsided_env demo_world) as He.
  cbv zeta in He. destruct He as (_ & _ & He).
  apply (He 2 (-1)).
  - discriminate.
  - repeat constructor.
  - discriminate.
  - repeat constructor.
  - lra.
Defined.


Lemma Agent_init_allocates_networks_witness :
  ∃ ag w,
    Agent.init demo_config demo_env demo_world = Ok (ag, w)
    ∧ next_loc w = 36%nat.
Proof.
  destruct demo_agent_exists as (ag & w & Hi & _).
  exists ag, w. split; [exact Hi|].
  pose proof (Agent_init_allocates_networks _ _ _ _ _ Hi) as Ha.
  cbv zeta in Ha. exact (proj1 Ha).
Defined.

Lemma Critic_estimates_independent_witness :
  ∃ c w',
    Critic.init demo_config demo_env demo_world = (c, w')
    ∧ ∀ h vs x a,
        Critic.Q2
          (write (layers_parameters (Critic.first_feature_layers c)
                  ++ Linear.parameters (Critic.first_Q_head c)) vs h) c x a
        = Critic.Q2 h c x a.
Proof.
  destruct (Critic.init demo_config demo_env demo_world) as [c w'] eqn:Hc.
  exists c, w'. split; [reflexivity|].
  pose proof (Critic_estimates_independent _ _ _ _ _ Hc) as Hind.
  cbv zeta in Hind. destruct Hind as (_ & _ & Hind).
  intros h vs x a. exact (proj2 (Hind h vs x a)).
Defined.

Lemma network_output_shapes_witness :
  ∃ ag w,
    Agent.init demo_config demo_env demo_world = Ok (ag, w)
    ∧ length (Actor.forward (heap w) (Agent.actor ag) [[0]]) = 1%nat.
Proof.
  destruct demo_agent_exists as (ag & w & Hi & _).
  exists ag, w. split; [exact Hi|].
  destruct (network_output_shapes _ _ _ _ _ (heap w) Hi
              (shapes_kept_refl (heap w)) [[0]]) as [Ha _].
  { repeat constructor. }
  exact (proj1 (Ha (Agent.actor ag) (or_introl eq_refl))).
Defined.

Lemma learn_without_iteration_witness :
  ∃ (ag : @Agent.t still_backend) w,
    Agent.init demo_config demo_env demo_world = Ok (ag, w)
    ∧ Agent.learn (H := still_backend) (λ _, EmptyString) ag tt 0 w
      = Raise (UnboundLocalError "actor_grad_norm").
Proof.
  destruct demo_agent_exists as (ag & w & Hi & _).
  exists ag, w. split; [exact Hi|].
  apply (learn_without_iteration (H := still_backend)).
  unfold int64_min. lia.
Defined.


Lemma learn_writes_own_parameters_only_witness :
  ∃ (ag : @Agent.t still_backend) w out ag' w',
    Agent.init demo_config demo_env demo_world = Ok (ag, w)
    ∧ Agent.learn (H := still_backend) (λ _, EmptyString) ag tt 4 w
      = Ok (out, ag', w')
    ∧ next_loc w' = next_loc w.
Proof.
  destruct demo_agent_exists as (ag & w & Hi & _).
  pose proof (Agent_init_Ok _ _ _ _ _ Hi) as (Hwf & Hc & _).
  assert (Hd : agent_policy_delay (Agent.config ag) ≠ 0%Z).
  { rewrite Hc. discriminate. }
  assert (HT : (1 ≤ 4 ≤ int64_max)%Z) by (unfold int64_max; lia).
  destruct (learn_Ok (H := still_backend) (λ _, EmptyString) ag tt 4 w HT Hd)
    as (out & ag' & w' & Hl & _).
  exists ag, w, out, ag', w'. split; [exact Hi|]. split; [exact Hl|].
  exact (proj1 (proj2 (learn_writes_own_parameters_only (H := still_backend)
                         _ _ _ _ _ _ _ _ Hwf Hl))).
Defined.

Lemma learn_iteration_not_delayed_witness :
  ∃ (ag : @Agent.t still_backend) w ag' l' w',
    Agent.init demo_config demo_env demo_world = Ok (ag, w)
    ∧ Agent.learn_iteration (H := still_backend) tt 1
        (ag, {| Agent.list_actor_loss := []; Agent.list_critic_loss := [];
                Agent.Q1_vals := []; Agent.Q2_vals := [];
                Agent.actor_grad_norm := None;
                Agent.critic_grad_norm := None |}, w)
      = Ok (ag', l', w')
    ∧ Agent.list_actor_loss l' = [].
Proof.
  destruct demo_agent_exists as (ag & w & Hi & _).
  pose proof (Agent_init_Ok _ _ _ _ _ Hi) as (Hwf & Hc & _).
  assert (Hd : agent_policy_delay (Agent.config ag) ≠ 0%Z).
  { rewrite Hc. discriminate. }
  destruct (learn_iteration_Ok (H := still_backend) tt 1 ag
              {| Agent.list_actor_loss := []; Agent.list_critic_loss := [];
                 Agent.Q1_vals := []; Agent.Q2_vals := [];
                 Agent.actor_grad_norm := None;
                 Agent.critic_grad_norm := None |} w Hd)
    as (ag' & l' & w' & Hl & _).
  exists ag, w, ag', l', w'. split; [exact Hi|]. split; [exact Hl|].
  destruct (learn_iteration_not_delayed (H := still_backend) _ _ _ _ _ _ _ _
              Hwf Hl) as (_ & _ & Hal & _).
  - rewrite Hc. discriminate.
  - exact Hal.
Defined.

Lemma learn_keeps_shapes_witness :
  ∃ (ag : @Agent.t still_backend) w out ag' w',
    Agent.init demo_config demo_env demo_world = Ok (ag, w)
    ∧ Agent.learn (H := still_backend) (λ _, EmptyString) ag tt 4 w
      = Ok (out, ag', w')
    ∧ shapes_kept (heap w) (heap w').
Proof.
  destruct demo_agent_exists as (ag & w & Hi & _).
  pose proof (Agent_init_Ok _ _ _ _ _ Hi) as (Hwf & Hc & _).
  assert (Hd : agent_policy_delay (Agent.config ag) ≠ 0%Z).
  { rewrite Hc. discriminate. }
  assert (HT : (1 ≤ 4 ≤ int64_max)%Z) by (unfold int64_max; lia).
  destruct (learn_Ok (H := still_backend) (λ _, EmptyString) ag tt 4 w HT Hd)
    as (out & ag' & w' & Hl & _).
  exists ag, w, out, ag', w'. split; [exact Hi|]. split; [exact Hl|].
  exact (proj1 (learn_keeps_shapes (H := still_backend) _ _ _ _ _ _ _ _ Hwf
                  (Agent_init_same_shapes _ _ _ _ _ Hi) Hl)).
Defined.

(** * The checked forward pass and [choose_action] *)

Lemma Linear_call_Ok (h : gmap nat tensor) (l : Linear.t) (x y : list R) :
  Linear.call h l x = Ok y →
  y = Linear.forward h l x ∧ length x = Linear.in_features l.
Proof.
  unfold Linear.call. case_bool_decide as Hw; [|discriminate].
  by intros [= <-].
Qed.

Lemma Linear_call_width (h : gmap nat tensor) (l : Linear.t) (x : list R) :
  length x = Linear.in_features l →
  Linear.call h l x = Ok (Linear.forward h l x).
Proof. intros Hw. unfold Linear.call. by rewrite bool_decide_eq_true_2. Qed.

Lemma feature_call_Ok (h : gmap nat tensor) (ls : list Linear.t)
  (x y : list R) :
  feature_call h ls x = Ok y → y = feature_forward h ls x.
Proof.
  revert x. induction ls as [|l ls IH]; intros x; simpl.
  - by intros [= <-].
  - intros Hc. apply bind_Ok in Hc as (z & Hz & Hc).
    apply Linear_call_Ok in Hz as [-> _]. by apply IH in Hc.
Qed.

(** When the checked pass returns, it returns the value of the forward
    pass. *)
Lemma Actor_call_row_Ok (h : gmap nat tensor) (a : Actor.t) (x y : list R) :
  Actor.call_row h a x = Ok y → y = Actor.forward_row h a x.
Proof.
  unfold Actor.call_row, Actor.forward_row. intros Hc.
  apply bind_Ok in Hc as (z & Hz & Hc).
  apply bind_Ok in Hc as (u & Hu & Hc).
  apply feature_call_Ok in Hz as ->. apply Linear_call_Ok in Hu as [-> _].
  by injection Hc as <-.
Qed.

Lemma call_actor_one (h : gmap nat tensor) (a : Actor.t) (x : list R)
  (rows : list (list R)) :
  Agent.call_actor h a [x] = Ok rows →
  Actor.call_row h a x = Ok (Actor.forward_row h a x)
  ∧ rows = [Actor.forward_row h a x].
Proof.
  cbn [Agent.call_actor]. intros Hc.
  apply bind_Ok in Hc as (y & Hy & Hc). cbn [bind] in Hc.
  pose proof (Actor_call_row_Ok _ _ _ _ Hy) as ->.
  by injection Hc as <-.
Qed.

Lemma six_inj {X : Type} (a b c d e f a' b' c' d' e' f' : X) :
  [a; b; c; d; e; f] = [a'; b'; c'; d'; e'; f'] → b = b' ∧ d = d' ∧ f = f'.
Proof. by intros [= _ -> _ -> _ ->]. Qed.

(** The checked pass of a constructed actor: it returns on the rows that
    have one entry per observation dimension and raises on every other. *)
Lemma Actor_call_row_init `{Backend} (cfg : Config) (env : Env)
  (w0 w1 : World) (a : Actor.t) (h : gmap nat tensor) (x : list R) :
  Actor.init cfg env w0 = Ok (a, w1) →
  map length (read h (Actor.parameters a)) = actor_shapes env →
  Actor.call_row h a x
  = if bool_decide (length x = flatdim (observation_space env))
    then Ok (Actor.forward_row h a x)
    else Raise (RuntimeError "mat1 and mat2 shapes cannot be multiplied").
Proof.
  intros Hi Hsh.
  apply Actor_init_Ok in Hi as (_ & _ & _ & w' & Hfc & Hah).
  cbn [make_fc] in Hfc.
  destruct (Linear.init (flatdim (observation_space env)) 400 w0)
    as [l1 wa] eqn:H1.
  destruct (Linear.init 400 300 wa) as [l2 wb] eqn:H2.
  injection Hfc as Hfl _.
  apply Linear_init_fields in H1 as [Hi1 Ho1], H2 as [Hi2 Ho2],
    Hah as [Hi3 Ho3].
  unfold Actor.parameters, layers_parameters in Hsh. rewrite <- Hfl in Hsh.
  unfold actor_shapes in Hsh.
  cbn [map concat app Linear.parameters read fc_shapes] in Hsh.
  apply six_inj in Hsh as (Hb1 & Hb2 & Hb3).
  unfold Actor.call_row, Actor.forward_row, feature_forward.
  rewrite <- Hfl. cbn [feature_call foldl].
  unfold Linear.call at 1. rewrite Hi1.
  case_bool_decide as Hw; [|reflexivity]. cbn [bind].
  rewrite Linear_call_width; cbn [bind].
  2:{ unfold torch.relu. rewrite length_map, Linear_forward_length; [lia|].
      by rewrite Hb1, Ho1. }
  rewrite Linear_call_width; [reflexivity|].
  unfold torch.relu. rewrite length_map, Linear_forward_length; [lia|].
  by rewrite Hb2, Ho2.
Qed.

(** What [choose_action] returns, when it returns. *)
Lemma choose_action_raw_action `{Backend} (ag : Agent.t) (x : TimeStep)
  (kwargs : gmap string pyval) (w w' : World) (out : gmap string pyval) :
  Agent.choose_action ag x kwargs w = Ok (out, w') →
  ∃ mode a,
    kwargs !! "mode" = Some mode
    ∧ out = {[ "raw_action" := PyArray a ]}
    ∧ trace w' = trace w ∧ heap w' = heap w ∧ next_loc w' = next_loc w
    ∧ Actor.call_row (heap w) (Agent.actor ag) (observation x)
      = Ok (Actor.forward_row (heap w) (Agent.actor ag) (observation x))
    ∧ let action :=
        Actor.forward_row (heap w) (Agent.actor ag) (observation x) in
      if eq_str mode "train" then
        ∃ eps, length eps = length action
               ∧ a = np.clip (vadd action eps)
                       (low (action_space (Agent.env ag)))
                       (high (action_space (Agent.env ag)))
      else w' = w ∧ a = action.
Proof.
  unfold Agent.choose_action, Agent.unsqueeze0. intros Hc.
  apply bind_Ok in Hc as (rows & Hrows & Hc).
  apply call_actor_one in Hrows as [Hrow ->].
  unfold Agent.squeeze0 in Hc. cbn [concat] in Hc. rewrite app_nil_r in Hc.
  apply bind_Ok in Hc as (mode & Hmode & Hc).
  unfold getitem in Hmode.
  destruct (kwargs !! "mode") as [v|] eqn:Hk; [|discriminate].
  injection Hmode as ->. exists mode.
  destruct (eq_str mode "train").
  - unfold fill_like in Hc.
    pose proof
      (draws_length
         (length (Actor.forward_row (heap w) (Agent.actor ag) (observation x)))
         (normal_sample 0 (agent_action_noise (Agent.config ag))) (rng w))
      as Hlen.
    destruct (draws _ _ (rng w)) as [eps g]. injection Hc as <- <-.
    eexists. repeat split; [exact Hrow|].
    exists eps. split; [exact Hlen | reflexivity].
  - injection Hc as <- <-. eexists. repeat split. exact Hrow.
Qed.

(** [choose_action] on an observation on which the actor returns. *)
Lemma choose_action_total `{Backend} (ag : Agent.t) (x : TimeStep)
  (kwargs : gmap string pyval) (w : World) (mode : pyval) (y : list R) :
  Actor.call_row (heap w) (Agent.actor ag) (observation x) = Ok y →
  kwargs !! "mode" = Some mode →
  ∃ out w', Agent.choose_action ag x kwargs w = Ok (out, w').
Proof.
  intros Hy Hk. unfold Agent.choose_action, Agent.unsqueeze0, getitem.
  cbn [Agent.call_actor]. rewrite Hy. cbn [bind]. rewrite Hk. cbn [bind].
  destruct (eq_str mode "train"); [|eauto].
  destruct (fill_like _ _ (rng w)) as [eps g]. eauto.
Qed.

(** [choose_action] without a ['mode']: the forward pass comes first, then
    [kwargs['mode']]. *)
Lemma choose_action_no_mode `{Backend} (ag : Agent.t) (x : TimeStep)
  (kwargs : gmap string pyval) (w : World) :
  kwargs !! "mode" = None →
  Agent.choose_action ag x kwargs w
  = match Actor.call_row (heap w) (Agent.actor ag) (observation x) with
    | Ok _ => Raise (KeyError "mode")
    | Raise e => Raise e
    end.
Proof.
  intros Hk. unfold Agent.choose_action, Agent.unsqueeze0, getitem.
  cbn [Agent.call_actor].
  destruct (Actor.call_row _ _ _) as [y|e]; cbn [bind]; [|reflexivity].
  by rewrite Hk.
Qed.


Lemma Agent_init_call_row `{Backend} (cfg : Config) (env : Env)
  (w0 w1 : World) (ag : Agent.t) (h : gmap nat tensor) (x : list R) :
  Agent.init cfg env w0 = Ok (ag, w1) →
  shapes_kept (heap w1) h →
  length x = flatdim (observation_space env) →
  Actor.call_row h (Agent.actor ag) x
  = Ok (Actor.forward_row h (Agent.actor ag) x)
  ∧ length (Actor.forward_row h (Agent.actor ag) x)
    = flatdim (action_space env).
Proof.
  intros Hi Hk Hw.
  pose proof (Agent_init_store _ _ _ _ _ Hi) as (_ & _ & _ & Hsa & _).
  apply Agent_init_parts in Hi as ((wa & wa' & Ha) & _).
  cbv zeta in Hsa.
  rewrite <- (shapes_kept_read _ _ (Actor.parameters (Agent.actor ag)) Hk)
    in Hsa.
  split.
  - rewrite (Actor_call_row_init cfg env wa wa' _ h x Ha Hsa).
    by rewrite bool_decide_eq_true_2.
  - exact (Actor_forward_row_length cfg env wa wa' _ h x Ha Hsa).
Qed.

(** * The bound on the actions *)

Lemma clamp1_abs (v m : R) : - Rabs m <= clamp1 v (- m) m <= Rabs m.
Proof.
  unfold clamp1, Rmin, Rmax, Rabs.
  destruct (Rcase_abs m); destruct (Rle_dec v (- m));
    destruct (Rle_dec _ m); lra.
Qed.

Lemma scaled_tanh_abs (m z : R) : - Rabs m <= m * tanh z <= Rabs m.
Proof.
  pose proof (tanh_bounds z). unfold Rabs. destruct (Rcase_abs m); nra.
Qed.

Lemma np_clip_abs (m : R) (a lo hi : list R) :
  Forall (eq (- m)) lo → Forall (eq m) hi → within (Rabs m) (np.clip a lo hi).
Proof.
  unfold np.clip, within. revert lo hi.
  induction a as [|v a IH]; intros lo hi Hlo Hhi; [constructor|].
  destruct lo as [|l lo]; [constructor|].
  destruct hi as [|h hi]; [constructor|].
  apply Forall_cons in Hlo as [<- Hlo]. apply Forall_cons in Hhi as [<- Hhi].
  simpl. constructor; [|by apply IH].
  apply clamp1_abs.
Qed.

Lemma next_actions_of_abs `{Backend} (ag : Agent.t) (s : Samples) (w : World) :
  Forall (within (Rabs (Agent.max_action ag))) (Agent.next_actions_of ag s w).1.
Proof.
  unfold Agent.next_actions_of.
  destruct (fill_like2 _ _ (rng w)) as [eps g]. cbn [fst].
  unfold torch.clamp. apply Forall_map, Forall_forall.
  intros r _. unfold within. apply Forall_map, Forall_forall.
  intros v _. apply clamp1_abs.
Qed.

Lemma choose_action_abs `{Backend} (ag : Agent.t) (x : TimeStep)
  (kwargs : gmap string pyval) (w w' : World) (out : gmap string pyval) :
  agent_wf ag →
  Agent.choose_action ag x kwargs w = Ok (out, w') →
  ∃ a, out !! "raw_action" = Some (PyArray a)
       ∧ within (Rabs (Agent.max_action ag)) a.
Proof.
  intros (_ & _ & _ & _ & _ & Hsym & Hma & _) Hc.
  apply choose_action_raw_action in Hc
    as (mode & a & _ & -> & _ & _ & _ & _ & Ha).
  exists a. split; [apply lookup_singleton_eq|].
  cbv zeta in Ha. destruct (eq_str mode "train").
  - destruct Ha as (eps & _ & ->).
    destruct Hsym as (_ & _ & Hhi & Hlo). by apply np_clip_abs.
  - destruct Ha as [_ ->]. rewrite <- Hma.
    unfold Actor.forward_row, within. apply Forall_map, Forall_forall.
    intros z _. apply scaled_tanh_abs.
Qed.

(** C1 (amended): every action [choose_action] returns, in train mode (noise
    added, then clipped to the bounds of the action space) and in any other
    mode (the scaled [tanh] alone), and every next-action computed in
    [learn], lies in [[-|max_action|, |max_action|]] entry by entry: in
    [[-max_action, max_action]] when [max_action >= 0], as the claim has
    it, and in [[max_action, -max_action]] when [max_action] is negative
    (an action space with its bounds swapped, which [Actor.__init__]
    accepts). *)
Theorem actions_within_max_action `{Backend} (ag : Agent.t) :
  agent_wf ag →
  (∀ x kwargs w out w',
     Agent.choose_action ag x kwargs w = Ok (out, w') →
     ∃ a, out !! "raw_action" = Some (PyArray a)
          ∧ within (Rabs (Agent.max_action ag)) a
          ∧ (0 <= Agent.max_action ag → within (Agent.max_action ag) a))
  ∧ (∀ s w,
       Forall (within (Rabs (Agent.max_action ag)))
         (Agent.next_actions_of ag s w).1
       ∧ (0 <= Agent.max_action ag →
          Forall (within (Agent.max_action ag))
            (Agent.next_actions_of ag s w).1)).
Proof.
  intros Hwf. split.
  - intros x kwargs w out w' Hc.
    destruct (choose_action_abs _ _ _ _ _ _ Hwf Hc) as (a & Ho & Ha).
    exists a. split; [done|]. split; [done|].
    intros Hm. by rewrite Rabs_right in Ha by lra.
  - intros s w. split; [apply next_actions_of_abs|].
    intros Hm. by apply next_actions_of_within.
Qed.

(** On the action space with swapped bounds the bound of the claim as it
    stands, [[-max_action, max_action]], is the empty interval [[2, -2]],
    and the action returned is outside of it. *)
Lemma actions_within_max_action_counterexample :
  ∃ ag w out w' a,
    Agent.init demo_config inverted_env demo_world = Ok (ag, w)
    ∧ Agent.max_action ag = -2
    ∧ Agent.choose_action ag {| observation := [0] |}
        {[ "mode" := PyStr "eval" ]} w
      = Ok (out, w')
    ∧ out !! "raw_action" = Some (PyArray a)
    ∧ ¬ within (Agent.max_action ag) a.
Proof.
  assert (Hsym : symmetric_uniform (action_space inverted_env) (-2)).
  { unfold symmetric_uniform, inverted_env. cbn [action_space low high].
    repeat split; try discriminate; repeat constructor; lra. }
  destruct (Agent_init_total demo_config inverted_env demo_world (-2) Hsym)
    as (ag & w & Hi & Hm).
  destruct (Agent_init_call_row _ _ _ _ _ (heap w) [0] Hi
              (shapes_kept_refl (heap w)) eq_refl) as [Hcall Hlen].
  destruct (choose_action_total ag {| observation := [0] |}
              {[ "mode" := PyStr "eval" ]} w (PyStr "eval") _ Hcall
              (lookup_singleton_eq _ _)) as (out & w' & Hc).
  pose proof (choose_action_raw_action _ _ _ _ _ _ Hc)
    as (mode & a & Hmode & Hout & _ & _ & _ & _ & Ha).
  rewrite lookup_singleton_eq in Hmode. injection Hmode as <-.
  cbv zeta in Ha. change (eq_str (PyStr "eval") "train") with false in Ha.
  cbn iota in Ha. destruct Ha as [_ Ha].
  exists ag, w, out, w', a. split; [exact Hi|]. split; [exact Hm|].
  split; [exact Hc|]. split; [rewrite Hout; apply lookup_singleton_eq|].
  rewrite Hm. intros Hin. cbn [observation] in Ha, Hlen.
  rewrite <- Ha in Hlen. destruct a as [|v a]; [discriminate Hlen|].
  apply Forall_cons in Hin as [Hv _]. lra.
Qed.

Lemma actions_within_max_action_witness :
  ∃ ag w out w' a,
    Agent.init demo_config demo_env demo_world = Ok (ag, w)
    ∧ Agent.choose_action ag {| observation := [0] |}
        {[ "mode" := PyStr "train" ]} w
      = Ok (out, w')
    ∧ out !! "raw_action" = Some (PyArray a)
    ∧ within 2 a.
Proof.
  destruct demo_agent_exists as (ag & w & Hi & Hm).
  destruct (Agent_init_call_row _ _ _ _ _ (heap w) [0] Hi
              (shapes_kept_refl (heap w)) eq_refl) as [Hcall _].
  destruct (choose_action_total ag {| observation := [0] |}
              {[ "mode" := PyStr "train" ]} w (PyStr "train") _ Hcall
              (lookup_singleton_eq _ _)) as (out & w' & Hc).
  destruct (proj1 (actions_within_max_action ag
                     (proj1 (Agent_init_Ok _ _ _ _ _ Hi)))
              _ _ _ _ _ Hc) as (a & Ho & _ & Ha).
  exists ag, w, out, w', a. split; [exact Hi|]. split; [exact Hc|].
  split; [exact Ho|]. rewrite <- Hm. apply Ha. rewrite Hm. lra.
Defined.

(** * The runner and the TD3 agent *)

(** The first step of a rollout with the TD3 agent: the runner passes what
    the environment returned and [info=] only. *)
Lemma TD3_first_step `{Backend} {E : Type} `{!VecEnv E pyobs}
  (self : EpisodeRunner.t (Agent.t * World) E) (obs : pyobs)
  (D : BatchEpisode.t pyobs) :
  EpisodeRunner.step (self, obs, D)
  = Raise
      match obs with
      | ObsBatch _ => AttributeError "observation"
      | ObsTimeStep x =>
          match Actor.call_row (heap (EpisodeRunner.agent self).2)
                  (Agent.actor (EpisodeRunner.agent self).1) (observation x)
          with
          | Ok _ => KeyError "mode"
          | Raise e => e
          end
      end.
Proof.
  unfold EpisodeRunner.step.
  cbn [agent_choose_action TD3_BaseAgent].
  destruct obs as [x|rows]; cbn [get_observation bind]; [|reflexivity].
  rewrite choose_action_no_mode by reflexivity.
  by destruct (Actor.call_row _ _ _).
Qed.

Lemma TD3_call_raises `{Backend} {E : Type} `{!VecEnv E pyobs}
  (self : EpisodeRunner.t (Agent.t * World) E) (T : Z)
  (st0 : EpisodeRunner.t (Agent.t * World) E * pyobs * BatchEpisode.t pyobs) :
  (1 ≤ T)%Z →
  EpisodeRunner.start self = Ok st0 →
  EpisodeRunner.call self T
  = Raise
      match st0.1.2 with
      | ObsBatch _ => AttributeError "observation"
      | ObsTimeStep x =>
          match Actor.call_row (heap (EpisodeRunner.agent st0.1.1).2)
                  (Agent.actor (EpisodeRunner.agent st0.1.1).1)
                  (observation x)
          with
          | Ok _ => KeyError "mode"
          | Raise e => e
          end
      end.
Proof.
  intros HT Hstart. unfold EpisodeRunner.call. rewrite Hstart. cbn [bind].
  destruct (Z.to_nat T) as [|n] eqn:Hn; [lia|].
  destruct st0 as [[self0 obs0] D0]. cbn [EpisodeRunner.loop fst snd].
  by rewrite TD3_first_step.
Qed.

(** C7 (amended): in every step of a rollout the runner obtains the action
    from the key ['action'] of the dictionary the agent's
    [choose_action(obs, info=info)] returns (a tensor turned into the list
    of its rows) and steps the environment with exactly that action.  The
    TD3 agent is not an agent for this runner: its [choose_action] reads
    [x.observation] and [kwargs['mode']] and answers under ['raw_action']
    only, never under ['action'].  Driven by this runner, every rollout of
    at least one step raises in its first step, before the environment is
    stepped: [AttributeError] on a plain batch of observations, the error
    of the forward pass on an observation of the wrong width, and
    [KeyError('mode')] otherwise. *)
Theorem runner_obtains_action `{Backend} :
  (∀ (A E Obs : Type) (BA : BaseAgent A Obs) (VE : VecEnv E Obs)
     (self self' : EpisodeRunner.t A E) (obs obs' : Obs)
     (D D' : BatchEpisode.t Obs),
     EpisodeRunner.step (self, obs, D) = Ok (self', obs', D') →
     ∃ out agent' action raw_action reward done info env',
       agent_choose_action (EpisodeRunner.agent self) obs
         {[ "info" := PyDict [] ]} = Ok (out, agent')
       ∧ out !! "action" = Some action
       ∧ raw_action
         = match action with PyTensor rows => PyList rows | _ => action end
       ∧ env_step (EpisodeRunner.env self) raw_action
         = Ok (obs', reward, done, info, env')
       ∧ BatchEpisode.actions D' = BatchEpisode.actions D ++ [raw_action]
       ∧ EpisodeRunner.agent self' = agent' ∧ EpisodeRunner.env self' = env')
  ∧ (∀ ag x kwargs w out w',
       Agent.choose_action ag x kwargs w = Ok (out, w') →
       is_Some (kwargs !! "mode")
       ∧ out !! "action" = None
       ∧ ∃ a, out !! "raw_action" = Some (PyArray a))
  ∧ (∀ (E : Type) (VE : VecEnv E pyobs)
       (self : EpisodeRunner.t (Agent.t * World) E) (T : Z)
       (st0 : EpisodeRunner.t (Agent.t * World) E * pyobs
              * BatchEpisode.t pyobs),
       (1 ≤ T)%Z →
       EpisodeRunner.start self = Ok st0 →
       EpisodeRunner.call self T
       = Raise
           match st0.1.2 with
           | ObsBatch _ => AttributeError "observation"
           | ObsTimeStep x =>
               match Actor.call_row (heap (EpisodeRunner.agent st0.1.1).2)
                       (Agent.actor (EpisodeRunner.agent st0.1.1).1)
                       (observation x)
               with
               | Ok _ => KeyError "mode"
               | Raise e => e
               end
           end).
Proof.
  split; [|split].
  - intros A E Obs BA VE self self' obs obs' D D' Hs. by eapply step_Ok.
  - intros ag x kwargs w out w' Hc.
    apply choose_action_raw_action in Hc as (mode & a & Hm & -> & _).
    split; [by exists mode|]. split; [reflexivity|].
    exists a. apply lookup_singleton_eq.
  - intros E VE self T st0 HT Hstart. by apply TD3_call_raises.
Qed.

(** The runner driving the TD3 agent on an environment that is done at its
    third step: the rollout does not succeed. *)
Lemma runner_obtains_action_counterexample :
  ∃ ag w,
    Agent.init demo_config demo_env demo_world = Ok (ag, w)
    ∧ EpisodeRunner.call
        {| EpisodeRunner.config := demo_config;
           EpisodeRunner.agent := (ag, w);
           EpisodeRunner.env := {| done_at := 3; steps_taken := 0 |} |} 5
      = Raise (KeyError "mode").
Proof.
  destruct demo_agent_exists as (ag & w & Hi & _).
  exists ag, w. split; [exact Hi|].
  destruct (Agent_init_call_row _ _ _ _ _ (heap w) [0] Hi
              (shapes_kept_refl (heap w)) eq_refl) as [Hcall _].
  erewrite (TD3_call_raises _ 5); [|lia|reflexivity].
  cbn [fst snd EpisodeRunner.agent observation]. by rewrite Hcall.
Qed.

Lemma runner_obtains_action_witness :
  ∃ ag w,
    Agent.init demo_config demo_env demo_world = Ok (ag, w)
    ∧ EpisodeRunner.call
        {| EpisodeRunner.config := demo_config;
           EpisodeRunner.agent := (ag, w);
           EpisodeRunner.env := {| batch_width := 1 |} |} 5
      = Raise (AttributeError "observation").
Proof.
  destruct demo_agent_exists as (ag & w & Hi & _).
  exists ag, w. split; [exact Hi|].
  pose proof (runner_obtains_action (H := still_backend)) as (_ & _ & Hr).
  apply (Hr BatchEnv _ _ 5%Z
           ({| EpisodeRunner.config := demo_config;
               EpisodeRunner.agent := (ag, w);
               EpisodeRunner.env := {| batch_width := 1 |} |},
            ObsBatch [[0]],
            BatchEpisode.add_observation (ObsBatch [[0]])
              (BatchEpisode.init 1))).
  - lia.
  - reflexivity.
Defined.

(** * The critic step of an iteration *)






(** * Networks initialised with zeros *)

Section ZeroInit.
Context `{Backend}.
Hypothesis init_zero : ∀ n g, (init_sample n g).1 = 0.










End ZeroInit.


Lemma dot_zero (a b : list R) : Forall (eq 0) b → Linear.dot a b = 0.
Proof.
  unfold Linear.dot, torch.sum. intros Hb. revert a.
  induction Hb as [|y b <- _ IH]; intros [|x a]; simpl; try done.
  rewrite IH. lra.
Qed.

Lemma zip_plus_zero (a b : list R) :
  Forall (eq 0) a → Forall (eq 0) b → Forall (eq 0) (zip_with Rplus a b).
Proof.
  intros Ha. revert b. induction Ha as [|x a <- _ IH]; intros b Hb;
    [constructor|].
  destruct Hb as [|y b <- Hb]; simpl; constructor; [lra|by apply IH].
Qed.

(** With weights and bias of zeros a layer returns zeros, whatever its
    input. *)
Lemma Linear_forward_zero (h : gmap nat tensor) (l : Linear.t) (x : list R) :
  zero_store h → Forall (eq 0) (Linear.forward h l x).
Proof.
  intros Hz. unfold Linear.forward, vadd. apply zip_plus_zero; [|apply Hz].
  apply Forall_map, Forall_forall. intros k _. symmetry. apply dot_zero.
  unfold Linear.row. apply Forall_take, Forall_drop, Hz.
Qed.

Lemma tanh_zero : tanh 0 = 0.
Proof. unfold tanh. rewrite sinh_0. unfold Rdiv. apply Rmult_0_l. Qed.

Lemma Actor_forward_row_zero (h : gmap nat tensor) (a : Actor.t) (x : list R) :
  zero_store h → Forall (eq 0) (Actor.forward_row h a x).
Proof.
  intros Hz. unfold Actor.forward_row. apply Forall_map.
  eapply Forall_impl; [by apply Linear_forward_zero|].
  intros z <-. simpl. rewrite tanh_zero. lra.
Qed.



Lemma stepping_agent_exists :
  ∃ ag w,
    Agent.init half_config demo_env stepping_world = Ok (ag, w)
    ∧ Agent.max_action ag = 2.
Proof. apply Agent_init_total, demo_env_symmetric. Qed.



(** * The updates of [learn] on the store *)











(** ** The updates on tensors with one value throughout *)








(** * The reported critic loss *)

(** X17: the critic loss [learn] reports is never negative: with a replay
    buffer that returns batches of at least one transition, it is the mean
    over the iterations of a sum of two mean squared errors, each over the
    transitions of a batch. *)
Theorem learn_critic_loss_nonneg `{Backend} (describe : list R → string)
  (ag ag' : Agent.t) (replay : Replay) (T : Z) (w w' : World) (out : Agent.Out) :
  (∀ n g, transitions (Agent.env ag) (replay_sample replay n g).1) →
  Agent.learn describe ag replay T w = Ok (out, ag', w') →
  0 <= Agent.out_critic_loss out.
Proof.
  intros _ Hl. unfold Agent.learn in Hl.
  apply bind_Ok in Hl as ([[ag1 l1] w1] & Hloop & Hl).
  apply bind_Ok in Hl as (n & _ & Hl).
  apply bind_Ok in Hl as (agn & _ & Hl).
  apply bind_Ok in Hl as (cgn & _ & Hl).
  injection Hl as <- _ _. cbn [Agent.out_critic_loss].
  apply mean_nonneg. eapply learn_loop_losses; [exact Hloop|]. constructor.
Qed.

Lemma stepping_batch (n : Z) (g : unit) :
  transitions demo_env (replay_sample (Backend := stepping_backend) tt n g).1.
Proof.
  unfold transitions. cbn.
  repeat split; try discriminate; repeat constructor.
Qed.

Lemma learn_critic_loss_nonneg_witness :
  ∃ (ag : @Agent.t stepping_backend) w out ag' w',
    Agent.init half_config demo_env stepping_world = Ok (ag, w)
    ∧ Agent.learn (H := stepping_backend) (λ _, EmptyString) ag tt 4 w
      = Ok (out, ag', w')
    ∧ 0 <= Agent.out_critic_loss out.
Proof.
  destruct stepping_agent_exists as (ag & w & Hi & _).
  pose proof (Agent_init_Ok _ _ _ _ _ Hi) as (_ & Hc & Henv & _).
  assert (Hd : agent_policy_delay (Agent.config ag) ≠ 0%Z).
  { rewrite Hc. discriminate. }
  assert (HT : (1 ≤ 4 ≤ int64_max)%Z) by (unfold int64_max; lia).
  destruct (learn_Ok (H := stepping_backend) (λ _, EmptyString) ag tt 4 w HT Hd)
    as (out & ag' & w' & Hl & _).
  exists ag, w, out, ag', w'. split; [exact Hi|]. split; [exact Hl|].
  apply (learn_critic_loss_nonneg (H := stepping_backend) _ _ _ _ _ _ _ _
           ltac:(intros n g; rewrite Henv; apply stepping_batch) Hl).
Defined.

